(** * qDat: path-complexity equation builders, recursion counters and the
      metrics worker pool, embedded from the Python sources.

    Layout: Part I holds the embedding (one module per source file),
    Part II the lemmas and theorems about it. *)

From Stdlib Require Import ZArith List String Ascii Bool Lia DecimalString DecimalZ.
From stdpp Require Import gmap strings list fin_maps sorting.

Local Open Scope Z_scope.

(* ===================================================================== *)
(** * Part I.  The embedding                                              *)
(* ===================================================================== *)

(** ** Python prelude: exceptions, results, loops, indexing *)

Module Py.

(** The built-in exception classes the embedded code can raise or catch. *)
Inductive exn : Type :=
| IndexError
| KeyError
| ValueError
| TypeError
| TimeoutError
| LinAlgError
| UnboundLocalError.

(** [__name__] of the exception class. *)
Definition class_name (e : exn) : string :=
  match e with
  | IndexError => "IndexError"
  | KeyError => "KeyError"
  | ValueError => "ValueError"
  | TypeError => "TypeError"
  | TimeoutError => "TimeoutError"
  | LinAlgError => "LinAlgError"
  | UnboundLocalError => "UnboundLocalError"
  end%string.

(** A computation either returns or raises. *)
Inductive result (A : Type) : Type :=
| Ok (a : A)
| Raise (e : exn).
Arguments Ok {A} a.
Arguments Raise {A} e.

Definition bind {A B} (r : result A) (k : A -> result B) : result B :=
  match r with
  | Ok a => k a
  | Raise e => Raise e
  end.

(** [range(n)]: the integers 0, 1, ..., n-1 (empty when n <= 0). *)
Definition range (n : Z) : list Z := map Z.of_nat (seq 0 (Z.to_nat n)).

(** [l[i]] for a Python list: negative indices count from the end, anything
    outside [-len, len) raises IndexError. *)
Definition index {A} (l : list A) (i : Z) : result A :=
  let n := Z.of_nat (length l) in
  let j := if i <? 0 then i + n else i in
  if (0 <=? j) && (j <? n) then
    match nth_error l (Z.to_nat j) with
    | Some a => Ok a
    | None => Raise IndexError
    end
  else Raise IndexError.

(** A [for x in xs: body] loop over a state, in the option monad used for
    fuel-indexed recursive functions. *)
Fixpoint for_opt {A S} (xs : list A) (body : A -> S -> option S) (s : S) : option S :=
  match xs with
  | [] => Some s
  | x :: rest =>
      match body x s with
      | Some s' => for_opt rest body s'
      | None => None
      end
  end.

(** The same loop when the body can raise. *)
Fixpoint for_res {A S} (xs : list A) (body : A -> S -> result S) (s : S) : result S :=
  match xs with
  | [] => Ok s
  | x :: rest =>
      match body x s with
      | Ok s' => for_res rest body s'
      | Raise e => Raise e
      end
  end.

(** A [dict] as the code uses it where iteration order matters: an
    association list in insertion order.  [d[k] = v] overwrites the value
    in place when [k] is present and appends a new entry otherwise. *)
Fixpoint dict_get {K V} `{EqDecision K} (k : K) (d : list (K * V)) : option V :=
  match d with
  | [] => None
  | (k', v) :: rest => if decide (k' = k) then Some v else dict_get k rest
  end.

Fixpoint dict_set {K V} `{EqDecision K} (k : K) (v : V) (d : list (K * V)) : list (K * V) :=
  match d with
  | [] => [(k, v)]
  | (k', v') :: rest =>
      if decide (k' = k) then (k, v) :: rest else (k', v') :: dict_set k v rest
  end.

(** [k in d]. *)
Definition dict_mem {K V} `{EqDecision K} (k : K) (d : list (K * V)) : bool :=
  match dict_get k d with Some _ => true | None => false end.

(** [d[k]] as an expression: KeyError when [k] is absent. *)
Definition dict_item {K V} `{EqDecision K} (k : K) (d : list (K * V)) : result V :=
  match dict_get k d with Some v => Ok v | None => Raise KeyError end.

(** [str(n)] for an int: its decimal numeral. *)
Definition str (n : Z) : string := NilZero.string_of_int (Z.to_int n).

(** [int(s)] for a decimal numeral, ValueError otherwise. *)
Definition int (s : string) : result Z :=
  match NilZero.int_of_string s with
  | Some d => Ok (Z.of_int d)
  | None => Raise ValueError
  end.

(** [chr(n)]: the character with code point [n]; ValueError outside
    [range(0x110000)].  A character is represented by its code point. *)
Definition chr (n : Z) : result Z :=
  if (0 <=? n) && (n <? 1114112) then Ok n else Raise ValueError.

(** [c.isspace()] for a character given by its code point: the
    characters that [str.strip()] and [str.split()] take for whitespace. *)
Definition isspace (c : Z) : bool :=
  (9 <=? c) && (c <=? 13) || (28 <=? c) && (c <=? 32) || (c =? 133) || (c =? 160) ||
  (c =? 5760) || (8192 <=? c) && (c <=? 8202) || (c =? 8232) || (c =? 8233) ||
  (c =? 8239) || (c =? 8287) || (c =? 12288).

(** The loop when the body can run out of recursion depth ([None]) or
    raise. *)
Fixpoint for_or {A S} (xs : list A) (body : A -> S -> option (result S)) (s : S)
  : option (result S) :=
  match xs with
  | [] => Some (Ok s)
  | x :: rest =>
      match body x s with
      | Some (Ok s') => for_or rest body s'
      | other => other
      end
  end.

End Py.

(** [x ← c; k] sequences computations that may raise. *)
#[export] Instance result_bind : MBind Py.result := fun _ _ k r => Py.bind r k.
#[export] Instance result_ret : MRet Py.result := fun _ a => Py.Ok a.

(** ** recursion.py *)

Module recursion.

(** [recurlists(numloops, points)].  The function recurses on
    [numloops - 1] until it meets 1, so it only returns for
    [numloops >= 1]; [fuel] bounds the recursion depth and [None] is
    "no result within that depth". *)
Fixpoint recurlists (fuel : nat) (numloops points : Z) : option (list (list Z)) :=
  match fuel with
  | O => None
  | S fuel' =>
      if numloops =? 1 then Some [[points]]
      else
        Py.for_opt (Py.range (points + 1))
          (fun i l =>
             match recurlists fuel' (numloops - 1) (points - i) with
             | Some sublist =>
                 (* newList collects [i] + entry for every entry *)
                 let newList := fold_left (fun acc entry => acc ++ [i :: entry]) sublist [] in
                 Some (l ++ newList)
             | None => None
             end)
          []
  end.

(** Sum of the entries of a list. *)
Definition total (c : list Z) : Z := fold_right Z.add 0 c.

(** A weak composition of [points] into [numloops] parts. *)
Definition weak_composition (numloops points : Z) (c : list Z) : Prop :=
  Z.of_nat (length c) = numloops /\ Forall (fun z => 0 <= z) c /\ total c = points.

(** The result written as a structural recursion on the number of parts
    after the first; used to reason about [recurlists]. *)
Fixpoint compositions (n : nat) (points : Z) : list (list Z) :=
  match n with
  | O => [[points]]
  | S n' => flat_map (fun i => map (cons i) (compositions n' (points - i)))
                     (Py.range (points + 1))
  end.

(** [recursion(num)]: the list [vals] after the loop over [range(num)].
    [fuel] is the recursion depth granted to [recurlists]. *)
Definition recursion (fuel : nat) (num : Z) : option (Py.result (list Z)) :=
  Py.for_or (Py.range num)
    (fun loop vals =>
       if loop =? 0 then Some (Py.Ok (vals ++ [1]))
       else
         match Py.for_opt (Py.range loop)
                 (fun j allLists =>
                    let numloops := j + 1 in
                    let points := loop - numloops in
                    match recurlists fuel numloops points with
                    | Some l => Some (allLists ++ l)
                    | None => None
                    end)
                 []
         with
         | None => None
         | Some allLists =>
             Some (sum ← Py.for_res allLists
                           (fun list sum =>
                              val ← Py.for_res list
                                      (fun entry val =>
                                         v ← Py.index vals entry;
                                         Py.Ok (val * v))
                                      1;
                              Py.Ok (sum + val))
                           0;
                   Py.Ok (vals ++ [sum]))
         end)
    [].

End recursion.

(** ** Python strings

    A [str] is modelled as a Rocq [string]: a sequence of characters with
    code points below 256.  Iterating a string yields its one-character
    substrings. *)

Module PyStr.

Definition char_str (c : ascii) : string := String c EmptyString.

(** [for char in s]: the one-character strings of [s], in order. *)
Definition chars (s : string) : list string := map char_str (list_ascii_of_string s).

(** [len(s)]. *)
Definition len (s : string) : Z := Z.of_nat (String.length s).

(** [s.split(sep)] for a one-character separator: the maximal pieces
    between separators, empty pieces included. *)
Fixpoint split (sep : ascii) (s : string) : list string :=
  match s with
  | EmptyString => [EmptyString]
  | String c rest =>
      if Ascii.eqb c sep then EmptyString :: split sep rest
      else match split sep rest with
           | w :: ws => String c w :: ws
           | [] => [char_str c]
           end
  end.

(** [s.replace(a, b)] for one-character [a] and [b]. *)
Fixpoint replace (a b : ascii) (s : string) : string :=
  match s with
  | EmptyString => EmptyString
  | String c rest => String (if Ascii.eqb c a then b else c) (replace a b rest)
  end.

(** [c.isspace()] for code points below 256. *)
Definition isspace (c : ascii) : bool :=
  let n := nat_of_ascii c in
  ((9 <=? n) && (n <=? 13) || (28 <=? n) && (n <=? 32) || (n =? 133) || (n =? 160))%nat.

(** [s.split()] with no argument: the maximal runs of non-whitespace
    characters; [cur] is the run being read, in reverse. *)
Fixpoint split_ws_aux (cur : list ascii) (s : string) : list string :=
  let flush := match cur with
               | [] => []
               | _ => [string_of_list_ascii (rev cur)]
               end in
  match s with
  | EmptyString => flush
  | String c rest =>
      if isspace c then flush ++ split_ws_aux [] rest
      else split_ws_aux (c :: cur) rest
  end.

Definition split_ws (s : string) : list string := split_ws_aux [] s.

(** [c.isdigit()] for code points below 256: the ASCII digits and the
    superscript digits (code points 178, 179 and 185). *)
Definition isdigit (c : ascii) : bool :=
  let n := nat_of_ascii c in
  ((48 <=? n) && (n <=? 57) || (n =? 178) || (n =? 179) || (n =? 185))%nat.

(** [s.count(c)] for a one-character [c], as the loop
    [for char in s: if char == c: count += 1] computes it. *)
Definition count (c : ascii) (s : string) : Z :=
  fold_left (fun n ch => if Ascii.eqb ch c then n + 1 else n) (list_ascii_of_string s) 0.

(** [s.find(sub)]: the least index at which [sub] stands in [s], or -1. *)
Fixpoint find (sub s : string) : Z :=
  if String.prefix sub s then 0
  else match s with
       | EmptyString => -1
       | String _ rest => let r := find sub rest in if r <? 0 then -1 else r + 1
       end.

(** [sub in s]. *)
Definition contains (sub s : string) : bool := 0 <=? find sub s.

(** [s.index(sub)]: as [find], with ValueError for -1. *)
Definition index (sub s : string) : Py.result Z :=
  let r := find sub s in if r <? 0 then Py.Raise Py.ValueError else Py.Ok r.

(** [s[i:j]]: negative bounds count from the end, and bounds are clipped
    to the string. *)
Definition slice (s : string) (i j : Z) : string :=
  let n := len s in
  let clip k := if k <? 0 then Z.max (k + n) 0 else Z.min k n in
  string_of_list_ascii
    (firstn (Z.to_nat (clip j - clip i)) (skipn (Z.to_nat (clip i)) (list_ascii_of_string s))).

(** [s.replace(old, new)] for a non-empty [old]: the occurrences of [old]
    are replaced from the left, without overlap; [skip] counts the
    characters of an occurrence still to pass over. *)
Fixpoint replace_sub_aux (old new : string) (skip : nat) (s : string) : string :=
  match s with
  | EmptyString => EmptyString
  | String c rest =>
      match skip with
      | S k => replace_sub_aux old new k rest
      | O =>
          if String.prefix old s
          then String.append new (replace_sub_aux old new (String.length old - 1) rest)
          else String c (replace_sub_aux old new O rest)
      end
  end.

Definition replace_sub (old new s : string) : string := replace_sub_aux old new O s.

End PyStr.

(** ** recursion2.py *)

Module recursion2.

(** [getNextStrings(dict, current)]: every string obtained from [current]
    by replacing each character that is a key of [dict] with one of the
    [|]-separated options of its rule. *)
Definition getNextStrings (dict : gmap string string) (current : string) : list string :=
  fold_left
    (fun returnlist char =>
       match dict !! char with
       | Some rule =>
           let options := PyStr.split "|" rule in
           fold_left
             (fun tempList option =>
                fold_left (fun tempList str => tempList ++ [String.append str option])
                          returnlist tempList)
             options []
       | None =>
           fold_left (fun tempList str => tempList ++ [String.append str char]) returnlist []
       end)
    (PyStr.chars current) [EmptyString].

(** The flag [done] of [getLang]: no character of [current] is a key. *)
Definition done (dict : gmap string string) (current : string) : bool :=
  fold_left (fun done char => if decide (is_Some (dict !! char)) then false else done)
            (PyStr.chars current) true.

(** [getLang(num, dict, current)].  A rule may rewrite a string to itself,
    so the recursion need not end; [fuel] bounds its depth. *)
Fixpoint getLang (fuel : nat) (num : Z) (dict : gmap string string) (current : string)
  : option (list string) :=
  match fuel with
  | O => None
  | S fuel' =>
      if done dict current then Some [current]
      else if PyStr.len current <=? num then
        Py.for_opt (getNextStrings dict current)
          (fun str returnlist =>
             match getLang fuel' num dict str with
             | Some r => Some (returnlist ++ r)
             | None => None
             end)
          []
      else Some []
  end.

(** [[0] * n]. *)
Definition zeros (n : Z) : list Z := repeat 0 (Z.to_nat n).

(** [l[i] += 1] for an index [i >= 0]. *)
Definition incr_at (l : list Z) (i : Z) : Py.result (list Z) :=
  v ← Py.index l i;
  Py.Ok (<[Z.to_nat i := v + 1]> l).

(** [recursion(num, dict, start)]. *)
Definition recursion (fuel : nat) (num : Z) (dict : gmap string string) (start : string)
  : option (Py.result (list Z)) :=
  match getLang fuel num dict start with
  | Some inLanguage =>
      Some (Py.for_res inLanguage
              (fun str returnlist => incr_at returnlist (PyStr.len str))
              (zeros (num + 1)))
  | None => None
  end.

(** The grammar the module itself runs [recursion] on. *)
Definition module_dict : gmap string string :=
  <["r" := "1s"]> (<["t" := "1s3r"]> (<["s" := "2t|4"]> (<["x" := "1s"]> ∅))).

End recursion2.

(** ** The edge dictionary shared by sympycfg2.py and CFG2CFG.py

    Both files start [calculateSystem] with the same loop: it groups the
    edge list by start node, keyed by [str(edge[0])], keeping for each start
    node the list of its end nodes in edge-list order. *)

Module Edges.

(** An edge [[start, end]] of the edge list. *)
Definition edge : Type := (Z * Z)%type.

Definition edgedict_of (edgelist : list edge) : list (string * list Z) :=
  fold_left
    (fun edgedict (e : edge) =>
       let startnode := Py.str (fst e) in
       let endnodes :=
         match Py.dict_get startnode edgedict with
         | Some ends => ends ++ [snd e]
         | None => [snd e]
         end in
       Py.dict_set startnode endnodes edgedict)
    edgelist [].

(** The start nodes of an edge list, each once, in the order of their
    first edge; and the end nodes of the edges that leave a node, in
    edge-list order. *)
Definition starts (edgelist : list edge) : list Z :=
  fold_left (fun acc (e : edge) => if bool_decide (fst e ∈ acc) then acc else acc ++ [fst e])
            edgelist [].

Definition ends_of (a : Z) (edgelist : list edge) : list Z :=
  map snd (filter (fun e : edge => fst e = a) edgelist).

(** The scan of one line by [readCFG]: the digits read before the first
    character that is not a digit go to [start], every later digit goes to
    [end]; the state is [(start, end, startDone)]. *)
Definition scan_char (st : string * string * bool) (char : ascii) : string * string * bool :=
  let '(start, end_, startDone) := st in
  if PyStr.isdigit char then
    if startDone then (start, String.append end_ (PyStr.char_str char), startDone)
    else (String.append start (PyStr.char_str char), end_, startDone)
  else (start, end_, true).

Definition scan_line (x : string) : string * string * bool :=
  fold_left scan_char (list_ascii_of_string x) (EmptyString, EmptyString, false).

(** What one line contributes: nothing when [end] is empty, else the edge
    [[int(start), int(end)]]. *)
Definition parse_line (x : string) : Py.result (option edge) :=
  let '(start, end_, _) := scan_line x in
  if String.eqb end_ EmptyString then Py.Ok None
  else
    s ← Py.int start;
    e ← Py.int end_;
    Py.Ok (Some (s, e)).

(** The edge list [readCFG] extracts from the lines of the file. *)
Definition read_edges (lines : list string) : Py.result (list edge) :=
  Py.for_res lines
    (fun x edgelist =>
       r ← parse_line x;
       match r with
       | Some e => Py.Ok (edgelist ++ [e])
       | None => Py.Ok edgelist
       end)
    [].

(** A line of a dot file for an edge: [a -> b;] and a newline. *)
Definition edge_line (e : edge) : string :=
  String.append (Py.str (fst e))
    (String.append " -> " (String.append (Py.str (snd e))
       (String ";" (String (ascii_of_nat 10) EmptyString)))).

(** Start nodes that are non-negative and have a character
    [chr(node + 65)]. *)
Definition valid_nodes (edgelist : list edge) : Prop :=
  Forall (fun e : edge => 0 <= fst e < 1114047) edgelist.

(** Every character of the string is a digit. *)
Definition all_digit (x : string) : Prop :=
  Forall (fun c => PyStr.isdigit c = true) (list_ascii_of_string x).

(** No character of the string is a digit. *)
Definition no_digit (x : string) : Prop :=
  Forall (fun c => PyStr.isdigit c = false) (list_ascii_of_string x).

End Edges.

(** ** sympy expressions

    The builder composes sympy expressions with [+], [*], [**] and [-]
    from integer constants and symbols.  sympy puts every expression in a
    canonical form as it is built, so two expressions are compared by what
    they denote: [eval] gives the value of an expression under an
    assignment of integers to the symbols.  A symbol is identified by the
    code point of its one-character name.  Exponents are the recursion
    multiplicities, which are non-negative. *)

Module Sympy.

Inductive expr : Type :=
| Integer (z : Z)
| Symbol (code : Z)
| Add (a b : expr)
| Sub (a b : expr)
| Mul (a b : expr)
| Pow (a : expr) (k : Z).

(** The value of a polynomial expression under an integer assignment of
    its symbols.  A power is taken with [Z.pow]: this is the value of the
    sympy expression for a non-negative exponent only (sympy builds a
    quotient for a negative one), and the statements below use it on
    such expressions only. *)
Fixpoint eval (rho : Z -> Z) (e : expr) : Z :=
  match e with
  | Integer z => z
  | Symbol c => rho c
  | Add a b => eval rho a + eval rho b
  | Sub a b => eval rho a - eval rho b
  | Mul a b => eval rho a * eval rho b
  | Pow a k => eval rho a ^ k
  end.

(** A one-character string that [symbols] takes for the name of one
    symbol: [symbols] strips whitespace and reads [,] and [:] as
    separators, and raises ValueError when no name is left. *)
Definition symbol_name (c : Z) : bool :=
  negb (Py.isspace c || (c =? 44) || (c =? 58)).

(** [symbols(chr(n))]: the symbol named by the character; ValueError from
    [chr] outside the code points, and from [symbols] for a character
    that is no name. *)
Definition symbols_chr (n : Z) : Py.result expr :=
  c ← Py.chr n;
  if symbol_name c then Py.Ok (Symbol c) else Py.Raise Py.ValueError.

(** [symbols('x')]: the length variable; 'x' is code point 120. *)
Definition x : expr := Symbol 120.

(** An assignment satisfies a system when every member evaluates to 0;
    this is the set [nonlinsolve] describes. *)
Definition solves (system : list expr) (rho : Z -> Z) : Prop :=
  Forall (fun e => eval rho e = 0) system.

(** A solution tuple gives every unknown an expression: the assignment
    [rho] with the unknowns [symbs] set to the values of the tuple's
    components under [rho]. *)
Fixpoint assign (symbs tuple : list expr) (rho : Z -> Z) : Z -> Z :=
  match symbs, tuple with
  | Symbol c :: symbs', e :: tuple' =>
      fun n => if n =? c then eval rho e else assign symbs' tuple' rho n
  | _, _ => rho
  end.

(** What sympy documents of [nonlinsolve(system, symbs)], for a system
    with finitely many solutions: the result is a [FiniteSet] whose
    [args] are the solution tuples, one component per unknown in the
    order of [symbs].  Every tuple solves the system whatever the values
    of the other symbols; every assignment that solves the system is
    given by one of the tuples; and, the result being a set, no two of
    its tuples denote the same solution. *)
Definition solution_set (system symbs : list expr) (args : list (list expr)) : Prop :=
  (forall t, t ∈ args ->
     length t = length symbs /\ forall rho, solves system (assign symbs t rho)) /\
  (forall rho, solves system rho ->
     exists t, t ∈ args /\ forall n, assign symbs t rho n = rho n) /\
  (forall i j t1 t2, args !! i = Some t1 -> args !! j = Some t2 ->
     (forall rho, map (eval rho) t1 = map (eval rho) t2) -> i = j).

End Sympy.

(** ** sympycfg2.py *)

Module sympycfg2.

Import Sympy.

(** [calculateSystem(edgelist, recurlist)], lines 27 to 56: the list
    [system] of expressions [rhs - sym] and the list [symbs] of unknowns
    it has built when it calls sympy's [nonlinsolve], both in the order of
    the keys of the edge dictionary.  The rest of the function, the call
    of the solver and the list it returns, is [calculateSystem_solved]
    below. *)
Definition calculateSystem (edgelist : list Edges.edge) (recurlist : list Z)
  : Py.result (list expr * list expr) :=
  let edgedict := Edges.edgedict_of edgelist in
  first ← Py.index edgelist 0;
  firstnode ← symbols_chr (fst first + 65);
  let recurexpr := Mul firstnode x in
  Py.for_res edgedict
    (fun '(startnode, endnodes) '(system, symbs) =>
       sn ← Py.int startnode;
       sym ← symbols_chr (sn + 65);
       let symbs := symbs ++ [sym] in
       expr ← Py.for_res endnodes
                (fun node expr =>
                   expr ← (if Py.dict_mem (Py.str node) edgedict
                           then var ← symbols_chr (node + 65); Py.Ok (Add expr (Mul var x))
                           else Py.Ok (Add expr x));
                   sn ← Py.int startnode;
                   k ← Py.index recurlist sn;
                   (* inside the loop over the end nodes *)
                   Py.Ok (Mul (Pow recurexpr k) expr))
                (Integer 0);
       Py.Ok (system ++ [Sub expr sym], symbs))
    ([], []).

(** The equation of section 4.1 of the specification, in its words: the
    sum over the outgoing edges, [symbol(t)*x] for a target with outgoing
    edges and [x] for a terminal one, multiplied once by
    [(symbol(entry)*x)^k]. *)
Definition spec_rhs (entry : Z) (targets : list (Z * bool)) (k : Z) : expr :=
  let sum := fold_left (fun acc (t : Z * bool) =>
                          if snd t then Add acc (Mul (Symbol (fst t + 65)) x) else Add acc x)
                       targets (Integer 0) in
  Mul (Pow (Mul (Symbol (entry + 65)) x) k) sum.

(** The expression the loop over the end nodes of one start node builds,
    written without the error plumbing: [k] is the multiplicity of the
    start node, a target counts as non-terminal when it is a start node. *)
Definition inner_expr (edgelist : list Edges.edge) (recurexpr : expr) (k : Z)
  (ends : list Z) : expr :=
  fold_left
    (fun expr node =>
       Mul (Pow recurexpr k)
           (if bool_decide (node ∈ Edges.starts edgelist)
            then Add expr (Mul (Symbol (node + 65)) x)
            else Add expr x))
    ends (Integer 0).

(** The value of one step along an edge into [node]: [symbol(node)*x] when
    [node] has outgoing edges, [x] when it is terminal. *)
Definition edge_term (edgelist : list Edges.edge) (rho : Z -> Z) (node : Z) : Z :=
  if bool_decide (node ∈ Edges.starts edgelist) then rho (node + 65) * rho 120 else rho 120.

(** [calculateSystem(edgelist, recurlist)] in full, lines 27 to 63:
    the system is handed to [nonlinsolve], and the function returns the
    list of the first components ([i[0]], the solution for [symbs[0]]) of
    the tuples in [solutions.args], in their order.  The solver belongs
    to sympy and is an argument here: [nonlinsolve system symbs] stands
    for [nonlinsolve(system, symbs).args]. *)
Definition calculateSystem_solved (nonlinsolve : list expr -> list expr -> list (list expr))
  (edgelist : list Edges.edge) (recurlist : list Z) : Py.result (list expr) :=
  '(system, symbs) ← calculateSystem edgelist recurlist;
  let solutions := nonlinsolve system symbs in
  Py.for_res solutions
    (fun i ret => i0 ← Py.index i 0; Py.Ok (ret ++ [i0]))
    [].

(** The start nodes have characters that name a symbol, below the
    surrogate code points (which [print(system)] could not encode). *)
Definition symbol_names (edgelist : list Edges.edge) : Prop :=
  Forall (fun e : Edges.edge =>
            symbol_name (fst e + 65) = true /\ fst e + 65 < 55296) edgelist.

(** An edge list the builder accepts: the start nodes are valid, their
    characters name symbols, and every start node has an entry in
    [recurlist]. *)
Definition well_formed (edgelist : list Edges.edge) (recurlist : list Z) : Prop :=
  Edges.valid_nodes edgelist /\
  symbol_names edgelist /\
  Forall (fun e : Edges.edge => fst e < Z.of_nat (length recurlist)) edgelist.

(** [readCFG(cfg, recurlist)] on the lines of the file [cfg], as far as
    [calculateSystem] above goes: the system handed to the solver. *)
Definition readCFG (lines : list string) (recurlist : list Z)
  : Py.result (list expr * list expr) :=
  edgelist ← Edges.read_edges lines;
  calculateSystem edgelist recurlist.

End sympycfg2.

(** ** CFG2CFG.py *)

Module CFG2CFG.

(** The equations are built as text.  A string is the list of its code
    points, so that [chr] of any node number has a representation. *)
Definition ustr : Type := list Z.

(** A string literal. *)
Definition lit (s : string) : ustr :=
  map (fun c => Z.of_nat (nat_of_ascii c)) (list_ascii_of_string s).

(** [chr(n)] as a one-character string. *)
Definition chr (n : Z) : Py.result ustr := c ← Py.chr n; Py.Ok [c].

(** [calculateSystem(edgelist, recurlist)]: the dictionary from node
    letters to equation right-hand sides, in insertion order. *)
Definition calculateSystem (edgelist : list Edges.edge) (recurlist : list Z)
  : Py.result (list (ustr * ustr)) :=
  let edgedict := Edges.edgedict_of edgelist in
  system ← Py.for_res edgedict
    (fun '(startnode, endnodes) system =>
       eq ← Py.for_res endnodes
              (fun node eq =>
                 if Py.dict_mem (Py.str node) edgedict
                 then c ← chr (node + 65); Py.Ok (eq ++ lit " + " ++ c ++ lit "x")
                 else Py.Ok (eq ++ lit " + " ++ lit "x"))
              [];
       sn ← Py.int startnode;
       key ← chr (sn + 65);
       Py.Ok (Py.dict_set key (drop 3 eq) system))
    [];
  first ← Py.index edgelist 0;
  firstnode ← chr (fst first + 65);
  Py.for_res (Py.range (Z.of_nat (length recurlist)))
    (fun i system =>
       k ← Py.index recurlist i;
       if 0 <? k then
         recurnode ← chr (i + 65);
         if k =? 1 then
           body ← Py.dict_item recurnode system;
           Py.Ok (Py.dict_set recurnode (firstnode ++ lit "x(" ++ body ++ lit ")") system)
         else
           let pow := lit (Py.str k) in
           body ← Py.dict_item recurnode system;
           Py.Ok (Py.dict_set recurnode
                    (firstnode ++ lit "^(" ++ pow ++ lit ")x^(" ++ pow ++ lit ")("
                       ++ body ++ lit ")")
                    system)
       else Py.Ok system)
    system.

(** The text of one step along an edge into [node]: the letter of the
    node and [x] when the node has outgoing edges, [x] when it is
    terminal. *)
Definition term (edgelist : list Edges.edge) (node : Z) : ustr :=
  if bool_decide (node ∈ Edges.starts edgelist) then [node + 65] ++ lit "x" else lit "x".

(** [" + ".join(ts)]. *)
Fixpoint join_plus (ts : list ustr) : ustr :=
  match ts with
  | [] => []
  | [t] => t
  | t :: rest => t ++ lit " + " ++ join_plus rest
  end.

(** The right-hand side of a node of multiplicity [k], given the text
    [body] of the sum over its edges: unchanged for [k <= 0], wrapped once
    in the factor of the entry node otherwise. *)
Definition wrap (firstnode : ustr) (k : Z) (body : ustr) : ustr :=
  if 0 <? k then
    if k =? 1 then firstnode ++ lit "x(" ++ body ++ lit ")"
    else firstnode ++ lit "^(" ++ lit (Py.str k) ++ lit ")x^(" ++ lit (Py.str k) ++ lit ")("
           ++ body ++ lit ")"
  else body.

(** Recursion is marked at start nodes only. *)
Definition recursion_at_starts (edgelist : list Edges.edge) (recurlist : list Z) : Prop :=
  forall i, 0 <= i < Z.of_nat (length recurlist) ->
            0 < nth (Z.to_nat i) recurlist 0 -> i ∈ Edges.starts edgelist.

(** [readCFG(cfg, recurlist)] on the lines of the file [cfg]. *)
Definition readCFG (lines : list string) (recurlist : list Z)
  : Py.result (list (ustr * ustr)) :=
  edgelist ← Edges.read_edges lines;
  calculateSystem edgelist recurlist.

End CFG2CFG.

(** ** command.py: the metrics worker pool *)

Module command.

(** Modelled from the spec: the source-language tag of a CFG
    ([core.env.KnownExtensions] is not among the sources).  The code only
    asks whether the tag is [Python]. *)
Inductive KnownExtensions : Type :=
| Python
| OtherLanguage (extension : string).

Definition is_Python (l : KnownExtensions) : bool :=
  match l with Python => true | OtherLanguage _ => false end.

(** Modelled from the spec: a control-flow graph as the pool sees it
    ([graph.control_flow_graph] is not among the sources): its optional
    name, its language tag and its vertices. *)
Module Graph.
Record t : Type := { name : option string; language : KnownExtensions; vertices : list Z }.
End Graph.

(** A metric value: an int, or the pair of a path-complexity result. *)
Inductive MetricRes : Type :=
| IntRes (n : Z)
| PairRes (first second : string).

(** The tuple [("NA", "Timeout")]. *)
Definition timeout_sentinel : MetricRes := PairRes "NA" "Timeout".

(** What a call of [evaluate] does: it needs [seconds] of running time and
    then returns or raises, or it never finishes. *)
Inductive run : Type :=
| Finishes (seconds : Z) (outcome : Py.result MetricRes)
| Diverges.

(** Modelled from the spec: a metric generator ([metric.MetricAbstract] is
    not among the sources) with its [name()] and its [evaluate(graph)]. *)
Module Metric.
Record t : Type := { name : string; evaluate : Graph.t -> run }.
End Metric.

(** Modelled from the spec: [with Timeout(budget, msg): body]
    ([utils.Timeout] is not among the sources).  The body is abandoned
    with TimeoutError when it exceeds its budget of seconds. *)
Definition Timeout (budget : Z) (body : run) : Py.result MetricRes :=
  match body with
  | Finishes seconds outcome => if budget <? seconds then Py.Raise Py.TimeoutError else outcome
  | Diverges => Py.Raise Py.TimeoutError
  end.

(** A queue item [(graph, generator_name)] and a key of the shared
    dictionary [(graph.name, generator.name())]. *)
Abbreviation task := (Graph.t * string)%type.
Abbreviation key := (option string * string)%type.

(** [timeout = 1200 if metrics_generator.name() == "Path Complexity" else 180]. *)
Definition timeout_of (g : Metric.t) : Z :=
  if String.eqb (Metric.name g) "Path Complexity" then 1200 else 180.

(** The guard that makes the worker [continue] without evaluating. *)
Definition skipped (g : Metric.t) (graph : Graph.t) : bool :=
  String.eqb (Metric.name g) "Lines of Code" && negb (is_Python (Graph.language graph)).

(** One iteration of the loop of [multiprocess_metrics] after the item
    [(graph, generator_name)] has been taken from the queue: the new shared
    dictionary when the iteration ends normally (also through a caught
    exception), or the exception that leaves the loop. *)
Definition loop_body (metrics_generators : gmap string Metric.t)
  (shared_dict : gmap key MetricRes) (item : task) : Py.result (gmap key MetricRes) :=
  let '(graph, generator_name) := item in
  match metrics_generators !! generator_name with
  | None => Py.Raise Py.KeyError
  | Some metrics_generator =>
      let timeout := timeout_of metrics_generator in
      if skipped metrics_generator graph then Py.Ok shared_dict
      else
        match Timeout timeout (Metric.evaluate metrics_generator graph) with
        | Py.Ok result =>
            match Graph.name graph with
            | None => Py.Raise Py.ValueError
            | Some _ =>
                Py.Ok (<[(Graph.name graph, Metric.name metrics_generator) := result]> shared_dict)
            end
        | Py.Raise Py.IndexError => Py.Ok shared_dict
        | Py.Raise Py.TimeoutError =>
            Py.Ok (<[(Graph.name graph, Metric.name metrics_generator) := timeout_sentinel]>
                     shared_dict)
        | Py.Raise e => Py.Raise e
        end
  end.

(** [multiprocess_metrics] when a single invocation takes every item of
    the queue: the shared dictionary at the end of the loop, and the
    exception that left the loop, if one did. *)
Fixpoint multiprocess_metrics (metrics_generators : gmap string Metric.t)
  (queue : list task) (shared_dict : gmap key MetricRes)
  : gmap key MetricRes * option Py.exn :=
  match queue with
  | [] => (shared_dict, None)
  | item :: rest =>
      match loop_body metrics_generators shared_dict item with
      | Py.Ok d => multiprocess_metrics metrics_generators rest d
      | Py.Raise e => (shared_dict, Some e)
      end
  end.

(** Whether the iteration for [item] reaches the call of [evaluate]. *)
Definition calls_evaluate (metrics_generators : gmap string Metric.t) (item : task) : bool :=
  match metrics_generators !! snd item with
  | None => false
  | Some metrics_generator => negb (skipped metrics_generator (fst item))
  end.

(** Where an invocation of [multiprocess_metrics] stands: at the head of
    its loop (about to take the lock), holding an item it has taken from
    the queue, returned, or left by an exception. *)
Inductive worker : Type :=
| AtLock
| Holding (item : task)
| Exited
| Died (e : Py.exn).

(** The state shared by the invocations: the queue, the shared dictionary,
    the invocations, and the calls of [evaluate] made so far, in order. *)
Record pool : Type := {
  queue : list task;
  shared_dict : gmap key MetricRes;
  workers : list worker;
  executed : list task
}.

(** One atomic step of invocation [i] of [multiprocess_metrics]: under the
    lock it takes the first item of the queue or, the queue being empty,
    leaves the loop; holding an item, it runs the loop body on it. *)
Definition multiprocess_metrics_step (metrics_generators : gmap string Metric.t)
  (i : nat) (s : pool) : option pool :=
  match workers s !! i with
  | Some AtLock =>
      match queue s with
      | item :: rest =>
          Some {| queue := rest; shared_dict := shared_dict s;
                  workers := <[i := Holding item]> (workers s); executed := executed s |}
      | [] =>
          Some {| queue := []; shared_dict := shared_dict s;
                  workers := <[i := Exited]> (workers s); executed := executed s |}
      end
  | Some (Holding item) =>
      let calls := if calls_evaluate metrics_generators item
                   then executed s ++ [item] else executed s in
      match loop_body metrics_generators (shared_dict s) item with
      | Py.Ok d =>
          Some {| queue := queue s; shared_dict := d;
                  workers := <[i := AtLock]> (workers s); executed := calls |}
      | Py.Raise e =>
          Some {| queue := queue s; shared_dict := shared_dict s;
                  workers := <[i := Died e]> (workers s); executed := calls |}
      end
  | _ => None
  end.

(** The pool moves when some invocation takes a step. *)
Definition step (metrics_generators : gmap string Metric.t) (s s' : pool) : Prop :=
  exists i, multiprocess_metrics_step metrics_generators i s = Some s'.

(** A run under a given schedule (the invocation that moves at each step). *)
Fixpoint run_schedule (metrics_generators : gmap string Metric.t)
  (schedule : list nat) (s : pool) : option pool :=
  match schedule with
  | [] => Some s
  | i :: rest =>
      match multiprocess_metrics_step metrics_generators i s with
      | Some s' => run_schedule metrics_generators rest s'
      | None => None
      end
  end.

(** Every invocation has returned or been left by an exception. *)
Definition finished (w : worker) : bool :=
  match w with Exited | Died _ => true | _ => false end.

Definition terminated (s : pool) : Prop := forallb finished (workers s) = true.

(** [len(cfg.graph.vertices())]. *)
Definition node_count (cfg : Graph.t) : Z := Z.of_nat (length (Graph.vertices cfg)).

(** [sorted(cfgs, key=..., reverse=True)]: the stable sort by descending
    node count, written as an insertion sort (the stable sorted
    arrangement of a list is unique). *)
Fixpoint insert_desc (cfg : Graph.t) (sorted : list Graph.t) : list Graph.t :=
  match sorted with
  | [] => [cfg]
  | c :: rest =>
      if node_count cfg <? node_count c then c :: insert_desc cfg rest
      else cfg :: c :: rest
  end.

Definition sorted_desc (cfgs : list Graph.t) : list Graph.t :=
  fold_right insert_desc [] cfgs.

(** [cfg.name in methodList]. *)
Definition in_methodList (methodList : list string) (cfg : Graph.t) : bool :=
  match Graph.name cfg with
  | Some n => bool_decide (n ∈ methodList)
  | None => false
  end.

(** The queue that [do_metrics_multithreaded] fills: for every generator,
    last to first, every sorted graph whose name is in [methodList]. *)
Definition task_queue (cfgs : list Graph.t) (generators : list Metric.t)
  (methodList : list string) : list task :=
  let cfgs := sorted_desc cfgs in
  flat_map
    (fun metrics_generator =>
       flat_map (fun cfg => if in_methodList methodList cfg
                            then [(cfg, Metric.name metrics_generator)] else [])
                cfgs)
    (rev generators).

(** [{generator.name(): generator for generator in generators}]. *)
Definition generator_dict (generators : list Metric.t) : gmap string Metric.t :=
  fold_left (fun d g => <[Metric.name g := g]> d) generators ∅.

(** The pool size is the local constant 8 in [do_metrics_multithreaded]. *)
Definition pool_size : nat := 8.

(** The state in which [do_metrics_multithreaded] starts the pool:
    [methodList] holds the cleaned method names read from the CSV file;
    [pool_size] invocations of [multiprocess_metrics] are mapped over the
    pool.  The pool size is kept as an argument so that pools of other
    sizes can be stated. *)
Definition do_metrics_multithreaded (pool_size : nat) (cfgs : list Graph.t)
  (generators : list Metric.t) (methodList : list string) : pool :=
  {| queue := task_queue cfgs generators methodList;
     shared_dict := ∅;
     workers := replicate pool_size AtLock;
     executed := [] |}.


(** What the loop body writes for an item, if anything. *)
Definition written (metrics_generators : gmap string Metric.t) (item : task)
  : option (key * MetricRes) :=
  match metrics_generators !! snd item with
  | None => None
  | Some g =>
      if skipped g (fst item) then None
      else
        match Timeout (timeout_of g) (Metric.evaluate g (fst item)) with
        | Py.Ok result =>
            match Graph.name (fst item) with
            | None => None
            | Some _ => Some ((Graph.name (fst item), Metric.name g), result)
            end
        | Py.Raise Py.TimeoutError =>
            Some ((Graph.name (fst item), Metric.name g), timeout_sentinel)
        | Py.Raise _ => None
        end
  end.

(** The keys of a list of items that are written. *)
Definition written_keys (metrics_generators : gmap string Metric.t) (items : list task)
  : gset key :=
  list_to_set (omap (fun item => fst <$> written metrics_generators item) items).

(** The specification's result map, in its words: one key
    [(graph.name, generator.name())] for every applicable pair of an input
    graph and an input generator. *)
Definition applicable_keys (cfgs : list Graph.t) (generators : list Metric.t) : gset key :=
  list_to_set
    (flat_map (fun g => flat_map (fun cfg => if skipped g cfg then []
                                             else [(Graph.name cfg, Metric.name g)])
                                 cfgs)
              generators).

(** The item an invocation holds, if any. *)
Definition holding_item (w : worker) : list task :=
  match w with Holding item => [item] | _ => [] end.

(** Descending node count, on graphs and on queue items. *)
Definition larger (c1 c2 : Graph.t) : Prop := node_count c2 <= node_count c1.
Definition larger_item (t1 t2 : task) : Prop := larger (fst t1) (fst t2).

(** *** [do_vector]: the feature vector of a path-complexity result *)

(** A field of a feature vector: an int, a float, or a str. *)
Inductive cell (Float : Type) : Type :=
| CInt (z : Z)
| CFloat (f : Float)
| CStr (s : string).
Arguments CInt {Float} z.
Arguments CFloat {Float} f.
Arguments CStr {Float} s.

(** What ends up in [metricDict[method]]: a list, or the message that
    replaces it when the split APC has an unexpected length. *)
Inductive vector (Float : Type) : Type :=
| Fields (l : list (cell Float))
| Message (s : string).
Arguments Fields {Float} l.
Arguments Message {Float} s.

(** The column labels [featureVectorLabel] written ahead of the vectors. *)
Definition featureVectorLabel : list string :=
  ["APC type"; "APC exp coeff"; "APX exp base"; "APC poly coeff"; "APC poly power"]%string.

(** [l[i:j]] for 0 <= i <= j. *)
Definition slice {A} (l : list A) (i j : Z) : list A :=
  firstn (Z.to_nat (j - i)) (skipn (Z.to_nat i) l).

Section do_vector.

(** Floating-point numbers and the parser [float(s)] are left abstract:
    [float s = None] stands for the ValueError of an unparsable string. *)
Context {Float : Type} (float : string -> option Float).

Definition py_float (s : string) : Py.result Float :=
  match float s with
  | Some f => Py.Ok f
  | None => Py.Raise Py.ValueError
  end.

(** The body of the loop of [do_vector] over the methods, from
    [apclist = str(metric[0]).split("*")] to the value stored in
    [metricDict[method]].  [apc] is [str(metric[0])], [pc] is [metric[1]];
    [coeff] is the local variable of that name, which keeps its value from
    one method to the next ([None]: not yet bound). *)
Definition do_vector_entry (apc pc : string) (coeff : option string)
  : Py.result (vector Float * option string) :=
  let apclist := PyStr.split "*" apc in
  if Z.of_nat (length apclist) =? 1 then
    a ← Py.index apclist 0;
    if String.eqb a "n" then
      v ← Py.for_res (PyStr.split_ws pc)
            (fun entry apclist' =>
               let count := PyStr.count "*" entry in
               if count =? 1 then
                 first ← Py.index (PyStr.split "*" entry) 0;
                 f ← py_float first;
                 Py.Ok (Fields [CInt 1; CInt 0; CInt 0; CInt 0; CFloat f])
               else Py.Ok apclist')
            (Fields (map CStr apclist));
      Py.Ok (v, coeff)
    else
      match py_float a with
      | Py.Ok f => Py.Ok (Fields [CInt 0; CInt 0; CInt 0; CFloat f; CInt 0], coeff)
      | Py.Raise _ =>
          Py.Ok (Fields [CInt (-1); CInt (-1); CInt (-1); CInt (-1); CInt (-1);
                         CStr "took too long to run"], coeff)
      end
  else if Z.of_nat (length apclist) =? 3 then
    let pcSplit := PyStr.split "*" (PyStr.replace " " "*" pc) in
    coeff ← Py.for_res (Py.range (Z.of_nat (length pcSplit) - 2))
              (fun i coeff =>
                 if bool_decide (slice pcSplit i (i + 3) = apclist) then
                   c ← Py.index pcSplit (i - 1); Py.Ok (Some c)
                 else Py.Ok coeff)
              coeff;
    a ← Py.index apclist 0;
    if String.eqb a "n" then
      p ← Py.index apclist 2;
      power ← py_float p;
      match coeff with
      | Some c => Py.Ok (Fields [CInt 2; CInt 0; CInt 0; CStr c; CFloat power], coeff)
      | None => Py.Raise Py.UnboundLocalError
      end
    else
      base ← py_float a;
      match coeff with
      | Some c => Py.Ok (Fields [CInt 3; CStr c; CFloat base; CInt 0; CInt 0], coeff)
      | None => Py.Raise Py.UnboundLocalError
      end
  else Py.Ok (Message "Split APC is not of an expected length", coeff).

(** [newRow = row + featureVector], where the second loop of [do_vector]
    appends to a row of the CSV file the value stored for its method: a
    list is appended; a str cannot be concatenated to a list, and
    TypeError is raised. *)
Definition newRow (row : list string) (featureVector : vector Float)
  : Py.result (list (cell Float)) :=
  match featureVector with
  | Fields l => Py.Ok (map CStr row ++ l)
  | Message _ => Py.Raise Py.TypeError
  end.

End do_vector.

(** *** [method_cleaner] *)

(** [method_cleaner(method, printStatus)] on the text [str(method)]; the
    flag only switches printing and is left out.  A name up to its first
    parenthesis, spaces turned into colons; in a constructor's name
    [<init>] is replaced by a slice of the name. *)
Definition method_cleaner (method : string) : Py.result string :=
  let strMethod := PyStr.replace " " ":" method in
  indexOfParen ← PyStr.index "(" strMethod;
  let method := PyStr.slice strMethod 0 indexOfParen in
  if PyStr.contains "<init>" method then
    let endingIndex := PyStr.find "<init>" method - 1 in
    let startingIndex :=
      if PyStr.contains ".jmol." method then
        if PyStr.contains ".applet." method then PyStr.find ".applet." method + 8
        else PyStr.find "jmol." method + 5
      else if PyStr.contains "freeware." method then 9
      else 12 in
    let constructorName := PyStr.slice method startingIndex endingIndex in
    Py.Ok (PyStr.replace_sub "<init>" constructorName method)
  else Py.Ok method.

(** *** Sample inputs *)

(** A three-vertex Java graph named f. *)
Definition cfg_f : Graph.t :=
  {| Graph.name := Some "f"%string; Graph.language := OtherLanguage ".java";
     Graph.vertices := [0; 1; 2] |}.

(** A generator whose evaluation returns 1 after one second. *)
Definition cyclomatic_ok : Metric.t :=
  {| Metric.name := "Cyclomatic Complexity";
     Metric.evaluate := fun _ => Finishes 1 (Py.Ok (IntRes 1)) |}.

(** A generator whose evaluation raises IndexError after one second. *)
Definition cyclomatic_IndexError : Metric.t :=
  {| Metric.name := "Cyclomatic Complexity";
     Metric.evaluate := fun _ => Finishes 1 (Py.Raise Py.IndexError) |}.

(** A generator whose evaluation raises LinAlgError after one second. *)
Definition npath_LinAlgError : Metric.t :=
  {| Metric.name := "NPath Complexity";
     Metric.evaluate := fun _ => Finishes 1 (Py.Raise Py.LinAlgError) |}.

(** A generator whose evaluation never finishes. *)
Definition npath_diverges : Metric.t :=
  {| Metric.name := "NPath Complexity"; Metric.evaluate := fun _ => Diverges |}.

(** Graphs named a, b, c with 5, 50 and 1 vertices. *)
Definition cfg_sized (n : string) (size : Z) : Graph.t :=
  {| Graph.name := Some n; Graph.language := OtherLanguage ".java";
     Graph.vertices := Py.range size |}.

Definition cfgs_5_50_1 : list Graph.t :=
  [cfg_sized "a" 5; cfg_sized "b" 50; cfg_sized "c" 1].

End command.

(** ** Invariants of the pool *)

(** What holds of every state the pool reaches from a queue [T0] and an
    empty dictionary. *)
Definition pool_inv (gens : gmap string command.Metric.t) (T0 : list command.task)
  (s : command.pool) : Prop :=
  (forall t, t ∈ command.queue s -> t ∈ T0) /\
  (forall t, command.Holding t ∈ command.workers s -> t ∈ T0) /\
  (forall t, t ∈ T0 ->
     t ∈ command.queue s \/ command.Holding t ∈ command.workers s \/
     (forall kv, command.written gens t = Some kv -> kv.1 ∈ dom (command.shared_dict s))) /\
  (forall k, k ∈ dom (command.shared_dict s) ->
     exists t kv, t ∈ T0 /\ command.written gens t = Some kv /\ kv.1 = k) /\
  (command.Exited ∈ command.workers s -> command.queue s = []).

(** With one invocation the items are processed in queue order: the calls
    of [evaluate] are those of the items already processed. *)
Definition solo_inv (gens : gmap string command.Metric.t) (T0 : list command.task)
  (s : command.pool) : Prop :=
  exists w pre,
    command.workers s = [w] /\
    T0 = pre ++ command.holding_item w ++ command.queue s /\
    command.executed s = filter (fun t => command.calls_evaluate gens t) pre /\
    (w = command.Exited -> command.queue s = []).

(** The items the invocations hold. *)
Definition held_items (s : command.pool) : list command.task :=
  flat_map command.holding_item (command.workers s).

(** Every queued item is, at any time, in exactly one place: processed
    (the list [P], latest first), held by an invocation, or still queued;
    the shared dictionary holds what the processed items wrote, and the
    calls of [evaluate] are those of the processed items. *)
Definition trace_inv (gens : gmap string command.Metric.t) (T0 : list command.task)
  (s : command.pool) : Prop :=
  exists P,
    P ++ held_items s ++ command.queue s ≡ₚ T0 /\
    command.shared_dict s = list_to_map (omap (command.written gens) P) /\
    command.executed s ≡ₚ filter (fun t => command.calls_evaluate gens t) P /\
    (exists taken, T0 = taken ++ command.queue s).

(* ===================================================================== *)
(** * Part II.  Lemmas and theorems                                       *)
(* ===================================================================== *)

(** ** Loops and ranges *)

(** Steps through the binds of a computation whose head has returned. *)
Ltac res_steps := repeat (change (mbind ?f (Py.Ok ?v)) with (f v); cbn beta).

Lemma range_elem (n i : Z) : In i (Py.range n) <-> 0 <= i < n.
Proof.
  unfold Py.range. rewrite in_map_iff. split.
  - intros [k [<- Hk]]. apply in_seq in Hk. lia.
  - intros H. exists (Z.to_nat i). split; [lia|]. apply in_seq. lia.
Qed.

Lemma range_NoDup (n : Z) : NoDup (Py.range n).
Proof.
  unfold Py.range. apply NoDup_fmap_2; [intros a b; lia | apply NoDup_ListNoDup, seq_NoDup].
Qed.

Lemma fold_left_snoc_map {A B} (f : A -> B) (xs : list A) (acc : list B) :
  fold_left (fun acc x => acc ++ [f x]) xs acc = acc ++ map f xs.
Proof.
  revert acc. induction xs as [|x xs IH]; intros acc; simpl.
  - now rewrite app_nil_r.
  - rewrite IH. now rewrite <- app_assoc.
Qed.

Lemma for_opt_flat {A B} (body : A -> list B -> option (list B)) (g : A -> list B)
  (xs : list A) (acc : list B) :
  (forall x l, In x xs -> body x l = Some (l ++ g x)) ->
  Py.for_opt xs body acc = Some (acc ++ flat_map g xs).
Proof.
  revert acc. induction xs as [|x xs IH]; intros acc H; simpl.
  - now rewrite app_nil_r.
  - rewrite (H x acc) by now left. rewrite IH by (intros; apply H; now right).
    now rewrite <- app_assoc.
Qed.

Lemma flat_map_NoDup {A B} (g : A -> list B) (xs : list A) :
  NoDup xs ->
  (forall x, In x xs -> NoDup (g x)) ->
  (forall x y b, In x xs -> In y xs -> In b (g x) -> In b (g y) -> x = y) ->
  NoDup (flat_map g xs).
Proof.
  induction xs as [|x xs IH]; intros Hnd Hg Hdisj; simpl.
  - constructor.
  - apply NoDup_cons in Hnd as [Hx Hnd]. apply NoDup_app. split; [|split].
    + apply Hg. now left.
    + intros b Hb Hb'. apply list_elem_of_In in Hb, Hb'.
      apply in_flat_map in Hb' as [y [Hy Hby]].
      assert (x = y) as -> by (apply (Hdisj x y b); simpl; auto).
      apply Hx. now apply list_elem_of_In.
    + apply IH; auto.
      * intros; apply Hg; now right.
      * intros x' y' b ? ? ? ?. apply (Hdisj x' y' b); simpl; auto.
Qed.

(** ** recursion.py: [recurlists] *)

Lemma recurlists_compositions (n fuel : nat) (points : Z) :
  (n < fuel)%nat ->
  recursion.recurlists fuel (Z.of_nat (S n)) points = Some (recursion.compositions n points).
Proof.
  revert fuel points. induction n as [|n IH]; intros fuel points Hf.
  - destruct fuel as [|fuel]; [lia|]. reflexivity.
  - destruct fuel as [|fuel]; [lia|].
    cbn [recursion.recurlists recursion.compositions].
    replace (Z.of_nat (S (S n)) =? 1) with false by (symmetry; apply Z.eqb_neq; lia).
    replace (Z.of_nat (S (S n)) - 1) with (Z.of_nat (S n)) by lia.
    erewrite for_opt_flat; [reflexivity|].
    intros i l _. rewrite IH by lia. now rewrite fold_left_snoc_map.
Qed.

Lemma compositions_elem (n : nat) (points : Z) (c : list Z) :
  0 <= points ->
  In c (recursion.compositions n points) <-> recursion.weak_composition (Z.of_nat (S n)) points c.
Proof.
  revert points c. induction n as [|n IH]; intros points c Hp.
  - simpl. unfold recursion.weak_composition. split.
    + intros [<-|[]]. simpl. repeat split; [|lia]. constructor; [lia|constructor].
    + intros (Hlen & Hnn & Hsum). left.
      destruct c as [|a [|b c]]; simpl in Hlen; try lia.
      unfold recursion.total in Hsum. simpl in Hsum. f_equal. lia.
  - cbn [recursion.compositions]. rewrite in_flat_map. split.
    + intros (i & Hi & Hc). apply range_elem in Hi.
      apply in_map_iff in Hc as (c' & <- & Hc').
      apply IH in Hc' as (Hlen & Hnn & Hsum); [|lia].
      unfold recursion.weak_composition, recursion.total in *. simpl.
      repeat split; [lia | constructor; [lia|assumption] | lia].
    + intros (Hlen & Hnn & Hsum). destruct c as [|i c']; [simpl in Hlen; lia|].
      apply Forall_cons in Hnn as [Hi Hnn].
      unfold recursion.total in Hsum. simpl in Hsum, Hlen.
      assert (0 <= recursion.total c') as Hc'.
      { clear -Hnn. induction Hnn; unfold recursion.total in *; simpl; lia. }
      unfold recursion.total in Hc'.
      exists i. split; [apply range_elem; lia|].
      apply in_map. apply IH; [lia|].
      unfold recursion.weak_composition, recursion.total. repeat split; [lia|assumption|lia].
Qed.

Lemma compositions_NoDup (n : nat) (points : Z) : NoDup (recursion.compositions n points).
Proof.
  revert points. induction n as [|n IH]; intros points.
  - simpl. apply NoDup_singleton.
  - cbn [recursion.compositions]. apply flat_map_NoDup.
    + apply range_NoDup.
    + intros i _. apply NoDup_fmap_2; [|apply IH]. intros a b; congruence.
    + intros i j c _ _ Hi Hj.
      apply in_map_iff in Hi as (ci & <- & _). apply in_map_iff in Hj as (cj & Heq & _).
      congruence.
Qed.

(** C9.  For numloops >= 1 and points >= 0, [recurlists(numloops, points)]
    returns (given recursion depth numloops) a list that contains exactly
    the weak compositions of [points] into [numloops] parts: every member
    has [numloops] non-negative entries that sum to [points], every such
    composition is a member, and no member occurs twice. *)
Theorem recurlists_weak_compositions (numloops points : Z) :
  1 <= numloops -> 0 <= points ->
  exists l,
    (forall fuel, (Z.to_nat numloops <= fuel)%nat ->
       recursion.recurlists fuel numloops points = Some l) /\
    NoDup l /\
    (forall c, In c l <-> recursion.weak_composition numloops points c).
Proof.
  intros Hn Hp. exists (recursion.compositions (Z.to_nat (numloops - 1)) points).
  split; [|split].
  - intros fuel Hf.
    replace numloops with (Z.of_nat (S (Z.to_nat (numloops - 1)))) at 1 by lia.
    apply recurlists_compositions. lia.
  - apply compositions_NoDup.
  - intros c. rewrite compositions_elem by assumption.
    now replace (Z.of_nat (S (Z.to_nat (numloops - 1)))) with numloops by lia.
Qed.

Lemma recurlists_weak_compositions_witness :
  1 <= 2 /\ 0 <= 2 /\
  exists l,
    (forall fuel, (Z.to_nat 2 <= fuel)%nat -> recursion.recurlists fuel 2 2 = Some l) /\
    NoDup l /\
    (forall c, In c l <-> recursion.weak_composition 2 2 c).
Proof.
  split; [lia|]. split; [lia|]. apply (recurlists_weak_compositions 2 2); lia.
Defined.

Example recurlists_2_2 :
  recursion.recurlists 2 2 2 = Some [[0; 2]; [1; 1]; [2; 0]].
Proof. reflexivity. Qed.

(** ** recursion2.py: [getLang] and [recursion] *)

Example split_rule : PyStr.split "|" "2t|4" = ["2t"; "4"]%string.
Proof. reflexivity. Qed.

Example getNextStrings_module :
  recursion2.getNextStrings recursion2.module_dict "121s3r" = ["1212t31s"; "121431s"]%string.
Proof. vm_compute. reflexivity. Qed.

Example recursion_module_7 :
  recursion2.recursion 6 7 recursion2.module_dict "x" = Some (Py.Ok [0; 0; 1; 0; 0; 0; 0; 1]).
Proof. vm_compute. reflexivity. Qed.

(** C10.  The bound fails on the code: [getLang] returns a string with no
    rule character before it looks at its length.  With the one-rule
    grammar x -> abc, the start string "x" has length 1 <= num = 1, yet
    [getLang] returns "abc" of length 3, and [recursion] raises IndexError
    at [returnlist[3]] in a list of length 2. *)
Theorem getLang_exceeds_num :
  let dict : gmap string string := <["x" := "abc"]> ∅ in
  PyStr.len "x" <= 1 /\
  1 < PyStr.len "abc" /\
  recursion2.zeros (1 + 1) = [0; 0] /\
  forall fuel : nat,
    recursion2.getLang (S (S fuel)) 1 dict "x" = Some ["abc"%string] /\
    recursion2.recursion (S (S fuel)) 1 dict "x" = Some (Py.Raise Py.IndexError).
Proof. vm_compute. repeat split; congruence. Qed.

(** ** The equation builders *)

Example edgedict_two_targets :
  Edges.edgedict_of [(0, 1); (1, 2); (0, 2)] = [("0"%string, [1; 2]); ("1"%string, [2])].
Proof. vm_compute. reflexivity. Qed.

Lemma index_head {A} (a : A) (l : list A) : Py.index (a :: l) 0 = Py.Ok a.
Proof.
  unfold Py.index. cbn [Z.ltb Z.compare length].
  replace (0 <=? 0) with true by reflexivity.
  replace (0 <? Z.of_nat (S (length l))) with true by (symmetry; apply Z.ltb_lt; lia).
  reflexivity.
Qed.

Lemma index_second {A} (a b : A) (l : list A) : Py.index (a :: b :: l) 1 = Py.Ok b.
Proof.
  unfold Py.index. cbn [Z.ltb Z.compare length].
  replace (0 <=? 1) with true by reflexivity.
  replace (1 <? Z.of_nat (S (S (length l)))) with true by (symmetry; apply Z.ltb_lt; lia).
  reflexivity.
Qed.

Lemma index_nil {A} (i : Z) : Py.index (@nil A) i = Py.Raise Py.IndexError.
Proof.
  unfold Py.index. cbn [length Z.of_nat]. rewrite Z.add_0_r.
  replace (if i <? 0 then i else i) with i by now destruct (i <? 0).
  destruct (0 <=? i) eqn:H0; [|reflexivity].
  apply Z.leb_le in H0. change (Z.of_nat 0) with 0.
  replace (i <? 0) with false by (symmetry; apply Z.ltb_ge; lia). reflexivity.
Qed.

(** C6.  On an empty edge list both equation builders fail, for every
    recursion list, with the IndexError that [edgelist[0]] raises. *)
Theorem calculateSystem_empty_IndexError (recurlist : list Z) :
  sympycfg2.calculateSystem [] recurlist = Py.Raise Py.IndexError /\
  CFG2CFG.calculateSystem [] recurlist = Py.Raise Py.IndexError.
Proof.
  split.
  - unfold sympycfg2.calculateSystem. now rewrite index_nil.
  - unfold CFG2CFG.calculateSystem. cbn [Edges.edgedict_of fold_left Py.for_res].
    change (mbind ?f (Py.Ok ?a)) with (f a). cbn beta. now rewrite index_nil.
Qed.

(** C6, as stated: the failure is not an exception of a class named
    EmptyGraph. *)
Lemma calculateSystem_empty_not_EmptyGraph :
  ~ (exists e, sympycfg2.calculateSystem [] [] = Py.Raise e /\
               Py.class_name e = "EmptyGraph"%string) /\
  ~ (exists e, CFG2CFG.calculateSystem [] [] = Py.Raise e /\
               Py.class_name e = "EmptyGraph"%string).
Proof.
  split; intros (e & He & Hn); vm_compute in He; injection He as <-; discriminate Hn.
Qed.

(** C1.  In sympycfg2.py the factor is applied inside the loop over the
    end nodes.  For the node 0 with the two terminal edges (0,1) and (0,2)
    and multiplicity 1 the builder produces
    [(A*x) * ((A*x) * (0 + x) + x) - A], which at A = 1, x = 2 has the
    value 11, while the equation with the factor applied once,
    [(A*x) * (0 + x + x) - A], has the value 7 there.  CFG2CFG.py on the
    same input applies the factor once: it yields the text Ax(x + x). *)
Theorem calculateSystem_factor_per_edge :
  let rho := fun c : Z => if c =? 120 then 2 else 1 in
  let r := Sympy.Mul (Sympy.Symbol 65) Sympy.x in
  let code_eq :=
    Sympy.Sub
      (Sympy.Mul (Sympy.Pow r 1)
         (Sympy.Add (Sympy.Mul (Sympy.Pow r 1) (Sympy.Add (Sympy.Integer 0) Sympy.x)) Sympy.x))
      (Sympy.Symbol 65) in
  sympycfg2.calculateSystem [(0, 1); (0, 2)] [1; 0; 0]
    = Py.Ok ([code_eq], [Sympy.Symbol 65]) /\
  Sympy.eval rho code_eq = 11 /\
  Sympy.eval rho
    (Sympy.Sub (sympycfg2.spec_rhs 0 [(1, false); (2, false)] 1) (Sympy.Symbol 65)) = 7 /\
  CFG2CFG.calculateSystem [(0, 1); (0, 2)] [1; 0; 0]
    = Py.Ok [(CFG2CFG.lit "A", CFG2CFG.lit "Ax(x + x)")].
Proof. vm_compute. repeat split; reflexivity. Qed.

Lemma chain_system_solutions (rho : Z -> Z) :
  let A := Sympy.Symbol 65 in
  let B := Sympy.Symbol 66 in
  let one := Sympy.Pow (Sympy.Mul A Sympy.x) 0 in
  Sympy.solves
    [Sympy.Sub (Sympy.Mul one (Sympy.Add (Sympy.Integer 0) (Sympy.Mul B Sympy.x))) A;
     Sympy.Sub (Sympy.Mul one (Sympy.Add (Sympy.Integer 0) Sympy.x)) B] rho
  <-> (rho 65 = rho 120 ^ 2 /\ rho 66 = rho 120).
Proof.
  intros A B one. unfold Sympy.solves, one, A, B. split.
  - intros H. apply Forall_cons in H as [HA H]. apply Forall_cons in H as [HB _].
    cbn [Sympy.eval Sympy.x] in HA, HB. rewrite Z.pow_0_r in HA, HB. nia.
  - intros [HA HB]. repeat constructor; cbn [Sympy.eval Sympy.x];
      rewrite Z.pow_0_r; nia.
Qed.

(** C4.  For the edge list [(0,1),(1,2)] and a recursion list that is 0
    at the two nodes with outgoing edges, the builder hands the solver
    the system [1*(0 + B*x) - A, 1*(0 + x) - B] in the unknowns [A, B] (A
    the entry symbol, first in [symbs]).  The system has, for every value
    of x, exactly one solution, A = x^2 and B = x.  So, the solver
    returning the solution set of this system, the function returns a
    list of exactly one closed form, the solver's expression for A, and
    its value is x^2 for every x. *)
Theorem calculateSystem_chain_closed_form
  (nonlinsolve : list Sympy.expr -> list Sympy.expr -> list (list Sympy.expr))
  (rest : list Z) :
  let A := Sympy.Symbol 65 in
  let B := Sympy.Symbol 66 in
  let one := Sympy.Pow (Sympy.Mul A Sympy.x) 0 in
  let system :=
    [Sympy.Sub (Sympy.Mul one (Sympy.Add (Sympy.Integer 0) (Sympy.Mul B Sympy.x))) A;
     Sympy.Sub (Sympy.Mul one (Sympy.Add (Sympy.Integer 0) Sympy.x)) B] in
  Sympy.solution_set system [A; B] (nonlinsolve system [A; B]) ->
  sympycfg2.calculateSystem [(0, 1); (1, 2)] (0 :: 0 :: rest) = Py.Ok (system, [A; B]) /\
  (forall rho : Z -> Z,
     Sympy.solves system rho <-> (rho 65 = rho 120 ^ 2 /\ rho 66 = rho 120)) /\
  exists closed_form,
    sympycfg2.calculateSystem_solved nonlinsolve [(0, 1); (1, 2)] (0 :: 0 :: rest)
    = Py.Ok [closed_form] /\
    forall rho : Z -> Z, Sympy.eval rho closed_form = rho 120 ^ 2.
Proof.
  intros A B one system (Hsound & Hcomplete & Hdistinct).
  assert (sympycfg2.calculateSystem [(0, 1); (1, 2)] (0 :: 0 :: rest)
          = Py.Ok (system, [A; B])) as Hbuilt.
  { unfold sympycfg2.calculateSystem.
    change (Edges.edgedict_of [(0, 1); (1, 2)])
      with [("0"%string, [1]); ("1"%string, [2])].
    rewrite index_head. cbn -[Py.index].
    rewrite index_head, index_second. reflexivity. }
  split; [exact Hbuilt|]. split; [exact chain_system_solutions|].
  (* what a tuple of the solution set holds *)
  assert (forall t, t ∈ nonlinsolve system [A; B] ->
            exists tA tB, t = [tA; tB] /\
              forall rho, Sympy.eval rho tA = rho 120 ^ 2 /\ Sympy.eval rho tB = rho 120)
    as Htuple.
  { intros t Ht. destruct (Hsound t Ht) as [Hlen Hsol].
    destruct t as [|tA [|tB [|? ?]]]; try discriminate Hlen.
    exists tA, tB. split; [reflexivity|]. intros rho.
    specialize (Hsol rho). apply chain_system_solutions in Hsol.
    exact Hsol. }
  (* the set has one tuple *)
  destruct (Hcomplete (fun _ => 0)) as (t0 & Ht0 & _).
  { apply chain_system_solutions. split; reflexivity. }
  destruct (nonlinsolve system [A; B]) as [|t args] eqn:Hargs; [inversion Ht0|].
  assert (args = []) as ->.
  { destruct args as [|t' args']; [reflexivity|]. exfalso.
    destruct (Htuple t (list_elem_of_here _ _)) as (tA & tB & -> & H1).
    destruct (Htuple t' (list_elem_of_further _ _ _ (list_elem_of_here _ _)))
      as (tA' & tB' & -> & H2).
    assert (0%nat = 1%nat) as Habs; [|discriminate Habs].
    apply (Hdistinct 0%nat 1%nat [tA; tB] [tA'; tB']); [reflexivity|reflexivity|].
    intros rho. cbn [map].
    destruct (H1 rho) as [-> ->]. destruct (H2 rho) as [-> ->]. reflexivity. }
  destruct (Htuple t (list_elem_of_here _ _)) as (tA & tB & -> & Hval).
  exists tA. split; [|intros rho; exact (proj1 (Hval rho))].
  unfold sympycfg2.calculateSystem_solved. rewrite Hbuilt. res_steps.
  cbv beta iota zeta. fold A B one. fold system. rewrite Hargs.
  cbn [Py.for_res]. rewrite index_head. res_steps.
  reflexivity.
Qed.

Lemma calculateSystem_chain_closed_form_witness :
  let A := Sympy.Symbol 65 in
  let B := Sympy.Symbol 66 in
  let one := Sympy.Pow (Sympy.Mul A Sympy.x) 0 in
  let system :=
    [Sympy.Sub (Sympy.Mul one (Sympy.Add (Sympy.Integer 0) (Sympy.Mul B Sympy.x))) A;
     Sympy.Sub (Sympy.Mul one (Sympy.Add (Sympy.Integer 0) Sympy.x)) B] in
  let nonlinsolve := fun (_ _ : list Sympy.expr) => [[Sympy.Pow Sympy.x 2; Sympy.x]] in
  Sympy.solution_set system [A; B] (nonlinsolve system [A; B]) /\
  sympycfg2.calculateSystem_solved nonlinsolve [(0, 1); (1, 2)] [0; 0; 0]
  = Py.Ok [Sympy.Pow Sympy.x 2].
Proof.
  intros A B one system nonlinsolve.
  assert (Sympy.solution_set system [A; B] (nonlinsolve system [A; B])) as Hset.
  { unfold nonlinsolve. split; [|split].
    - intros t Ht. apply list_elem_of_singleton in Ht as ->. split; [reflexivity|].
      intros rho. apply chain_system_solutions. cbn. split; reflexivity.
    - intros rho Hsol. apply chain_system_solutions in Hsol as [HA HB].
      eexists. split; [apply list_elem_of_here|]. intros n.
      cbn [Sympy.assign A B Sympy.eval Sympy.x].
      destruct (n =? 65) eqn:E65; [apply Z.eqb_eq in E65 as ->; now rewrite HA|].
      destruct (n =? 66) eqn:E66; [apply Z.eqb_eq in E66 as ->; now rewrite HB|].
      reflexivity.
    - intros i j t1 t2 Hi Hj _.
      destruct i as [|i]; [|destruct i; discriminate Hi].
      destruct j as [|j]; [reflexivity|destruct j; discriminate Hj]. }
  split; [exact Hset|].
  destruct (calculateSystem_chain_closed_form nonlinsolve [0] Hset)
    as (_ & _ & closed_form & Hret & _).
  vm_compute. reflexivity.
Defined.

(** ** command.py: the worker pool *)

Lemma elem_insert_inv {A} (l : list A) (i : nat) (w x : A) :
  x ∈ <[i:=w]> l -> x = w \/ x ∈ l.
Proof.
  intros H. apply list_elem_of_lookup in H as [j Hj].
  destruct (decide (i = j)) as [->|Hne].
  - left. assert (j < length l)%nat as Hlt.
    { apply lookup_lt_Some in Hj. now rewrite length_insert in Hj. }
    rewrite list_lookup_insert_eq in Hj by assumption. congruence.
  - right. rewrite list_lookup_insert_ne in Hj by assumption.
    apply list_elem_of_lookup. eauto.
Qed.

Lemma elem_insert_keep {A} (l : list A) (i : nat) (w x y : A) :
  l !! i = Some y -> x ∈ l -> x = y \/ x ∈ <[i:=w]> l.
Proof.
  intros Hi H. apply list_elem_of_lookup in H as [j Hj].
  destruct (decide (i = j)) as [->|Hne].
  - left. congruence.
  - right. apply list_elem_of_lookup. exists j.
    now rewrite list_lookup_insert_ne.
Qed.

(** The loop body writes exactly what [written] says, and writes nothing
    when it is left by an exception. *)
Lemma loop_body_written (gens : gmap string command.Metric.t)
  (d : gmap command.key command.MetricRes) (item : command.task) :
  match command.loop_body gens d item with
  | Py.Ok d' =>
      d' = match command.written gens item with
           | Some (k, v) => <[k:=v]> d
           | None => d
           end
  | Py.Raise _ => command.written gens item = None
  end.
Proof.
  destruct item as [graph gname]. unfold command.loop_body, command.written. cbn [fst snd].
  destruct (gens !! gname) as [g|]; [|reflexivity].
  destruct (command.skipped g graph); [reflexivity|].
  destruct (command.Timeout _ _) as [res|e].
  - destruct (command.Graph.name graph); reflexivity.
  - destruct e; reflexivity.
Qed.

Ltac split_inv := split; [|split; [|split; [|split]]].

Lemma pool_inv_init gens T0 n :
  pool_inv gens T0
    {| command.queue := T0; command.shared_dict := ∅;
       command.workers := replicate n command.AtLock; command.executed := [] |}.
Proof.
  unfold pool_inv; cbn. split_inv.
  - auto.
  - intros t H. apply elem_of_replicate_inv in H. discriminate.
  - auto.
  - intros k H. rewrite dom_empty_L in H. set_solver.
  - intros H. apply elem_of_replicate_inv in H. discriminate.
Qed.

Lemma pool_inv_step gens T0 s s' :
  pool_inv gens T0 s -> command.step gens s s' -> pool_inv gens T0 s'.
Proof.
  intros (Hq & Hh & Hall & Hdom & Hex) [i Hstep].
  unfold command.multiprocess_metrics_step in Hstep.
  destruct (command.workers s !! i) as [w|] eqn:Hw; [|discriminate].
  destruct w as [|item| |]; try discriminate.
  - (* at the lock *)
    destruct (command.queue s) as [|item rest] eqn:Hqueue; injection Hstep as <-;
      unfold pool_inv; cbn.
    + split_inv.
      * intros t H. inversion H.
      * intros t H. apply elem_insert_inv in H as [H|H]; [discriminate|auto].
      * intros t Ht. destruct (Hall t Ht) as [H|[H|H]].
        -- inversion H.
        -- right. left.
           destruct (elem_insert_keep _ i command.Exited _ _ Hw H) as [?|?];
             [discriminate|assumption].
        -- auto.
      * assumption.
      * reflexivity.
    + split_inv.
      * intros t H. apply Hq. now right.
      * intros t H. apply elem_insert_inv in H as [H|H]; [|auto].
        injection H as ->. apply Hq. now left.
      * intros t Ht. destruct (Hall t Ht) as [H|[H|H]].
        -- apply elem_of_cons in H as [->|H]; [|now left].
           right. left. apply list_elem_of_insert. now apply lookup_lt_Some in Hw.
        -- right. left.
           destruct (elem_insert_keep _ i (command.Holding item) _ _ Hw H) as [?|?];
             [discriminate|assumption].
        -- auto.
      * assumption.
      * intros H. apply elem_insert_inv in H as [H|H]; [discriminate|].
        specialize (Hex H). discriminate.
  - (* holding an item *)
    pose proof (loop_body_written gens (command.shared_dict s) item) as Hbody.
    assert (item ∈ T0) as HitemT0.
    { apply Hh. apply list_elem_of_lookup. eauto. }
    destruct (command.loop_body gens (command.shared_dict s) item) as [d|e];
      injection Hstep as <-; unfold pool_inv; cbn.
    + split_inv.
      * assumption.
      * intros t H. apply elem_insert_inv in H as [H|H]; [discriminate|auto].
      * intros t Ht. destruct (Hall t Ht) as [H|[H|H]].
        -- now left.
        -- destruct (elem_insert_keep _ i command.AtLock _ _ Hw H) as [Heq|?];
             [|now right; left].
           injection Heq as ->. right. right. intros [k v] Hkv.
           rewrite Hkv in Hbody. subst d. cbn. rewrite dom_insert_L. set_solver.
        -- right. right. intros kv Hkv. specialize (H kv Hkv). subst d.
           destruct (command.written gens item) as [[k v]|]; [|assumption].
           rewrite dom_insert_L. set_solver.
      * intros k Hk. subst d.
        destruct (command.written gens item) as [[k' v]|] eqn:Hwr; [|auto].
        rewrite dom_insert_L in Hk. apply elem_of_union in Hk as [Hk|Hk]; [|auto].
        apply elem_of_singleton in Hk as ->. exists item, (k', v). auto.
      * intros H. apply elem_insert_inv in H as [H|H]; [discriminate|auto].
    + split_inv.
      * assumption.
      * intros t H. apply elem_insert_inv in H as [H|H]; [discriminate|auto].
      * intros t Ht. destruct (Hall t Ht) as [H|[H|H]].
        -- now left.
        -- destruct (elem_insert_keep _ i (command.Died e) _ _ Hw H) as [Heq|?];
             [|now right; left].
           injection Heq as ->. right. right. intros kv Hkv. congruence.
        -- auto.
      * assumption.
      * intros H. apply elem_insert_inv in H as [H|H]; [discriminate|auto].
Qed.

Lemma pool_inv_reachable gens T0 n s :
  rtc (command.step gens)
    {| command.queue := T0; command.shared_dict := ∅;
       command.workers := replicate n command.AtLock; command.executed := [] |} s ->
  pool_inv gens T0 s.
Proof.
  intros H. apply (rtc_ind_r (pool_inv gens T0)) with (2 := fun _ _ _ Hs IH => pool_inv_step _ _ _ _ IH Hs) (3 := H).
  apply pool_inv_init.
Qed.

Lemma run_schedule_reachable gens schedule s s' :
  command.run_schedule gens schedule s = Some s' -> rtc (command.step gens) s s'.
Proof.
  revert s. induction schedule as [|i rest IH]; intros s H; cbn in H.
  - injection H as <-. apply rtc_refl.
  - destruct (command.multiprocess_metrics_step gens i s) as [s1|] eqn:Hs; [|discriminate].
    eapply rtc_l; [exists i; exact Hs | now apply IH].
Qed.

(** A pool of one invocation can run the whole loop: it reaches the
    dictionary and the end of loop that [multiprocess_metrics] computes. *)
Lemma multiprocess_metrics_run (gens : gmap string command.Metric.t) (q : list command.task)
  (d : gmap command.key command.MetricRes) (ex : list command.task) :
  exists q' ex',
    rtc (command.step gens)
      {| command.queue := q; command.shared_dict := d;
         command.workers := [command.AtLock]; command.executed := ex |}
      {| command.queue := q';
         command.shared_dict := (command.multiprocess_metrics gens q d).1;
         command.workers := [match (command.multiprocess_metrics gens q d).2 with
                             | None => command.Exited
                             | Some e => command.Died e
                             end];
         command.executed := ex' |}.
Proof.
  revert d ex. induction q as [|item rest IH]; intros d ex.
  - exists [], ex. cbn. apply rtc_once. now exists 0%nat.
  - cbn [command.multiprocess_metrics].
    destruct (command.loop_body gens d item) as [d'|e] eqn:Hbody.
    + destruct (IH d' (if command.calls_evaluate gens item then ex ++ [item] else ex))
        as (q' & ex' & Hrun).
      exists q', ex'.
      eapply rtc_l; [now exists 0%nat|]. cbn.
      eapply rtc_l; [exists 0%nat; cbn; rewrite Hbody; reflexivity|]. exact Hrun.
    + exists rest, (if command.calls_evaluate gens item then ex ++ [item] else ex). cbn.
      eapply rtc_l; [now exists 0%nat|]. cbn.
      apply rtc_once. exists 0%nat. cbn. now rewrite Hbody.
Qed.

Lemma terminated_no_holding s t :
  command.terminated s -> ~ command.Holding t ∈ command.workers s.
Proof.
  unfold command.terminated. intros Hterm H.
  rewrite forallb_forall in Hterm. apply list_elem_of_In in H.
  specialize (Hterm _ H). discriminate.
Qed.

(** C2, amended.  When the pool has terminated and some invocation has
    returned (found the queue empty), the keys of the shared dictionary
    are exactly the keys written for the queued items: the items are the
    graphs whose name is in [methodList] paired with every generator, and
    an item writes its key [(graph.name, generator.name())] when its
    evaluation returns (the graph having a name) or times out; an item
    that is skipped or whose evaluation raises IndexError writes none.
    This holds for every pool size and every interleaving. *)
Theorem shared_dict_keys_written (pool_size : nat) (cfgs : list command.Graph.t)
  (generators : list command.Metric.t) (methodList : list string) (s : command.pool) :
  rtc (command.step (command.generator_dict generators))
      (command.do_metrics_multithreaded pool_size cfgs generators methodList) s ->
  command.terminated s ->
  command.Exited ∈ command.workers s ->
  dom (command.shared_dict s)
  = command.written_keys (command.generator_dict generators)
      (command.task_queue cfgs generators methodList).
Proof.
  intros Hreach Hterm Hexit.
  apply pool_inv_reachable in Hreach as (_ & _ & Hall & Hdom & Hex).
  specialize (Hex Hexit). apply set_eq. intros k. unfold command.written_keys.
  rewrite elem_of_list_to_set, list_elem_of_omap. split.
  - intros Hk. destruct (Hdom k Hk) as (t & kv & Ht & Hw & <-).
    exists t. split; [assumption|]. now rewrite Hw.
  - intros (t & Ht & Hw). destruct (command.written _ t) as [kv|] eqn:Hwr; [|discriminate].
    injection Hw as <-. destruct (Hall t Ht) as [H|[H|H]].
    + rewrite Hex in H. inversion H.
    + now apply terminated_no_holding in H.
    + now apply H.
Qed.

Lemma shared_dict_keys_written_witness :
  let generators := [command.cyclomatic_ok; command.npath_diverges] in
  let s := {| command.queue := [];
              command.shared_dict :=
                <[(Some "f"%string, "Cyclomatic Complexity"%string) := command.IntRes 1]>
                  (<[(Some "f"%string, "NPath Complexity"%string) := command.timeout_sentinel]> ∅);
              command.workers := [command.Exited; command.Exited];
              command.executed := [(command.cfg_f, "Cyclomatic Complexity"%string);
                                   (command.cfg_f, "NPath Complexity"%string)] |} in
  rtc (command.step (command.generator_dict generators))
      (command.do_metrics_multithreaded 2 [command.cfg_f] generators ["f"%string]) s /\
  command.terminated s /\
  command.Exited ∈ command.workers s /\
  dom (command.shared_dict s)
  = command.written_keys (command.generator_dict generators)
      (command.task_queue [command.cfg_f] generators ["f"%string]).
Proof.
  intros generators s.
  assert (rtc (command.step (command.generator_dict generators))
            (command.do_metrics_multithreaded 2 [command.cfg_f] generators ["f"%string]) s)
    as Hreach.
  { apply (run_schedule_reachable _ [0; 1; 1; 0; 0; 1]%nat). vm_compute. reflexivity. }
  assert (command.terminated s) as Hterm by reflexivity.
  assert (command.Exited ∈ command.workers s) as Hexit by (cbn; left).
  split; [exact Hreach|]. split; [exact Hterm|]. split; [exact Hexit|].
  exact (shared_dict_keys_written 2 [command.cfg_f] generators ["f"%string] s
           Hreach Hterm Hexit).
Defined.

(** C2, as stated: a graph whose evaluation raises IndexError is an
    applicable pair with its generator, yet the terminated pool holds no
    key for it. *)
Lemma shared_dict_misses_applicable_pair :
  ~ (forall s,
       rtc (command.step (command.generator_dict [command.cyclomatic_IndexError]))
           (command.do_metrics_multithreaded 1 [command.cfg_f]
              [command.cyclomatic_IndexError] ["f"%string]) s ->
       command.terminated s ->
       dom (command.shared_dict s)
       = command.applicable_keys [command.cfg_f] [command.cyclomatic_IndexError]).
Proof.
  intros H.
  specialize (H {| command.queue := []; command.shared_dict := ∅;
                   command.workers := [command.Exited];
                   command.executed := [(command.cfg_f, "Cyclomatic Complexity"%string)] |}).
  assert ((Some "f"%string, "Cyclomatic Complexity"%string)
            ∈ command.applicable_keys [command.cfg_f] [command.cyclomatic_IndexError]) as Hin.
  { unfold command.applicable_keys. cbn. set_solver. }
  rewrite <- H in Hin.
  - cbn in Hin. rewrite dom_empty_L in Hin. set_solver.
  - apply (run_schedule_reachable _ [0; 0; 0]%nat). vm_compute. reflexivity.
  - reflexivity.
Qed.

(** *** What a run of the pool leaves in the shared dictionary *)

Lemma held_insert (l : list command.worker) (i : nat) (w w' : command.worker) :
  l !! i = Some w ->
  exists R,
    flat_map command.holding_item l ≡ₚ command.holding_item w ++ R /\
    flat_map command.holding_item (<[i:=w']> l) ≡ₚ command.holding_item w' ++ R.
Proof.
  revert i. induction l as [|x l IH]; intros [|i] H; try discriminate.
  - injection H as ->. exists (flat_map command.holding_item l). split; reflexivity.
  - cbn in H. destruct (IH i H) as (R & H1 & H2).
    exists (command.holding_item x ++ R).
    change (<[S i:=w']> (x :: l)) with (x :: <[i:=w']> l). cbn [flat_map].
    rewrite H1, H2. split; apply Permutation_app_swap_app.
Qed.

Lemma trace_inv_init (gens : gmap string command.Metric.t) (T0 : list command.task) (n : nat) :
  trace_inv gens T0
    {| command.queue := T0; command.shared_dict := ∅;
       command.workers := replicate n command.AtLock; command.executed := [] |}.
Proof.
  exists []. unfold held_items. cbn [command.queue command.workers command.shared_dict
                                      command.executed app omap].
  assert (flat_map command.holding_item (replicate n command.AtLock) = []) as ->
    by (induction n as [|m IH]; [reflexivity | exact IH]).
  split; [reflexivity|]. split; [reflexivity|]. split; [reflexivity|].
  exists []. reflexivity.
Qed.

Lemma omap_cons_eq {A B} (f : A -> option B) (x : A) (l : list A) :
  omap f (x :: l) = match f x with Some y => y :: omap f l | None => omap f l end.
Proof. reflexivity. Qed.

Lemma trace_inv_step (gens : gmap string command.Metric.t) (T0 : list command.task)
  (s s' : command.pool) :
  trace_inv gens T0 s -> command.step gens s s' -> trace_inv gens T0 s'.
Proof.
  intros (P & Hperm & Hdict & Hexec & taken & Htaken) [i Hstep].
  unfold command.multiprocess_metrics_step in Hstep.
  destruct (command.workers s !! i) as [w|] eqn:Hw; [|discriminate].
  destruct w as [|item| |]; try discriminate.
  - destruct (command.queue s) as [|item rest] eqn:Hq; injection Hstep as <-.
    + destruct (held_insert _ i _ command.Exited Hw) as (R & H1 & H2).
      exists P. unfold trace_inv, held_items in *.
      cbn [command.queue command.workers command.shared_dict command.executed] in *.
      split; [|split; [exact Hdict|split; [exact Hexec|exists taken; exact Htaken]]].
      rewrite H2. rewrite H1 in Hperm. exact Hperm.
    + destruct (held_insert _ i _ (command.Holding item) Hw) as (R & H1 & H2).
      exists P. unfold trace_inv, held_items in *.
      cbn [command.queue command.workers command.shared_dict command.executed] in *.
      split; [|split; [exact Hdict|split; [exact Hexec|]]].
      * rewrite H2. rewrite H1 in Hperm. rewrite <- Hperm.
        cbn [command.holding_item app].
        apply Permutation_app_head. apply Permutation_middle.
      * exists (taken ++ [item]). rewrite <- app_assoc. exact Htaken.
  - pose proof (loop_body_written gens (command.shared_dict s) item) as Hbody.
    assert (exists d w' e',
              s' = {| command.queue := command.queue s; command.shared_dict := d;
                      command.workers := <[i:=w']> (command.workers s);
                      command.executed := e' |} /\
              command.holding_item w' = [] /\
              d = list_to_map (omap (command.written gens) (item :: P)) /\
              e' = (if command.calls_evaluate gens item
                    then command.executed s ++ [item] else command.executed s))
      as (d & w' & e' & -> & Hw' & Hd & He').
    { cbv zeta in Hstep.
      destruct (command.loop_body gens (command.shared_dict s) item) as [d|e];
        injection Hstep as <-.
      - exists d, command.AtLock. eexists. split; [reflexivity|]. split; [reflexivity|].
        split; [|reflexivity]. subst d.
        rewrite omap_cons_eq.
        destruct (command.written gens item) as [[k v]|]; rewrite Hdict; reflexivity.
      - exists (command.shared_dict s), (command.Died e). eexists.
        split; [reflexivity|]. split; [reflexivity|]. split; [|reflexivity].
        rewrite omap_cons_eq.
        rewrite Hbody. exact Hdict. }
    destruct (held_insert _ i _ w' Hw) as (R & H1 & H2).
    exists (item :: P). unfold trace_inv, held_items in *.
    cbn [command.queue command.workers command.shared_dict command.executed] in *.
    split; [|split; [exact Hd|split; [|exists taken; exact Htaken]]].
    + rewrite H2, Hw'. rewrite H1 in Hperm. rewrite <- Hperm.
      cbn [command.holding_item app].
      apply Permutation_middle.
    + subst e'. rewrite filter_cons.
      destruct (command.calls_evaluate gens item) eqn:Hc.
      * rewrite decide_True by exact I.
        rewrite <- Hexec. symmetry. apply Permutation_cons_append.
      * rewrite decide_False by exact id.
        exact Hexec.
Qed.

Lemma trace_inv_reachable (gens : gmap string command.Metric.t) (T0 : list command.task)
  (n : nat) (s : command.pool) :
  rtc (command.step gens)
      {| command.queue := T0; command.shared_dict := ∅;
         command.workers := replicate n command.AtLock; command.executed := [] |} s ->
  trace_inv gens T0 s.
Proof.
  intros H.
  apply (rtc_ind_r (trace_inv gens T0))
    with (2 := fun _ _ _ Hs IH => trace_inv_step _ _ _ _ IH Hs) (3 := H).
  apply trace_inv_init.
Qed.

Lemma terminated_held (s : command.pool) : command.terminated s -> held_items s = [].
Proof.
  unfold command.terminated, held_items. induction (command.workers s) as [|w l IH]; [reflexivity|].
  cbn [forallb flat_map]. intros H. apply andb_prop in H as [Hw Hl].
  rewrite (IH Hl). destruct w; try discriminate; reflexivity.
Qed.

Lemma generator_dict_name (generators : list command.Metric.t) (n : string)
  (g : command.Metric.t) :
  command.generator_dict generators !! n = Some g -> command.Metric.name g = n.
Proof.
  unfold command.generator_dict.
  assert (forall gs (acc : gmap string command.Metric.t),
            (forall n g, acc !! n = Some g -> command.Metric.name g = n) ->
            forall n g,
              fold_left (fun d g => <[command.Metric.name g := g]> d) gs acc !! n = Some g ->
              command.Metric.name g = n) as H.
  { induction gs as [|a gs IH]; intros acc Hacc; [exact Hacc|].
    cbn [fold_left]. apply IH. intros n0 g0 Hl.
    apply lookup_insert_Some in Hl as [[<- <-]|[_ Hl]]; [reflexivity | now apply Hacc]. }
  apply H. intros n0 g0 Hl. rewrite lookup_empty in Hl. discriminate.
Qed.

(** The key an item writes is its graph's name and its generator's. *)
Lemma written_key (generators : list command.Metric.t) (t : command.task)
  (kv : command.key * command.MetricRes) :
  command.written (command.generator_dict generators) t = Some kv ->
  kv.1 = (command.Graph.name (fst t), snd t).
Proof.
  unfold command.written.
  destruct (command.generator_dict generators !! snd t) as [g|] eqn:Hg; [|discriminate].
  apply generator_dict_name in Hg.
  destruct (command.skipped g (fst t)); [discriminate|].
  destruct (command.Timeout _ _) as [res|e].
  - destruct (command.Graph.name (fst t)); [|discriminate].
    intros [= <-]. cbn. now rewrite Hg.
  - destruct e; try discriminate. intros [= <-]. cbn. now rewrite Hg.
Qed.

Lemma written_keys_NoDup (generators : list command.Metric.t) (l : list command.task) :
  NoDup ((fun t : command.task => (command.Graph.name (fst t), snd t)) <$> l) ->
  NoDup (omap (command.written (command.generator_dict generators)) l).*1.
Proof.
  induction l as [|t l IH]; intros Hnd; [constructor|].
  rewrite fmap_cons in Hnd. apply NoDup_cons in Hnd as [Ht Hnd].
  rewrite omap_cons_eq.
  destruct (command.written (command.generator_dict generators) t) as [kv|] eqn:Hw;
    [|now apply IH].
  rewrite fmap_cons. apply NoDup_cons. split; [|now apply IH].
  intros Hin. apply Ht.
  apply list_elem_of_fmap in Hin as (kv' & Hkv & Hin).
  apply list_elem_of_omap in Hin as (t' & Ht' & Hw').
  apply list_elem_of_fmap. exists t'. split; [|exact Ht'].
  rewrite <- (written_key _ _ _ Hw), <- (written_key _ _ _ Hw'). exact Hkv.
Qed.

Lemma insert_desc_perm (c : command.Graph.t) (l : list command.Graph.t) :
  command.insert_desc c l ≡ₚ c :: l.
Proof.
  induction l as [|x l IH]; [reflexivity|]. cbn [command.insert_desc].
  destruct (command.node_count c <? command.node_count x); [|reflexivity].
  rewrite IH. apply Permutation_swap.
Qed.

(** Sorting rearranges the graphs, no more. *)
Lemma sorted_desc_perm (cfgs : list command.Graph.t) : command.sorted_desc cfgs ≡ₚ cfgs.
Proof.
  unfold command.sorted_desc. induction cfgs as [|c l IH]; [reflexivity|].
  cbn [fold_right]. now rewrite insert_desc_perm, IH.
Qed.

Lemma block_keys (methodList : list string) (n : string) (l : list command.Graph.t) :
  NoDup (command.Graph.name <$> l) ->
  NoDup ((fun t : command.task => (command.Graph.name (fst t), snd t)) <$>
         flat_map (fun cfg => if command.in_methodList methodList cfg then [(cfg, n)] else []) l)
  /\ Forall (fun t : command.task => snd t = n)
       (flat_map (fun cfg => if command.in_methodList methodList cfg then [(cfg, n)] else []) l)
  /\ Forall (fun t : command.task => command.Graph.name (fst t) ∈ command.Graph.name <$> l)
       (flat_map (fun cfg => if command.in_methodList methodList cfg then [(cfg, n)] else []) l).
Proof.
  induction l as [|c l IH]; intros Hnd; cbn [flat_map].
  - split; [constructor|split; constructor].
  - rewrite fmap_cons in Hnd. apply NoDup_cons in Hnd as [Hc Hnd].
    destruct (IH Hnd) as (IH1 & IH2 & IH3).
    assert (Forall (fun t : command.task =>
                      command.Graph.name (fst t) ∈ command.Graph.name <$> c :: l)
              (flat_map (fun cfg => if command.in_methodList methodList cfg
                                    then [(cfg, n)] else []) l)) as IH3'.
    { eapply Forall_impl; [exact IH3|]. intros t Ht. rewrite fmap_cons. now right. }
    destruct (command.in_methodList methodList c); cbn [app].
    + split; [|split].
      * rewrite fmap_cons. apply NoDup_cons. split; [|exact IH1].
        intros Hin. apply list_elem_of_fmap in Hin as (t & Hkey & Hin).
        rewrite Forall_forall in IH3. specialize (IH3 t Hin).
        cbn [fst snd] in Hkey. injection Hkey as Hname _. apply Hc. now rewrite Hname.
      * constructor; [reflexivity | exact IH2].
      * constructor; [|exact IH3']. cbn [fst]. rewrite fmap_cons. now left.
    + split; [exact IH1|split; [exact IH2|exact IH3']].
Qed.

(** With graphs of distinct names and generators of distinct names, no
    two items of the queue have the same graph name and generator name. *)
Lemma task_queue_keys (cfgs : list command.Graph.t) (generators : list command.Metric.t)
  (methodList : list string) :
  NoDup (command.Graph.name <$> cfgs) ->
  NoDup (command.Metric.name <$> generators) ->
  NoDup ((fun t : command.task => (command.Graph.name (fst t), snd t)) <$>
         command.task_queue cfgs generators methodList).
Proof.
  intros Hc Hg. unfold command.task_queue. cbv zeta.
  assert (NoDup (command.Graph.name <$> command.sorted_desc cfgs)) as Hs
    by now rewrite sorted_desc_perm.
  assert (NoDup (command.Metric.name <$> rev generators)) as Hr.
  { now rewrite <- (Permutation_rev generators). }
  clear Hc Hg. induction (rev generators) as [|g gl IH]; cbn [flat_map]; [constructor|].
  rewrite fmap_cons in Hr. apply NoDup_cons in Hr as [Hg Hr].
  rewrite fmap_app. apply NoDup_app.
  destruct (block_keys methodList (command.Metric.name g) _ Hs) as (B1 & B2 & _).
  split; [exact B1|]. split; [|now apply IH].
  intros key Hin1 Hin2.
  apply list_elem_of_fmap in Hin1 as (t1 & -> & Hin1).
  apply list_elem_of_fmap in Hin2 as (t2 & Hkey & Hin2).
  rewrite Forall_forall in B2. specialize (B2 t1 Hin1).
  apply list_elem_of_In, in_flat_map in Hin2 as (g' & Hg' & Hin2).
  apply list_elem_of_In in Hg', Hin2.
  destruct (block_keys methodList (command.Metric.name g') _ Hs) as (_ & B2' & _).
  rewrite Forall_forall in B2'. specialize (B2' t2 Hin2).
  injection Hkey as _ Hsnd. apply Hg. rewrite <- B2, Hsnd, B2'.
  now apply list_elem_of_fmap_2.
Qed.





(** C5, amended.  When invocation [i] holds an item whose evaluation
    raises IndexError, its step catches the exception: nothing is written
    to the shared dictionary (no sentinel), the queue and every other
    invocation are as before, and the invocation is back at the head of
    its loop.  Run by one invocation, the loop on the item followed by
    [rest] is the loop on [rest] from the same dictionary. *)
Theorem IndexError_caught_nothing_written (gens : gmap string command.Metric.t)
  (s : command.pool) (i : nat) (graph : command.Graph.t) (generator_name : string)
  (g : command.Metric.t) :
  command.workers s !! i = Some (command.Holding (graph, generator_name)) ->
  gens !! generator_name = Some g ->
  command.skipped g graph = false ->
  command.Timeout (command.timeout_of g) (command.Metric.evaluate g graph)
    = Py.Raise Py.IndexError ->
  let s' := {| command.queue := command.queue s;
               command.shared_dict := command.shared_dict s;
               command.workers := <[i := command.AtLock]> (command.workers s);
               command.executed := command.executed s ++ [(graph, generator_name)] |} in
  command.multiprocess_metrics_step gens i s = Some s' /\
  (forall j, j <> i -> command.workers s' !! j = command.workers s !! j) /\
  command.workers s' !! i = Some command.AtLock /\
  (forall rest d,
     command.multiprocess_metrics gens ((graph, generator_name) :: rest) d
     = command.multiprocess_metrics gens rest d).
Proof.
  intros Hw Hg Hskip Hraise s'.
  assert (forall d, command.loop_body gens d (graph, generator_name) = Py.Ok d) as Hbody.
  { intros d. unfold command.loop_body. now rewrite Hg, Hskip, Hraise. }
  split; [|split; [|split]].
  - unfold command.multiprocess_metrics_step, command.calls_evaluate.
    rewrite Hw, Hbody. cbn [fst snd]. now rewrite Hg, Hskip.
  - intros j Hj. cbn. now apply list_lookup_insert_ne.
  - cbn. apply list_lookup_insert_eq. now apply lookup_lt_Some in Hw.
  - intros rest d. cbn [command.multiprocess_metrics]. now rewrite Hbody.
Qed.

Lemma IndexError_caught_nothing_written_witness :
  let gens := command.generator_dict [command.cyclomatic_IndexError] in
  let item := (command.cfg_f, "Cyclomatic Complexity"%string) in
  let s := {| command.queue := []; command.shared_dict := ∅;
              command.workers := [command.Holding item]; command.executed := [] |} in
  let s' := {| command.queue := []; command.shared_dict := ∅;
               command.workers := [command.AtLock]; command.executed := [item] |} in
  command.multiprocess_metrics_step gens 0 s = Some s' /\
  command.multiprocess_metrics gens [item] ∅ = (∅, None).
Proof.
  intros gens item s s'.
  destruct (IndexError_caught_nothing_written gens s 0 command.cfg_f "Cyclomatic Complexity"
              command.cyclomatic_IndexError) as (Hstep & _ & _ & Hloop).
  - reflexivity.
  - vm_compute. reflexivity.
  - reflexivity.
  - reflexivity.
  - split; [exact Hstep | apply (Hloop [] ∅)].
Defined.

(** C5, as stated: the item whose evaluation raised IndexError has no
    entry, sentinel or other, under its key after the step. *)
Lemma IndexError_leaves_no_sentinel :
  let gens := command.generator_dict [command.cyclomatic_IndexError] in
  let item := (command.cfg_f, "Cyclomatic Complexity"%string) in
  let s := {| command.queue := []; command.shared_dict := ∅;
              command.workers := [command.Holding item]; command.executed := [] |} in
  ~ (exists s' v,
       command.multiprocess_metrics_step gens 0 s = Some s' /\
       command.shared_dict s' !! (Some "f"%string, "Cyclomatic Complexity"%string) = Some v).
Proof.
  intros gens item s (s' & v & Hstep & Hv).
  vm_compute in Hstep. injection Hstep as <-.
  vm_compute in Hv. discriminate.
Qed.

(** *** A pool of one invocation *)

Lemma StronglySorted_filter {A} (R : A -> A -> Prop) (P : A -> Prop)
  `{!forall x, Decision (P x)} (l : list A) :
  StronglySorted R l -> StronglySorted R (filter P l).
Proof.
  induction 1 as [|x l Hs IH Hx]; [constructor|].
  rewrite filter_cons. destruct (decide (P x)); [|assumption].
  constructor; [assumption|].
  apply Forall_forall. intros y Hy. apply list_elem_of_filter in Hy as [_ Hy].
  rewrite Forall_forall in Hx. now apply Hx.
Qed.

Lemma insert_desc_elem (c x : command.Graph.t) (l : list command.Graph.t) :
  x ∈ command.insert_desc c l -> x = c \/ x ∈ l.
Proof.
  induction l as [|a l IH]; cbn.
  - intros H. apply list_elem_of_singleton in H. now left.
  - destruct (command.node_count c <? command.node_count a).
    + intros H. apply elem_of_cons in H as [->|H]; [right; left|].
      destruct (IH H) as [?|?]; [now left | right; now right].
    + intros H. apply elem_of_cons in H as [->|H]; [now left | now right].
Qed.

Lemma insert_desc_sorted (c : command.Graph.t) (l : list command.Graph.t) :
  StronglySorted command.larger l -> StronglySorted command.larger (command.insert_desc c l).
Proof.
  induction 1 as [|a l Hs IH Ha]; cbn; [repeat constructor|].
  destruct (command.node_count c <? command.node_count a) eqn:Hlt.
  - constructor; [assumption|].
    apply Forall_forall. intros y Hy. apply insert_desc_elem in Hy as [->|Hy].
    + unfold command.larger. apply Z.ltb_lt in Hlt. lia.
    + rewrite Forall_forall in Ha. now apply Ha.
  - apply Z.ltb_ge in Hlt. constructor; [now constructor|].
    constructor; [exact Hlt|].
    eapply Forall_impl; [exact Ha|]. unfold command.larger. intros; cbn in *; lia.
Qed.

Lemma sorted_desc_sorted (cfgs : list command.Graph.t) :
  StronglySorted command.larger (command.sorted_desc cfgs).
Proof.
  induction cfgs as [|c cfgs IH]; cbn; [constructor | now apply insert_desc_sorted].
Qed.

(** The items one generator contributes to the queue. *)
Lemma block_sorted (methodList : list string) (n : string) (l : list command.Graph.t) :
  StronglySorted command.larger l ->
  StronglySorted command.larger_item
    (flat_map (fun cfg => if command.in_methodList methodList cfg then [(cfg, n)] else []) l)
  /\ Forall (fun t => fst t ∈ l /\ snd t = n)
       (flat_map (fun cfg => if command.in_methodList methodList cfg then [(cfg, n)] else []) l).
Proof.
  induction 1 as [|c l Hs [IHs IHf] Hc]; cbn; [split; constructor|].
  assert (Forall (fun t : command.task => fst t ∈ c :: l /\ snd t = n)
            (flat_map (fun cfg => if command.in_methodList methodList cfg
                                  then [(cfg, n)] else []) l)) as Htail.
  { eapply Forall_impl; [exact IHf|]. cbn. intros t [? ?]. split; [now right|assumption]. }
  destruct (command.in_methodList methodList c); cbn; split; try assumption.
  - constructor; [assumption|].
    apply Forall_forall. intros t Ht. rewrite Forall_forall in IHf. rewrite Forall_forall in Hc.
    destruct (IHf t Ht) as [Hin _]. unfold command.larger_item. cbn.
    now apply Hc.
  - constructor; [|assumption]. split; [now left|reflexivity].
Qed.

Lemma filter_block_other (methodList : list string) (n gname : string)
  (l : list command.Graph.t) :
  n <> gname ->
  filter (fun t : command.task => snd t = gname)
    (flat_map (fun cfg => if command.in_methodList methodList cfg then [(cfg, n)] else []) l)
  = [].
Proof.
  intros Hne. induction l as [|c l IH]; [reflexivity|]. cbn [flat_map].
  rewrite filter_app, IH, app_nil_r.
  destruct (command.in_methodList methodList c); [|reflexivity].
  rewrite filter_cons, filter_nil. cbn [snd]. now destruct (decide (n = gname)).
Qed.

Lemma filter_queue_sorted (methodList : list string) (gname : string)
  (sorted : list command.Graph.t) (gl : list command.Metric.t) :
  StronglySorted command.larger sorted ->
  NoDup (command.Metric.name <$> gl) ->
  StronglySorted command.larger_item
    (filter (fun t : command.task => snd t = gname)
       (flat_map (fun g => flat_map (fun cfg => if command.in_methodList methodList cfg
                                               then [(cfg, command.Metric.name g)] else [])
                                    sorted) gl)).
Proof.
  intros Hsorted. induction gl as [|g gl IH]; intros Hnd; cbn [flat_map]; [constructor|].
  rewrite fmap_cons in Hnd. apply NoDup_cons in Hnd as [Hg Hnd].
  rewrite filter_app. destruct (decide (command.Metric.name g = gname)) as [Heq|Hne].
  - assert (filter (fun t : command.task => snd t = gname)
              (flat_map (fun g => flat_map (fun cfg => if command.in_methodList methodList cfg
                                                      then [(cfg, command.Metric.name g)] else [])
                                           sorted) gl) = []) as ->.
    { clear IH Hnd. induction gl as [|g' gl IH']; [reflexivity|]. cbn [flat_map].
      rewrite filter_app, filter_block_other.
      - apply IH'. intros H. apply Hg. rewrite fmap_cons. now right.
      - intros H. apply Hg. rewrite fmap_cons, Heq, <- H. now left. }
    rewrite app_nil_r. apply StronglySorted_filter.
    now apply block_sorted.
  - rewrite filter_block_other by assumption. now apply IH.
Qed.

Lemma solo_inv_step gens T0 s s' :
  solo_inv gens T0 s -> command.step gens s s' -> solo_inv gens T0 s'.
Proof.
  intros (w & pre & Hw & HT & Hex & Hq) [i Hstep].
  unfold command.multiprocess_metrics_step in Hstep. rewrite Hw in Hstep.
  destruct i as [|i]; [|discriminate]. cbn in Hstep.
  destruct w as [|item| |]; try discriminate.
  - destruct (command.queue s) as [|item rest] eqn:Hqueue; injection Hstep as <-.
    + exists command.Exited, pre. cbn. auto.
    + exists (command.Holding item), pre. cbn. split; [reflexivity|].
      split; [exact HT|]. split; [exact Hex|discriminate].
  - assert (T0 = (pre ++ [item]) ++ command.queue s) as HT'.
    { rewrite HT. cbn. now rewrite <- app_assoc. }
    assert ((if command.calls_evaluate gens item
             then command.executed s ++ [item] else command.executed s)
            = filter (fun t => command.calls_evaluate gens t) (pre ++ [item])) as Hex'.
    { rewrite filter_app, Hex, filter_cons, filter_nil.
      destruct (command.calls_evaluate gens item); cbn; [reflexivity | now rewrite app_nil_r]. }
    destruct (command.loop_body gens (command.shared_dict s) item) as [d|e];
      injection Hstep as <-.
    + exists command.AtLock, (pre ++ [item]). cbn.
      split; [reflexivity|]. split; [exact HT'|]. split; [exact Hex'|discriminate].
    + exists (command.Died e), (pre ++ [item]). cbn.
      split; [reflexivity|]. split; [exact HT'|]. split; [exact Hex'|discriminate].
Qed.

Lemma solo_inv_reachable gens T0 s :
  rtc (command.step gens)
    {| command.queue := T0; command.shared_dict := ∅;
       command.workers := replicate 1 command.AtLock; command.executed := [] |} s ->
  solo_inv gens T0 s.
Proof.
  intros H.
  apply (rtc_ind_r (solo_inv gens T0)) with (2 := fun _ _ _ Hs IH => solo_inv_step _ _ _ _ IH Hs) (3 := H).
  exists command.AtLock, []. cbn. split; [reflexivity|]. split; [reflexivity|].
  split; [reflexivity|discriminate].
Qed.

Lemma sorted_desc_5_50_1 (c5 c50 c1 : command.Graph.t) :
  command.node_count c5 = 5 -> command.node_count c50 = 50 -> command.node_count c1 = 1 ->
  command.sorted_desc [c5; c50; c1] = [c50; c5; c1].
Proof.
  intros H5 H50 H1. unfold command.sorted_desc. cbn [fold_right command.insert_desc].
  rewrite H50, H1. cbn [Z.ltb Z.compare Pos.compare Pos.compare_cont command.insert_desc].
  rewrite H5, H50, H1. reflexivity.
Qed.

Lemma filter_swap {A} (P Q : A -> Prop) `{!forall x, Decision (P x)} `{!forall x, Decision (Q x)}
  (l : list A) : filter P (filter Q l) = filter Q (filter P l).
Proof. rewrite !list_filter_filter. apply list_filter_iff. tauto. Qed.

(** C8.  With a pool of one invocation, for every reachable state:
    the calls of [evaluate] made so far are, in order, those items of an
    initial part of the queue that reach the call; once the invocation
    has returned they are those of the whole queue; for any one generator
    name (generator names being pairwise distinct) they are in descending
    order of node count.  For three graphs of node counts 5, 50 and 1
    whose names are all in [methodList], the queue holds, for each
    generator, the graph of 50 nodes, then that of 5, then that of 1. *)
Theorem pool_of_one_descending (cfgs : list command.Graph.t)
  (generators : list command.Metric.t) (methodList : list string) (s : command.pool) :
  NoDup (command.Metric.name <$> generators) ->
  rtc (command.step (command.generator_dict generators))
      (command.do_metrics_multithreaded 1 cfgs generators methodList) s ->
  let gens := command.generator_dict generators in
  let T0 := command.task_queue cfgs generators methodList in
  (exists pre rest,
     T0 = pre ++ rest /\
     command.executed s = filter (fun t => command.calls_evaluate gens t) pre /\
     (command.workers s = [command.Exited] -> rest = [])) /\
  (forall gname,
     StronglySorted command.larger_item
       (filter (fun t : command.task => snd t = gname) (command.executed s))) /\
  (forall c5 c50 c1,
     cfgs = [c5; c50; c1] ->
     command.node_count c5 = 5 -> command.node_count c50 = 50 -> command.node_count c1 = 1 ->
     command.in_methodList methodList c5 = true ->
     command.in_methodList methodList c50 = true ->
     command.in_methodList methodList c1 = true ->
     T0 = flat_map (fun g => [(c50, command.Metric.name g); (c5, command.Metric.name g);
                              (c1, command.Metric.name g)])
                   (rev generators)).
Proof.
  intros Hnd Hreach gens T0.
  apply solo_inv_reachable in Hreach as (w & pre & Hw & HT & Hex & Hq).
  fold T0 in HT. fold gens in Hex.
  split; [|split].
  - exists pre, (command.holding_item w ++ command.queue s). split; [exact HT|].
    split; [exact Hex|]. intros Hws. rewrite Hw in Hws. injection Hws as ->.
    cbn. now apply Hq.
  - intros gname. rewrite Hex.
    assert (StronglySorted command.larger_item
              (filter (fun t : command.task => snd t = gname) T0)) as Hsorted.
    { unfold T0, command.task_queue. apply filter_queue_sorted.
      - apply sorted_desc_sorted.
      - assert (rev generators ≡ₚ generators) as -> by (symmetry; apply Permutation_rev).
        exact Hnd. }
    rewrite HT, filter_app in Hsorted. apply StronglySorted_app_1_l in Hsorted.
    rewrite filter_swap. now apply StronglySorted_filter.
  - intros c5 c50 c1 -> H5 H50 H1 M5 M50 M1.
    unfold T0, command.task_queue. rewrite sorted_desc_5_50_1 by assumption.
    cbn [flat_map]. rewrite M5, M50, M1. reflexivity.
Qed.

Lemma pool_of_one_descending_witness :
  let generators := [command.cyclomatic_ok] in
  let methodList := ["a"; "b"; "c"]%string in
  exists s,
    NoDup (command.Metric.name <$> generators) /\
    rtc (command.step (command.generator_dict generators))
        (command.do_metrics_multithreaded 1 command.cfgs_5_50_1 generators methodList) s /\
    command.workers s = [command.Exited] /\
    (forall gname,
       StronglySorted command.larger_item
         (filter (fun t : command.task => snd t = gname) (command.executed s))) /\
    map (fun t : command.task => command.node_count (fst t)) (command.executed s) = [50; 5; 1].
Proof.
  intros generators methodList.
  destruct (command.run_schedule (command.generator_dict generators)
              [0; 0; 0; 0; 0; 0; 0]%nat
              (command.do_metrics_multithreaded 1 command.cfgs_5_50_1 generators methodList))
    as [s|] eqn:Hrun; [|vm_compute in Hrun; discriminate].
  exists s.
  assert (NoDup (command.Metric.name <$> generators)) as Hnd by apply NoDup_singleton.
  pose proof (run_schedule_reachable _ _ _ _ Hrun) as Hreach.
  split; [exact Hnd|]. split; [exact Hreach|].
  split; [vm_compute in Hrun; injection Hrun as <-; reflexivity|].
  split.
  - exact (proj1 (proj2 (pool_of_one_descending command.cfgs_5_50_1 generators methodList s
                           Hnd Hreach))).
  - vm_compute in Hrun. injection Hrun as <-. vm_compute. reflexivity.
Defined.

(** ** command.py: [do_vector] *)

Example do_vector_constant {Float} (float : string -> option Float) (coeff : option string) :
  command.do_vector_entry float "4.0" "4.0" coeff
  = match float "4.0" with
    | Some f => Py.Ok (command.Fields [command.CInt 0; command.CInt 0; command.CInt 0;
                                       command.CFloat f; command.CInt 0], coeff)
    | None => Py.Ok (command.Fields [command.CInt (-1); command.CInt (-1); command.CInt (-1);
                                     command.CInt (-1); command.CInt (-1);
                                     command.CStr "took too long to run"], coeff)
    end.
Proof. vm_compute. destruct (float "4.0"%string); reflexivity. Qed.

Example do_vector_polynomial {Float} (float : string -> option Float) (coeff : option string) :
  command.do_vector_entry float "n**2" "0.5*n**2 + 1.5*n + 1.0" coeff
  = match float "2" with
    | Some p => Py.Ok (command.Fields [command.CInt 2; command.CInt 0; command.CInt 0;
                                       command.CStr "0.5"; command.CFloat p],
                       Some "0.5"%string)
    | None => Py.Raise Py.ValueError
    end.
Proof. vm_compute. destruct (float "2"%string); reflexivity. Qed.

Example do_vector_exponential {Float} (float : string -> option Float) (coeff : option string) :
  command.do_vector_entry float "1.62**n" "0.72*1.62**n + 2.0" coeff
  = match float "1.62" with
    | Some b => Py.Ok (command.Fields [command.CInt 3; command.CStr "0.72"; command.CFloat b;
                                       command.CInt 0; command.CInt 0],
                       Some "0.72"%string)
    | None => Py.Raise Py.ValueError
    end.
Proof. vm_compute. destruct (float "1.62"%string); reflexivity. Qed.

(** C7.  For the linear result with APC [n] and path complexity
    [2.0*n + 1.0] the exported vector is [1, 0, 0, 0, float("2.0")]: the
    coefficient stands in the fifth field, which the code's own header
    labels "APC poly power", and the fourth field, labelled
    "APC poly coeff", is 0. *)
Theorem do_vector_linear_coefficient_slot {Float} (float : string -> option Float)
  (coeff : option string) :
  command.do_vector_entry float "n" "2.0*n + 1.0" coeff
  = match float "2.0" with
    | Some c => Py.Ok (command.Fields [command.CInt 1; command.CInt 0; command.CInt 0;
                                       command.CInt 0; command.CFloat c], coeff)
    | None => Py.Raise Py.ValueError
    end /\
  command.featureVectorLabel !! 3%nat = Some "APC poly coeff"%string /\
  command.featureVectorLabel !! 4%nat = Some "APC poly power"%string.
Proof.
  split; [|split; reflexivity].
  vm_compute. destruct (float "2.0"%string); reflexivity.
Qed.

(** An exception other than IndexError and TimeoutError is not caught in
    the loop body: it ends the invocation, with nothing written. *)
Example LinAlgError_leaves_loop :
  let gens := command.generator_dict [command.npath_LinAlgError] in
  let item := (command.cfg_f, "NPath Complexity"%string) in
  command.multiprocess_metrics_step gens 0
    {| command.queue := []; command.shared_dict := ∅;
       command.workers := [command.Holding item]; command.executed := [] |}
  = Some {| command.queue := []; command.shared_dict := ∅;
            command.workers := [command.Died Py.LinAlgError];
            command.executed := [item] |}.
Proof. vm_compute. reflexivity. Qed.

(* ===================================================================== *)
(** * Part III.  Further properties of the embedded code                  *)
(* ===================================================================== *)

(** ** Decimal numerals and ordered dictionaries *)

Lemma int_str (n : Z) : Py.int (Py.str n) = Py.Ok n.
Proof.
  unfold Py.int, Py.str.
  rewrite NilZero.isi.
  - now rewrite DecimalZ.of_to.
  - destruct n; cbn; try discriminate.
    intros [= H]. now apply DecimalPos.Unsigned.to_uint_nonnil in H.
  - destruct n; cbn; try discriminate.
    intros [= H]. now apply DecimalPos.Unsigned.to_uint_nonnil in H.
Qed.

Lemma str_inj (n m : Z) : Py.str n = Py.str m -> n = m.
Proof.
  intros H. assert (Py.int (Py.str n) = Py.int (Py.str m)) as Hi by now rewrite H.
  rewrite !int_str in Hi. congruence.
Qed.

Lemma dict_get_set_eq {K V} `{EqDecision K} (k : K) (v : V) (d : list (K * V)) :
  Py.dict_get k (Py.dict_set k v d) = Some v.
Proof.
  induction d as [|[k' v'] d IH]; cbn.
  - now rewrite decide_True.
  - destruct (decide (k' = k)) as [->|Hne]; cbn.
    + now rewrite decide_True.
    + now rewrite decide_False.
Qed.

Lemma dict_get_set_ne {K V} `{EqDecision K} (k k0 : K) (v : V) (d : list (K * V)) :
  k0 <> k -> Py.dict_get k (Py.dict_set k0 v d) = Py.dict_get k d.
Proof.
  intros Hne. induction d as [|[k' v'] d IH]; cbn.
  - now rewrite decide_False.
  - destruct (decide (k' = k0)) as [->|Hne']; cbn.
    + now rewrite !decide_False.
    + destruct (decide (k' = k)); [reflexivity|assumption].
Qed.

(** Storing under a key that is absent appends an entry; storing under a
    present key keeps the position of the entry. *)
Lemma dict_set_absent {K V} `{EqDecision K} (k : K) (v : V) (d : list (K * V)) :
  Py.dict_get k d = None -> Py.dict_set k v d = d ++ [(k, v)].
Proof.
  induction d as [|[k' v'] d IH]; cbn; [reflexivity|].
  destruct (decide (k' = k)); [discriminate|]. intros H. now rewrite IH.
Qed.

Lemma dict_set_keys {K V} `{EqDecision K} (k : K) (v v0 : V) (d : list (K * V)) :
  Py.dict_get k d = Some v0 -> map fst (Py.dict_set k v d) = map fst d.
Proof.
  induction d as [|[k' v'] d IH]; cbn; [discriminate|].
  destruct (decide (k' = k)) as [->|Hne]; cbn; [reflexivity|].
  intros H. now rewrite IH.
Qed.

(** ** The edge dictionary *)

Lemma starts_snoc (l : list Edges.edge) (e : Edges.edge) :
  Edges.starts (l ++ [e])
  = if bool_decide (fst e ∈ Edges.starts l) then Edges.starts l else Edges.starts l ++ [fst e].
Proof. unfold Edges.starts. now rewrite fold_left_app. Qed.

Lemma starts_elem (l : list Edges.edge) (a : Z) :
  a ∈ Edges.starts l <-> exists b, (a, b) ∈ l.
Proof.
  induction l as [|[a0 b0] l IH] using rev_ind.
  - cbn. split; [intros H; inversion H | intros [b H]; inversion H].
  - rewrite starts_snoc. cbn [fst]. case_bool_decide as Hin.
    + rewrite IH. split.
      * intros [b Hb]. exists b. apply elem_of_app. now left.
      * intros [b Hb]. apply elem_of_app in Hb as [Hb|Hb]; [now exists b|].
        apply list_elem_of_singleton in Hb. injection Hb as -> ->. now apply IH.
    + rewrite elem_of_app, IH, list_elem_of_singleton. split.
      * intros [[b Hb]| ->]; [exists b | exists b0]; apply elem_of_app; [now left|right].
        now apply list_elem_of_singleton.
      * intros [b Hb]. apply elem_of_app in Hb as [Hb|Hb]; [left; now exists b|].
        apply list_elem_of_singleton in Hb. injection Hb as -> ->. now right.
Qed.

Lemma starts_NoDup (l : list Edges.edge) : NoDup (Edges.starts l).
Proof.
  induction l as [|e l IH] using rev_ind; [constructor|].
  rewrite starts_snoc. case_bool_decide as Hin; [assumption|].
  apply NoDup_app. split; [assumption|]. split; [|apply NoDup_singleton].
  intros x Hx Hx'. apply list_elem_of_singleton in Hx'. now subst.
Qed.

Lemma ends_of_snoc (a : Z) (l : list Edges.edge) (e : Edges.edge) :
  Edges.ends_of a (l ++ [e])
  = Edges.ends_of a l ++ (if decide (fst e = a) then [snd e] else []).
Proof.
  unfold Edges.ends_of. rewrite filter_app, map_app, filter_cons, filter_nil.
  now destruct (decide (fst e = a)).
Qed.

Lemma ends_of_not_start (a : Z) (l : list Edges.edge) :
  a ∉ Edges.starts l -> Edges.ends_of a l = [].
Proof.
  intros Hn. unfold Edges.ends_of.
  destruct (filter (fun e : Edges.edge => fst e = a) l) as [|[a' b] r] eqn:Hf; [reflexivity|].
  exfalso. apply Hn, starts_elem.
  assert ((a', b) ∈ filter (fun e : Edges.edge => fst e = a) l) as Hin by (rewrite Hf; left).
  apply list_elem_of_filter in Hin as [Heq Hin]. cbn in Heq. subst a'. now exists b.
Qed.

Lemma ends_of_start (a : Z) (l : list Edges.edge) :
  a ∈ Edges.starts l -> Edges.ends_of a l <> [].
Proof.
  intros Ha. apply starts_elem in Ha as [b Hb]. unfold Edges.ends_of.
  assert ((a, b) ∈ filter (fun e : Edges.edge => fst e = a) l) as Hin
    by (apply list_elem_of_filter; split; [reflexivity|assumption]).
  destruct (filter _ l); [inversion Hin|discriminate].
Qed.

Lemma dict_get_keyed {V} (f : Z -> V) (l : list Z) (a : Z) :
  Py.dict_get (Py.str a) (map (fun a' => (Py.str a', f a')) l)
  = if decide (a ∈ l) then Some (f a) else None.
Proof.
  induction l as [|a0 l IH]; cbn.
  - rewrite decide_False; [reflexivity|]. intros H; inversion H.
  - destruct (decide (Py.str a0 = Py.str a)) as [Heq|Hne].
    + apply str_inj in Heq as ->. rewrite decide_True; [reflexivity|left].
    + rewrite IH. destruct (decide (a ∈ l)) as [Hin|Hnin].
      * rewrite decide_True; [reflexivity|now right].
      * rewrite decide_False; [reflexivity|].
        intros H. apply elem_of_cons in H as [->|H]; [now apply Hne|now apply Hnin].
Qed.

Lemma dict_set_keyed {V} (f : Z -> V) (l : list Z) (a : Z) (v : V) :
  NoDup l -> a ∈ l ->
  Py.dict_set (Py.str a) v (map (fun a' => (Py.str a', f a')) l)
  = map (fun a' => (Py.str a', if decide (a' = a) then v else f a')) l.
Proof.
  induction l as [|a0 l IH]; intros Hnd Hin; [inversion Hin|].
  apply NoDup_cons in Hnd as [Ha0 Hnd]. cbn.
  destruct (decide (Py.str a0 = Py.str a)) as [Heq|Hne].
  - apply str_inj in Heq as ->. rewrite decide_True by reflexivity. f_equal.
    apply map_ext_in. intros a' Ha'. apply list_elem_of_In in Ha'.
    rewrite decide_False; [reflexivity|]. now intros ->.
  - rewrite decide_False by (intros ->; now apply Hne). f_equal.
    apply IH; [assumption|]. apply elem_of_cons in Hin as [->|Hin]; [now destruct Hne|assumption].
Qed.

(** The dictionary built from an edge list has one entry per start node,
    in the order of the first edge of each, holding the end nodes of the
    edges that leave it, in edge-list order. *)
Lemma edgedict_of_entries (edgelist : list Edges.edge) :
  Edges.edgedict_of edgelist
  = map (fun a => (Py.str a, Edges.ends_of a edgelist)) (Edges.starts edgelist).
Proof.
  induction edgelist as [|[a b] l IH] using rev_ind; [reflexivity|].
  unfold Edges.edgedict_of. rewrite fold_left_app. cbn [fold_left fst snd].
  fold (Edges.edgedict_of l). rewrite IH, dict_get_keyed, starts_snoc. cbn [fst].
  destruct (decide (a ∈ Edges.starts l)) as [Hin|Hnin].
  - rewrite bool_decide_eq_true_2 by assumption.
    rewrite dict_set_keyed by (auto using starts_NoDup).
    apply map_ext. intros a'. rewrite ends_of_snoc. cbn [fst snd]. f_equal.
    destruct (decide (a' = a)) as [->|Hne].
    + now rewrite decide_True.
    + rewrite decide_False by congruence. now rewrite app_nil_r.
  - rewrite bool_decide_eq_false_2 by assumption.
    rewrite dict_set_absent
      by (rewrite dict_get_keyed; now rewrite decide_False).
    rewrite map_app. cbn [map]. f_equal.
    + apply map_ext_in. intros a' Ha'. apply list_elem_of_In in Ha'.
      rewrite ends_of_snoc. cbn [fst]. rewrite decide_False; [now rewrite app_nil_r|].
      intros ->. now apply Hnin.
    + rewrite ends_of_snoc, ends_of_not_start by assumption. cbn [fst snd].
      now rewrite decide_True.
Qed.

(** X1.  Looking a node up in the edge dictionary: the end nodes of its edges
    when it has some, absent otherwise. *)
Theorem edgedict_of_lookup (edgelist : list Edges.edge) (a : Z) :
  Py.dict_get (Py.str a) (Edges.edgedict_of edgelist)
  = match Edges.ends_of a edgelist with
    | [] => None
    | ends => Some ends
    end.
Proof.
  rewrite edgedict_of_entries, dict_get_keyed.
  destruct (decide (a ∈ Edges.starts edgelist)) as [Hin|Hnin].
  - apply ends_of_start in Hin. now destruct (Edges.ends_of a edgelist).
  - now rewrite ends_of_not_start.
Qed.

(** ** [readCFG]: scanning the lines of the file *)

Lemma list_ascii_app (s1 s2 : string) :
  list_ascii_of_string (String.append s1 s2) = list_ascii_of_string s1 ++ list_ascii_of_string s2.
Proof.
  induction s1 as [|c s1 IH]; [reflexivity|].
  change (String.append (String c s1) s2) with (String c (String.append s1 s2)).
  cbn [list_ascii_of_string app]. now rewrite IH.
Qed.

Lemma append_char_list (s : string) (c : ascii) :
  String.append s (PyStr.char_str c) = string_of_list_ascii (list_ascii_of_string s ++ [c]).
Proof. induction s as [|c' s IH]; [reflexivity|]. cbn [list_ascii_of_string app string_of_list_ascii]. now rewrite <- IH. Qed.

Lemma append_list (s : string) (l : list ascii) :
  string_of_list_ascii (list_ascii_of_string s ++ l) = String.append s (string_of_list_ascii l).
Proof. induction s as [|c' s IH]; [reflexivity|]. cbn [list_ascii_of_string app string_of_list_ascii]. now rewrite IH. Qed.

Lemma append_empty_r (s : string) : String.append s EmptyString = s.
Proof.
  induction s as [|c s IH]; [reflexivity|].
  change (String.append (String c s) EmptyString) with (String c (String.append s EmptyString)).
  now rewrite IH.
Qed.

Lemma append_char_assoc (s t : string) (c : ascii) :
  String.append (String.append s (PyStr.char_str c)) t = String.append s (String c t).
Proof.
  induction s as [|c' s IH]; [reflexivity|].
  change (String.append (String.append (String c' s) (PyStr.char_str c)) t)
    with (String c' (String.append (String.append s (PyStr.char_str c)) t)).
  now rewrite IH.
Qed.

(** Before the first non-digit, digits extend [start]. *)
Lemma scan_digits (ds : list ascii) (start end_ : string) :
  Forall (fun c => PyStr.isdigit c = true) ds ->
  fold_left Edges.scan_char ds (start, end_, false)
  = (String.append start (string_of_list_ascii ds), end_, false).
Proof.
  revert start. induction ds as [|c ds IH]; intros start Hds; cbn [fold_left].
  - cbn [string_of_list_ascii]. now rewrite append_empty_r.
  - apply Forall_cons in Hds as [Hc Hds]. cbn [Edges.scan_char]. rewrite Hc, IH by assumption.
    now rewrite append_char_assoc.
Qed.

(** After it, digits extend [end] and everything else is dropped. *)
Lemma scan_done (cs : list ascii) (start end_ : string) :
  fold_left Edges.scan_char cs (start, end_, true)
  = (start, String.append end_ (string_of_list_ascii (filter (fun c => PyStr.isdigit c = true) cs)),
     true).
Proof.
  revert end_. induction cs as [|c cs IH]; intros end_; cbn [fold_left].
  - rewrite filter_nil. cbn [string_of_list_ascii]. now rewrite append_empty_r.
  - cbn [Edges.scan_char]. rewrite filter_cons. destruct (PyStr.isdigit c) eqn:Hc.
    + rewrite decide_True by reflexivity. rewrite IH. now rewrite append_char_assoc.
    + rewrite decide_False by discriminate. apply IH.
Qed.

Lemma filter_no_digit (cs : list ascii) :
  Forall (fun c => PyStr.isdigit c = false) cs ->
  filter (fun c => PyStr.isdigit c = true) cs = [].
Proof.
  induction 1 as [|c cs Hc _ IH]; [reflexivity|].
  rewrite filter_cons, decide_False by congruence. exact IH.
Qed.

Lemma filter_all_digit (cs : list ascii) :
  Forall (fun c => PyStr.isdigit c = true) cs ->
  filter (fun c => PyStr.isdigit c = true) cs = cs.
Proof.
  induction 1 as [|c cs Hc _ IH]; [reflexivity|].
  rewrite filter_cons, decide_True by assumption. now rewrite IH.
Qed.

(** The numeral of a non-negative integer consists of digits, and is not
    empty. *)
Lemma uint_digits (d : Decimal.uint) :
  Forall (fun c => PyStr.isdigit c = true) (list_ascii_of_string (NilEmpty.string_of_uint d)).
Proof. induction d; cbn; constructor; auto. Qed.

Lemma str_digits (n : Z) :
  0 <= n -> Forall (fun c => PyStr.isdigit c = true) (list_ascii_of_string (Py.str n)).
Proof.
  intros Hn. unfold Py.str. destruct n as [|p|p]; [| |lia].
  - cbn. repeat constructor.
  - cbn. unfold NilZero.string_of_uint.
    destruct (Pos.to_uint p) eqn:Hp; try (rewrite <- Hp; apply uint_digits).
    now apply DecimalPos.Unsigned.to_uint_nonnil in Hp.
Qed.

Lemma str_nonempty (n : Z) : Py.str n <> EmptyString.
Proof.
  intros H. pose proof (int_str n) as Hi. rewrite H in Hi. discriminate.
Qed.

(** Auxiliary form of the next theorem, for use in later proofs. *)
Lemma parse_line_None (ds rest : string) :
  Edges.all_digit ds -> Edges.no_digit rest ->
  Edges.parse_line (String.append ds rest) = Py.Ok None.
Proof.
  intros Hds Hrest. unfold Edges.parse_line, Edges.scan_line.
  rewrite list_ascii_app, fold_left_app, scan_digits by exact Hds.
  destruct (list_ascii_of_string rest) as [|c cs] eqn:Hr; [reflexivity|].
  unfold Edges.no_digit in Hrest. rewrite Hr in Hrest. apply Forall_cons in Hrest as [Hc Hcs].
  cbn [fold_left Edges.scan_char]. rewrite Hc, scan_done, filter_no_digit by assumption.
  reflexivity.
Qed.

(** X2.  A line that starts with digits only, or with digits followed by
    characters none of which is a digit, gives no edge: its [end] stays
    empty. *)
Theorem parse_line_ignored (ds rest : string) :
  Edges.all_digit ds -> Edges.no_digit rest ->
  Edges.parse_line (String.append ds rest) = Py.Ok None.
Proof. exact (parse_line_None ds rest). Qed.

Lemma parse_line_ignored_witness :
  Edges.all_digit "12" /\ Edges.no_digit " [shape=box];" /\
  Edges.parse_line "12 [shape=box];" = Py.Ok None.
Proof.
  assert (Edges.all_digit "12") as H1 by (repeat constructor).
  assert (Edges.no_digit " [shape=box];") as H2 by (repeat constructor).
  split; [exact H1|]. split; [exact H2|].
  exact (parse_line_ignored "12" " [shape=box];" H1 H2).
Defined.

(** X3.  A line whose first character is not a digit and that holds a digit
    further on makes [readCFG] fail: [start] is empty when [int(start)] is
    evaluated. *)
Theorem parse_line_digit_after_text (c : ascii) (rest : string) :
  PyStr.isdigit c = false -> ~ Edges.no_digit rest ->
  Edges.parse_line (String c rest) = Py.Raise Py.ValueError.
Proof.
  intros Hc Hrest. unfold Edges.parse_line, Edges.scan_line.
  cbn [list_ascii_of_string fold_left Edges.scan_char]. rewrite Hc, scan_done.
  destruct (filter (fun c0 => PyStr.isdigit c0 = true) (list_ascii_of_string rest))
    as [|d ds] eqn:Hf.
  - exfalso. apply Hrest. unfold Edges.no_digit. apply Forall_forall. intros x Hx.
    destruct (PyStr.isdigit x) eqn:Hd; [|reflexivity].
    assert (x ∈ filter (fun c0 => PyStr.isdigit c0 = true) (list_ascii_of_string rest)) as Hin
      by (apply list_elem_of_filter; auto).
    rewrite Hf in Hin. inversion Hin.
  - reflexivity.
Qed.

Lemma parse_line_digit_after_text_witness :
  PyStr.isdigit "d" = false /\ ~ Edges.no_digit "igraph G1 {" /\
  Edges.parse_line "digraph G1 {" = Py.Raise Py.ValueError.
Proof.
  assert (PyStr.isdigit "d" = false) as H1 by reflexivity.
  assert (~ Edges.no_digit "igraph G1 {") as H2.
  { unfold Edges.no_digit. intros H. rewrite Forall_forall in H.
    specialize (H "1"%char). cbn in H. discriminate H. set_solver. }
  split; [exact H1|]. split; [exact H2|].
  exact (parse_line_digit_after_text "d" "igraph G1 {" H1 H2).
Defined.

(** Auxiliary form of the next theorem, for use in later proofs. *)
Lemma parse_line_Some (a b : Z) (sep tail : string) :
  0 <= a -> 0 <= b -> sep <> EmptyString ->
  Edges.no_digit sep -> Edges.no_digit tail ->
  Edges.parse_line
    (String.append (Py.str a) (String.append sep (String.append (Py.str b) tail)))
  = Py.Ok (Some (a, b)).
Proof.
  intros Ha Hb Hsep Hnd Htail. unfold Edges.parse_line, Edges.scan_line.
  rewrite list_ascii_app, fold_left_app, scan_digits by now apply str_digits.
  destruct sep as [|c cs]; [contradiction|].
  unfold Edges.no_digit in Hnd. cbn [list_ascii_of_string] in Hnd.
  apply Forall_cons in Hnd as [Hc Hcs].
  change (String.append (String c cs) ?t) with (String c (String.append cs t)).
  cbn [list_ascii_of_string fold_left Edges.scan_char]. rewrite Hc, scan_done.
  rewrite !list_ascii_app, !filter_app.
  rewrite (filter_no_digit _ Hcs), (filter_no_digit _ Htail),
    (filter_all_digit _ (str_digits b Hb)), app_nil_r.
  cbn [app]. rewrite string_of_list_ascii_of_string.
  change (String.append EmptyString ?t) with t.
  destruct (String.eqb_spec (Py.str b) EmptyString) as [He|_];
    [now apply str_nonempty in He|].
  rewrite !string_of_list_ascii_of_string, !int_str. reflexivity.
Qed.

(** X4.  A line made of the numeral of [a], a separator with no digit, the
    numeral of [b] and a tail with no digit gives the edge [(a, b)]. *)
Theorem parse_line_edge (a b : Z) (sep tail : string) :
  0 <= a -> 0 <= b -> sep <> EmptyString ->
  Edges.no_digit sep -> Edges.no_digit tail ->
  Edges.parse_line
    (String.append (Py.str a) (String.append sep (String.append (Py.str b) tail)))
  = Py.Ok (Some (a, b)).
Proof. exact (parse_line_Some a b sep tail). Qed.

Lemma parse_line_edge_witness :
  Edges.parse_line "3 -> 14;" = Py.Ok (Some (3, 14)).
Proof.
  apply (parse_line_edge 3 14 " -> " ";"); try lia; try discriminate; repeat constructor.
Defined.

(** Reading back an edge list written one edge per line between a header
    and a footer with no digits gives the edge list. *)
Lemma read_edges_acc (lines : list string) (rs : list (option Edges.edge))
  (acc : list Edges.edge) :
  Forall2 (fun x r => Edges.parse_line x = Py.Ok r) lines rs ->
  Py.for_res lines
    (fun x edgelist =>
       r ← Edges.parse_line x;
       match r with
       | Some e => Py.Ok (edgelist ++ [e])
       | None => Py.Ok edgelist
       end) acc
  = Py.Ok (acc ++ omap id rs).
Proof.
  intros H. revert acc. induction H as [|x r lines rs Hx _ IH]; intros acc; cbn [Py.for_res].
  - cbn. now rewrite app_nil_r.
  - rewrite Hx. cbn. destruct r as [e|]; cbn; rewrite IH; [|reflexivity].
    now rewrite <- app_assoc.
Qed.

(** X5.  A dot file written from an edge list reads back as that list: a
    header and a footer without digits, and between them one line
    [a -> b;] per edge, give the edges in order (node numbers are
    non-negative). *)
Theorem read_edges_round_trip (header footer : string) (edgelist : list Edges.edge) :
  Edges.no_digit header -> Edges.no_digit footer ->
  Forall (fun e : Edges.edge => 0 <= fst e /\ 0 <= snd e) edgelist ->
  Edges.read_edges (header :: map Edges.edge_line edgelist ++ [footer]) = Py.Ok edgelist.
Proof.
  intros Hh Hf Hpos. unfold Edges.read_edges.
  rewrite (read_edges_acc _ (None :: map Some edgelist ++ [None])).
  - cbn. f_equal. rewrite omap_app. cbn. rewrite app_nil_r.
    clear. induction edgelist as [|e l IH]; cbn; [reflexivity|now rewrite IH].
  - constructor.
    + apply (parse_line_None EmptyString header); [constructor|assumption].
    + apply Forall2_app.
      * induction Hpos as [|[a b] l [Ha Hb] _ IH]; cbn [map]; constructor; [|exact IH].
        unfold Edges.edge_line. cbn [fst snd].
        apply parse_line_Some; try assumption; try discriminate; repeat constructor.
      * constructor; [|constructor].
        apply (parse_line_None EmptyString footer); [constructor|assumption].
Qed.

Lemma read_edges_round_trip_witness :
  Edges.read_edges ("digraph G {" :: map Edges.edge_line [(0, 1); (1, 2); (0, 2)] ++ ["}"])%string
  = Py.Ok [(0, 1); (1, 2); (0, 2)].
Proof.
  apply (read_edges_round_trip "digraph G {" "}" [(0, 1); (1, 2); (0, 2)]).
  - repeat constructor.
  - repeat constructor.
  - repeat constructor; cbn; lia.
Defined.

(** ** sympycfg2.py: the system built for a well-formed edge list *)


Lemma index_nth {A} (l : list A) (i : Z) (d : A) :
  0 <= i < Z.of_nat (length l) -> Py.index l i = Py.Ok (nth (Z.to_nat i) l d).
Proof.
  intros Hi. unfold Py.index.
  replace (i <? 0) with false by (symmetry; apply Z.ltb_ge; lia).
  replace (0 <=? i) with true by (symmetry; apply Z.leb_le; lia).
  replace (i <? Z.of_nat (length l)) with true by (symmetry; apply Z.ltb_lt; lia).
  cbn [andb]. destruct (nth_error l (Z.to_nat i)) as [a|] eqn:Hn.
  - now rewrite (nth_error_nth _ _ _ Hn).
  - apply nth_error_None in Hn. lia.
Qed.

Lemma symbols_chr_ok (n : Z) :
  0 <= n < 1114112 -> Sympy.symbol_name n = true ->
  Sympy.symbols_chr n = Py.Ok (Sympy.Symbol n).
Proof.
  intros Hn Hname. unfold Sympy.symbols_chr, Py.chr.
  replace (0 <=? n) with true by (symmetry; apply Z.leb_le; lia).
  replace (n <? 1114112) with true by (symmetry; apply Z.ltb_lt; lia).
  cbn [andb]. res_steps. now rewrite Hname.
Qed.

Lemma dict_mem_edgedict (edgelist : list Edges.edge) (node : Z) :
  Py.dict_mem (Py.str node) (Edges.edgedict_of edgelist)
  = bool_decide (node ∈ Edges.starts edgelist).
Proof.
  unfold Py.dict_mem. rewrite edgedict_of_entries, dict_get_keyed.
  destruct (decide (node ∈ Edges.starts edgelist)).
  - now rewrite bool_decide_eq_true_2.
  - now rewrite bool_decide_eq_false_2.
Qed.

Lemma starts_valid (edgelist : list Edges.edge) (a : Z) :
  Edges.valid_nodes edgelist -> a ∈ Edges.starts edgelist -> 0 <= a < 1114047.
Proof.
  intros Hv Ha. apply starts_elem in Ha as [b Hb].
  unfold Edges.valid_nodes in Hv. rewrite Forall_forall in Hv.
  exact (Hv _ Hb).
Qed.

Lemma starts_named (edgelist : list Edges.edge) (a : Z) :
  sympycfg2.symbol_names edgelist -> a ∈ Edges.starts edgelist ->
  Sympy.symbol_name (a + 65) = true.
Proof.
  intros Hn Ha. apply starts_elem in Ha as [b Hb].
  unfold sympycfg2.symbol_names in Hn. rewrite Forall_forall in Hn.
  exact (proj1 (Hn _ Hb)).
Qed.

Lemma starts_well_formed (edgelist : list Edges.edge) (recurlist : list Z) (a : Z) :
  sympycfg2.well_formed edgelist recurlist -> a ∈ Edges.starts edgelist ->
  0 <= a < 1114047 /\ a < Z.of_nat (length recurlist).
Proof.
  intros (Hv & _ & Hl) Ha. split; [now apply (starts_valid edgelist)|].
  apply starts_elem in Ha as [b Hb]. rewrite Forall_forall in Hl.
  exact (Hl _ Hb).
Qed.

(** A loop whose body always returns is a fold. *)
Lemma for_res_pure {A S} (xs : list A) (body : A -> S -> Py.result S) (f : S -> A -> S)
  (s : S) :
  (forall x s', x ∈ xs -> body x s' = Py.Ok (f s' x)) ->
  Py.for_res xs body s = Py.Ok (fold_left f xs s).
Proof.
  revert s. induction xs as [|x xs IH]; intros s H; [reflexivity|].
  cbn [Py.for_res fold_left]. rewrite (H x s) by left.
  apply IH. intros x' s' Hx'. apply H. now right.
Qed.

(** The loop over the end nodes of the start node [a]. *)
Lemma sympy_inner_loop (edgelist : list Edges.edge) (recurlist : list Z)
  (recurexpr : Sympy.expr) (a : Z) (ends : list Z) :
  Edges.valid_nodes edgelist ->
  sympycfg2.symbol_names edgelist ->
  0 <= a < Z.of_nat (length recurlist) ->
  Py.for_res ends
    (fun node expr =>
       expr ← (if Py.dict_mem (Py.str node) (Edges.edgedict_of edgelist)
               then var ← Sympy.symbols_chr (node + 65);
                    Py.Ok (Sympy.Add expr (Sympy.Mul var Sympy.x))
               else Py.Ok (Sympy.Add expr Sympy.x));
       sn ← Py.int (Py.str a);
       k ← Py.index recurlist sn;
       Py.Ok (Sympy.Mul (Sympy.Pow recurexpr k) expr))
    (Sympy.Integer 0)
  = Py.Ok (sympycfg2.inner_expr edgelist recurexpr (nth (Z.to_nat a) recurlist 0) ends).
Proof.
  intros Hwf Hnames Ha. unfold sympycfg2.inner_expr. apply for_res_pure.
  intros node e _. rewrite dict_mem_edgedict, int_str.
  case_bool_decide as Hin.
  - pose proof (starts_valid _ _ Hwf Hin) as Hr.
    rewrite symbols_chr_ok by (lia || now apply (starts_named edgelist)). res_steps.
    rewrite (index_nth recurlist a 0) by assumption. reflexivity.
  - res_steps. rewrite (index_nth recurlist a 0) by assumption. reflexivity.
Qed.

Lemma for_res_keyed {A B S} (g : A -> B) (ns : list A) (l : list B)
  (body : B -> S -> Py.result S) (f : S -> A -> S) (s : S) :
  l = map g ns ->
  (forall a s', a ∈ ns -> body (g a) s' = Py.Ok (f s' a)) ->
  Py.for_res l body s = Py.Ok (fold_left f ns s).
Proof.
  intros -> H. revert s. induction ns as [|a ns IH]; intros s; [reflexivity|].
  cbn [map Py.for_res fold_left]. rewrite (H a s) by left.
  apply IH. intros a' s' Ha'. apply H. now right.
Qed.

Lemma fold_left_two_lists {A B C} (f : A -> B) (g : A -> C) (l : list A)
  (bs : list B) (cs : list C) :
  fold_left (fun (st : list B * list C) a => (fst st ++ [f a], snd st ++ [g a])) l (bs, cs)
  = (bs ++ map f l, cs ++ map g l).
Proof.
  revert bs cs. induction l as [|a l IH]; intros bs cs; cbn [fold_left map].
  - now rewrite !app_nil_r.
  - rewrite IH. cbn [fst snd]. now rewrite <- !app_assoc.
Qed.

(** Auxiliary form of the next theorem, for use in later proofs. *)
Lemma calculateSystem_Ok (first : Edges.edge) (rest : list Edges.edge)
  (recurlist : list Z) :
  let edgelist := first :: rest in
  let recurexpr := Sympy.Mul (Sympy.Symbol (fst first + 65)) Sympy.x in
  sympycfg2.well_formed edgelist recurlist ->
  sympycfg2.calculateSystem edgelist recurlist
  = Py.Ok (map (fun a => Sympy.Sub
                           (sympycfg2.inner_expr edgelist recurexpr
                              (nth (Z.to_nat a) recurlist 0) (Edges.ends_of a edgelist))
                           (Sympy.Symbol (a + 65)))
               (Edges.starts edgelist),
           map (fun a => Sympy.Symbol (a + 65)) (Edges.starts edgelist)).
Proof.
  intros edgelist recurexpr Hwf. unfold sympycfg2.calculateSystem.
  assert (Py.index edgelist 0 = Py.Ok first) as -> by apply index_head. res_steps.
  assert (0 <= fst first < 1114047) as Hfirst.
  { destruct Hwf as [Hv _]. unfold Edges.valid_nodes in Hv.
    apply Forall_cons in Hv as [H _]. exact H. }
  assert (Sympy.symbol_name (fst first + 65) = true) as Hname.
  { destruct Hwf as (_ & Hn & _). unfold sympycfg2.symbol_names in Hn.
    apply Forall_cons in Hn as [[H _] _]. exact H. }
  rewrite symbols_chr_ok by (lia || exact Hname). res_steps. fold recurexpr.
  erewrite for_res_keyed; [|apply edgedict_of_entries|].
  - rewrite (fold_left_two_lists
               (fun a => Sympy.Sub
                           (sympycfg2.inner_expr edgelist recurexpr
                              (nth (Z.to_nat a) recurlist 0) (Edges.ends_of a edgelist))
                           (Sympy.Symbol (a + 65)))
               (fun a => Sympy.Symbol (a + 65))).
    reflexivity.
  - intros a [sys symbs] Ha. cbn beta iota.
    destruct (starts_well_formed _ _ _ Hwf Ha) as [Hr Hlen].
    rewrite sympy_inner_loop by (apply Hwf || lia).
    rewrite int_str. res_steps.
    rewrite symbols_chr_ok; [|lia|apply (starts_named edgelist); [apply Hwf|exact Ha]].
    res_steps. reflexivity.
Qed.

(** X6.  On a well-formed edge list (start nodes whose characters name
    symbols, each with an entry in [recurlist]) the builder has, when it
    calls the solver, one unknown and one equation per start node, in the
    order of the first edge of each start node; the equation of a start
    node is built from its own end nodes and its own multiplicity. *)
Theorem calculateSystem_well_formed (first : Edges.edge) (rest : list Edges.edge)
  (recurlist : list Z) :
  let edgelist := first :: rest in
  let recurexpr := Sympy.Mul (Sympy.Symbol (fst first + 65)) Sympy.x in
  sympycfg2.well_formed edgelist recurlist ->
  sympycfg2.calculateSystem edgelist recurlist
  = Py.Ok (map (fun a => Sympy.Sub
                           (sympycfg2.inner_expr edgelist recurexpr
                              (nth (Z.to_nat a) recurlist 0) (Edges.ends_of a edgelist))
                           (Sympy.Symbol (a + 65)))
               (Edges.starts edgelist),
           map (fun a => Sympy.Symbol (a + 65)) (Edges.starts edgelist)).
Proof. exact (calculateSystem_Ok first rest recurlist). Qed.

Lemma calculateSystem_well_formed_witness :
  sympycfg2.well_formed [(0, 1); (0, 2); (1, 2)] [0; 1; 0] /\
  exists system,
    sympycfg2.calculateSystem [(0, 1); (0, 2); (1, 2)] [0; 1; 0]
    = Py.Ok (system, [Sympy.Symbol 65; Sympy.Symbol 66]).
Proof.
  assert (sympycfg2.well_formed [(0, 1); (0, 2); (1, 2)] [0; 1; 0]) as Hwf
    by (split; [|split]; repeat constructor; cbn; lia).
  split; [exact Hwf|]. eexists.
  exact (calculateSystem_well_formed (0, 1) [(0, 2); (1, 2)] [0; 1; 0] Hwf).
Defined.

Lemma map_lookup_Some {A B} (f : A -> B) (l : list A) (i : nat) (a : A) :
  l !! i = Some a -> map f l !! i = Some (f a).
Proof.
  revert i. induction l as [|x l IH]; intros [|i] H; try discriminate.
  - injection H as ->. reflexivity.
  - cbn. now apply IH.
Qed.

Lemma fold_left_pointwise {A B} (f g : A -> B -> A) (l : list B) (a : A) :
  (forall a' b, f a' b = g a' b) -> fold_left f l a = fold_left g l a.
Proof.
  intros H. revert a. induction l as [|b l IH]; intros a; [reflexivity|].
  cbn [fold_left]. now rewrite H, IH.
Qed.

Lemma inner_expr_eval (edgelist : list Edges.edge) (r : Sympy.expr) (k : Z) (ends : list Z)
  (rho : Z -> Z) :
  Sympy.eval rho (sympycfg2.inner_expr edgelist r k ends)
  = fold_left (fun v node => Sympy.eval rho r ^ k * (v + sympycfg2.edge_term edgelist rho node))
              ends 0.
Proof.
  unfold sympycfg2.inner_expr.
  enough (forall e0,
            Sympy.eval rho
              (fold_left
                 (fun expr node =>
                    Sympy.Mul (Sympy.Pow r k)
                      (if bool_decide (node ∈ Edges.starts edgelist)
                       then Sympy.Add expr (Sympy.Mul (Sympy.Symbol (node + 65)) Sympy.x)
                       else Sympy.Add expr Sympy.x)) ends e0)
            = fold_left
                (fun v node => Sympy.eval rho r ^ k * (v + sympycfg2.edge_term edgelist rho node))
                ends (Sympy.eval rho e0)) as H by apply (H (Sympy.Integer 0)).
  induction ends as [|node ends IH]; intros e0; [reflexivity|].
  cbn [fold_left]. rewrite IH. f_equal. unfold sympycfg2.edge_term.
  case_bool_decide; reflexivity.
Qed.

Lemma spec_rhs_eval (edgelist : list Edges.edge) (entry k : Z) (ends : list Z) (rho : Z -> Z) :
  Sympy.eval rho
    (sympycfg2.spec_rhs entry
       (map (fun b => (b, bool_decide (b ∈ Edges.starts edgelist))) ends) k)
  = (rho (entry + 65) * rho 120) ^ k
    * fold_left (fun v node => v + sympycfg2.edge_term edgelist rho node) ends 0.
Proof.
  unfold sympycfg2.spec_rhs. cbn [Sympy.eval Sympy.x]. f_equal.
  enough (forall e0,
            Sympy.eval rho
              (fold_left
                 (fun acc (t : Z * bool) =>
                    if snd t then Sympy.Add acc (Sympy.Mul (Sympy.Symbol (fst t + 65)) Sympy.x)
                    else Sympy.Add acc Sympy.x)
                 (map (fun b => (b, bool_decide (b ∈ Edges.starts edgelist))) ends) e0)
            = fold_left (fun v node => v + sympycfg2.edge_term edgelist rho node)
                ends (Sympy.eval rho e0)) as H by apply (H (Sympy.Integer 0)).
  induction ends as [|b ends IH]; intros e0; [reflexivity|].
  cbn [map fold_left fst snd]. rewrite IH. f_equal. unfold sympycfg2.edge_term.
  case_bool_decide; reflexivity.
Qed.

(** X7.  At a start node whose multiplicity [k] is 0, or is positive with
    a single outgoing edge, the equation the builder produces has the
    value of the specified one: the sum over the outgoing edges times
    [(symbol(entry)*x)^k].  (A negative multiplicity is left out: the
    expressions are compared as polynomials.) *)
Theorem calculateSystem_equation_as_specified (first : Edges.edge) (rest : list Edges.edge)
  (recurlist : list Z) (i : nat) (a : Z) :
  let edgelist := first :: rest in
  let k := nth (Z.to_nat a) recurlist 0 in
  sympycfg2.well_formed edgelist recurlist ->
  Edges.starts edgelist !! i = Some a ->
  k = 0 \/ (0 < k /\ length (Edges.ends_of a edgelist) = 1%nat) ->
  exists system symbs e,
    sympycfg2.calculateSystem edgelist recurlist = Py.Ok (system, symbs) /\
    system !! i = Some e /\
    symbs !! i = Some (Sympy.Symbol (a + 65)) /\
    forall rho,
      Sympy.eval rho e
      = Sympy.eval rho
          (Sympy.Sub
             (sympycfg2.spec_rhs (fst first)
                (map (fun b => (b, bool_decide (b ∈ Edges.starts edgelist)))
                     (Edges.ends_of a edgelist)) k)
             (Sympy.Symbol (a + 65))).
Proof.
  intros edgelist k. subst edgelist k. intros Hwf Hi Hcase.
  eexists _, _, _. split; [apply calculateSystem_Ok; exact Hwf|].
  split; [apply map_lookup_Some; exact Hi|].
  split; [apply (map_lookup_Some (fun a => Sympy.Symbol (a + 65))); exact Hi|].
  intros rho. cbn [Sympy.eval]. f_equal.
  rewrite inner_expr_eval, spec_rhs_eval. cbn [Sympy.eval Sympy.x].
  destruct Hcase as [Hk|[_ Hone]].
  - rewrite Hk, !Z.pow_0_r, Z.mul_1_l.
    apply fold_left_pointwise. intros v node. lia.
  - destruct (Edges.ends_of a (first :: rest)) as [|b [|b' ends]]; try discriminate.
    reflexivity.
Qed.

Lemma calculateSystem_equation_as_specified_witness :
  let edgelist := [(0, 1); (0, 2); (1, 2)] in
  sympycfg2.well_formed edgelist [0; 1; 0] /\
  Edges.starts edgelist !! 1%nat = Some 1 /\
  exists system symbs e,
    sympycfg2.calculateSystem edgelist [0; 1; 0] = Py.Ok (system, symbs) /\
    system !! 1%nat = Some e /\
    symbs !! 1%nat = Some (Sympy.Symbol 66) /\
    forall rho,
      Sympy.eval rho e
      = Sympy.eval rho
          (Sympy.Sub (sympycfg2.spec_rhs 0 [(2, false)] 1) (Sympy.Symbol 66)).
Proof.
  intros edgelist.
  assert (sympycfg2.well_formed edgelist [0; 1; 0]) as Hwf
    by (split; [|split]; repeat constructor; cbn; lia).
  assert (Edges.starts edgelist !! 1%nat = Some 1) as Hi by reflexivity.
  split; [exact Hwf|]. split; [exact Hi|].
  exact (calculateSystem_equation_as_specified (0, 1) [(0, 2); (1, 2)] [0; 1; 0] 1 1
           Hwf Hi (or_intror (conj eq_refl eq_refl))).
Defined.

Lemma for_res_keyed_raise {A B S} (g : A -> B) (ns : list A) (l : list B)
  (body : B -> S -> Py.result S) (e : Py.exn) (s : S) :
  l = map g ns ->
  (forall a s', a ∈ ns -> (exists s'', body (g a) s' = Py.Ok s'') \/ body (g a) s' = Py.Raise e) ->
  (exists a, a ∈ ns /\ forall s', body (g a) s' = Py.Raise e) ->
  Py.for_res l body s = Py.Raise e.
Proof.
  intros -> Hall (a & Ha & Hraise). revert s.
  induction ns as [|a0 ns IH]; intros s; [inversion Ha|].
  cbn [map Py.for_res].
  destruct (Hall a0 s) as [[s'' Hok]|Hr]; [left| |now rewrite Hr].
  rewrite Hok. apply elem_of_cons in Ha as [->|Ha].
  - rewrite Hraise in Hok. discriminate.
  - apply IH; [|assumption]. intros a' s' Ha'. apply Hall. now right.
Qed.

Lemma index_beyond {A} (l : list A) (i : Z) :
  Z.of_nat (length l) <= i -> Py.index l i = Py.Raise Py.IndexError.
Proof.
  intros Hi. unfold Py.index.
  replace (i <? 0) with false by (symmetry; apply Z.ltb_ge; lia).
  replace (i <? Z.of_nat (length l)) with false by (symmetry; apply Z.ltb_ge; lia).
  now rewrite andb_false_r.
Qed.

(** X8.  When some start node has no entry in [recurlist] (the list is too
    short for it), the builder fails with IndexError, the characters of
    the start nodes naming symbols. *)
Theorem calculateSystem_recurlist_too_short (edgelist : list Edges.edge) (recurlist : list Z) :
  Edges.valid_nodes edgelist ->
  sympycfg2.symbol_names edgelist ->
  Exists (fun e : Edges.edge => Z.of_nat (length recurlist) <= fst e) edgelist ->
  sympycfg2.calculateSystem edgelist recurlist = Py.Raise Py.IndexError.
Proof.
  intros Hv Hnames Hex. destruct edgelist as [|first rest]; [inversion Hex|].
  unfold sympycfg2.calculateSystem.
  assert (Py.index (first :: rest) 0 = Py.Ok first) as -> by apply index_head. res_steps.
  assert (0 <= fst first < 1114047) as Hfirst.
  { unfold Edges.valid_nodes in Hv. apply Forall_cons in Hv as [H _]. exact H. }
  assert (Sympy.symbol_name (fst first + 65) = true) as Hname.
  { unfold sympycfg2.symbol_names in Hnames. apply Forall_cons in Hnames as [[H _] _]. exact H. }
  rewrite symbols_chr_ok by (lia || exact Hname). res_steps.
  eapply for_res_keyed_raise; [apply edgedict_of_entries| |].
  - intros a [sys symbs] Ha. cbn beta iota.
    pose proof (starts_valid _ _ Hv Ha) as Hr.
    destruct (Z_lt_le_dec a (Z.of_nat (length recurlist))) as [Hlt|Hge].
    + left. rewrite sympy_inner_loop by (assumption || lia).
      rewrite int_str. res_steps.
      rewrite symbols_chr_ok by (lia || now apply (starts_named (first :: rest))).
      res_steps. eauto.
    + right. pose proof (ends_of_start _ _ Ha) as Hne.
      destruct (Edges.ends_of a (first :: rest)) as [|node ends]; [contradiction|].
      cbn [Py.for_res]. rewrite dict_mem_edgedict, !int_str. res_steps.
      rewrite (symbols_chr_ok (a + 65)) by (lia || now apply (starts_named (first :: rest))).
      res_steps.
      rewrite index_beyond by assumption.
      case_bool_decide as Hin; [|reflexivity].
      pose proof (starts_valid _ _ Hv Hin) as Hn.
      rewrite symbols_chr_ok by (lia || now apply (starts_named (first :: rest))). reflexivity.
  - apply Exists_exists in Hex as ([a b] & Hin & Hge). cbn [fst] in Hge.
    assert (a ∈ Edges.starts (first :: rest)) as Ha
      by (apply starts_elem; exists b; exact Hin).
    exists a. split; [exact Ha|]. intros [sys symbs]. cbn beta iota.
    pose proof (starts_valid _ _ Hv Ha) as Hr.
    pose proof (ends_of_start _ _ Ha) as Hne.
    destruct (Edges.ends_of a (first :: rest)) as [|node ends]; [contradiction|].
    cbn [Py.for_res]. rewrite dict_mem_edgedict, !int_str. res_steps.
    rewrite (symbols_chr_ok (a + 65)) by (lia || now apply (starts_named (first :: rest))).
      res_steps.
    rewrite index_beyond by assumption.
    case_bool_decide as Hin'; [|reflexivity].
    pose proof (starts_valid _ _ Hv Hin') as Hn.
    rewrite symbols_chr_ok by (lia || now apply (starts_named (first :: rest))). reflexivity.
Qed.

Lemma calculateSystem_recurlist_too_short_witness :
  sympycfg2.calculateSystem [(0, 1); (1, 2)] [0] = Py.Raise Py.IndexError.
Proof.
  apply calculateSystem_recurlist_too_short.
  - repeat constructor; cbn; lia.
  - repeat constructor; cbn; lia.
  - apply Exists_cons_tl, Exists_cons_hd. cbn. lia.
Defined.

(** ** CFG2CFG.py: the equations as text *)

Lemma dict_get_inj {K V} `{EqDecision K} (key : Z -> K) (f : Z -> V) (l : list Z) (a : Z) :
  (forall n m, key n = key m -> n = m) ->
  Py.dict_get (key a) (map (fun a' => (key a', f a')) l)
  = if decide (a ∈ l) then Some (f a) else None.
Proof.
  intros Hinj. induction l as [|a0 l IH]; cbn.
  - rewrite decide_False; [reflexivity|]. intros H; inversion H.
  - destruct (decide (key a0 = key a)) as [Heq|Hne].
    + apply Hinj in Heq as ->. rewrite decide_True; [reflexivity|left].
    + rewrite IH. destruct (decide (a ∈ l)) as [Hin|Hnin].
      * rewrite decide_True; [reflexivity|now right].
      * rewrite decide_False; [reflexivity|].
        intros H. apply elem_of_cons in H as [->|H]; [now apply Hne|now apply Hnin].
Qed.

Lemma dict_set_inj {K V} `{EqDecision K} (key : Z -> K) (f : Z -> V) (l : list Z) (a : Z)
  (v : V) :
  (forall n m, key n = key m -> n = m) ->
  NoDup l -> a ∈ l ->
  Py.dict_set (key a) v (map (fun a' => (key a', f a')) l)
  = map (fun a' => (key a', if decide (a' = a) then v else f a')) l.
Proof.
  intros Hinj. induction l as [|a0 l IH]; intros Hnd Hin; [inversion Hin|].
  apply NoDup_cons in Hnd as [Ha0 Hnd]. cbn.
  destruct (decide (key a0 = key a)) as [Heq|Hne].
  - apply Hinj in Heq as ->. rewrite decide_True by reflexivity. f_equal.
    apply map_ext_in. intros a' Ha'. apply list_elem_of_In in Ha'.
    rewrite decide_False; [reflexivity|]. now intros ->.
  - rewrite decide_False by (intros ->; now apply Hne). f_equal.
    apply IH; [assumption|]. apply elem_of_cons in Hin as [->|Hin]; [now destruct Hne|assumption].
Qed.

(** Storing one value per node of a duplicate-free list, into an empty
    dictionary, lists the nodes in order. *)
Lemma fold_dict_set_fresh {K V} `{EqDecision K} (key : Z -> K) (f : Z -> V) (l : list Z) :
  (forall n m, key n = key m -> n = m) ->
  NoDup l ->
  fold_left (fun d a => Py.dict_set (key a) (f a) d) l [] = map (fun a => (key a, f a)) l.
Proof.
  intros Hinj Hnd. induction l as [|a l IH] using rev_ind; [reflexivity|].
  apply NoDup_app in Hnd as (Hnd & Hdisj & _).
  rewrite fold_left_app. cbn [fold_left]. rewrite IH by assumption.
  rewrite dict_set_absent.
  - now rewrite map_app.
  - rewrite dict_get_inj by assumption. rewrite decide_False; [reflexivity|].
    intros Hin. apply (Hdisj a Hin). now left.
Qed.

Lemma letter_inj (n m : Z) : [n + 65] = [m + 65] -> n = m.
Proof. intros [= H]. lia. Qed.

Lemma chr_ok (n : Z) : 0 <= n < 1114112 -> CFG2CFG.chr n = Py.Ok [n].
Proof.
  intros Hn. unfold CFG2CFG.chr, Py.chr.
  replace (0 <=? n) with true by (symmetry; apply Z.leb_le; lia).
  replace (n <? 1114112) with true by (symmetry; apply Z.ltb_lt; lia).
  reflexivity.
Qed.

Lemma join_plus_terms (g : Z -> CFG2CFG.ustr) (node : Z) (ends : list Z) :
  flat_map (fun n => CFG2CFG.lit " + " ++ g n) (node :: ends)
  = CFG2CFG.lit " + " ++ CFG2CFG.join_plus (map g (node :: ends)).
Proof.
  revert node. induction ends as [|n ends IH]; intros node.
  - cbn [flat_map map CFG2CFG.join_plus]. now rewrite app_nil_r.
  - cbn [flat_map map CFG2CFG.join_plus] in *. rewrite IH. now rewrite <- !app_assoc.
Qed.

(** The text built by the loop over the end nodes, with its first three
    characters dropped, is the terms joined by [" + "]. *)
Lemma drop_3_terms (g : Z -> CFG2CFG.ustr) (ends : list Z) :
  drop 3 (fold_left (fun eq node => eq ++ CFG2CFG.lit " + " ++ g node) ends [])
  = CFG2CFG.join_plus (map g ends).
Proof.
  assert (forall acc, fold_left (fun eq node => eq ++ CFG2CFG.lit " + " ++ g node) ends acc
                      = acc ++ flat_map (fun n => CFG2CFG.lit " + " ++ g n) ends) as ->.
  { induction ends as [|n ends IH]; intros acc; cbn [fold_left flat_map].
    - now rewrite app_nil_r.
    - rewrite IH. now rewrite <- !app_assoc. }
  destruct ends as [|node ends]; [reflexivity|].
  rewrite app_nil_l, join_plus_terms. reflexivity.
Qed.

Lemma for_res_app {A S} (xs ys : list A) (body : A -> S -> Py.result S) (s : S) :
  Py.for_res (xs ++ ys) body s
  = match Py.for_res xs body s with
    | Py.Ok s' => Py.for_res ys body s'
    | Py.Raise e => Py.Raise e
    end.
Proof.
  revert s. induction xs as [|x xs IH]; intros s; [reflexivity|].
  cbn [app Py.for_res]. destruct (body x s); [apply IH|reflexivity].
Qed.

Lemma range_succ (n : nat) :
  Py.range (Z.of_nat (S n)) = Py.range (Z.of_nat n) ++ [Z.of_nat n].
Proof.
  unfold Py.range. rewrite !Nat2Z.id, seq_S, map_app. reflexivity.
Qed.

(** The first loop: one entry per start node, the terms of its edges
    joined by [" + "]. *)
Lemma cfg_first_loop (edgelist : list Edges.edge) :
  Edges.valid_nodes edgelist ->
  Py.for_res (Edges.edgedict_of edgelist)
    (fun '(startnode, endnodes) system =>
       eq ← Py.for_res endnodes
              (fun node eq =>
                 if Py.dict_mem (Py.str node) (Edges.edgedict_of edgelist)
                 then c ← CFG2CFG.chr (node + 65);
                      Py.Ok (eq ++ CFG2CFG.lit " + " ++ c ++ CFG2CFG.lit "x")
                 else Py.Ok (eq ++ CFG2CFG.lit " + " ++ CFG2CFG.lit "x"))
              [];
       sn ← Py.int startnode;
       key ← CFG2CFG.chr (sn + 65);
       Py.Ok (Py.dict_set key (drop 3 eq) system))
    []
  = Py.Ok (map (fun a => ([a + 65],
                          CFG2CFG.join_plus
                            (map (CFG2CFG.term edgelist) (Edges.ends_of a edgelist))))
               (Edges.starts edgelist)).
Proof.
  intros Hv.
  erewrite for_res_keyed; [|apply edgedict_of_entries|].
  - rewrite (fold_dict_set_fresh (fun a => [a + 65])
               (fun a => CFG2CFG.join_plus
                           (map (CFG2CFG.term edgelist) (Edges.ends_of a edgelist))));
      [reflexivity|exact letter_inj|apply starts_NoDup].
  - intros a system Ha. cbn beta iota.
    pose proof (starts_valid _ _ Hv Ha) as Hr.
    rewrite (for_res_pure _ _ (fun eq node => eq ++ CFG2CFG.lit " + " ++ CFG2CFG.term edgelist node)).
    + res_steps. rewrite int_str. res_steps. rewrite chr_ok by lia. res_steps.
      now rewrite drop_3_terms.
    + intros node eq _. rewrite dict_mem_edgedict. unfold CFG2CFG.term.
      case_bool_decide as Hin; [|reflexivity].
      pose proof (starts_valid _ _ Hv Hin) as Hn.
      rewrite chr_ok by lia. reflexivity.
Qed.

(** The second loop, over the first [n] indices of [recurlist]: the
    entries of the start nodes below [n] are wrapped according to their
    multiplicity, the others are as the first loop left them. *)
Lemma cfg_recursion_loop (edgelist : list Edges.edge) (recurlist : list Z)
  (firstnode : CFG2CFG.ustr) (body : Z -> CFG2CFG.ustr) (n : nat) :
  Edges.valid_nodes edgelist ->
  (forall i, 0 <= i < Z.of_nat n ->
             0 < nth (Z.to_nat i) recurlist 0 -> i ∈ Edges.starts edgelist) ->
  (n <= length recurlist)%nat ->
  Py.for_res (Py.range (Z.of_nat n))
    (fun i system =>
       k ← Py.index recurlist i;
       if 0 <? k then
         recurnode ← CFG2CFG.chr (i + 65);
         if k =? 1 then
           body ← Py.dict_item recurnode system;
           Py.Ok (Py.dict_set recurnode
                    (firstnode ++ CFG2CFG.lit "x(" ++ body ++ CFG2CFG.lit ")") system)
         else
           let pow := CFG2CFG.lit (Py.str k) in
           body ← Py.dict_item recurnode system;
           Py.Ok (Py.dict_set recurnode
                    (firstnode ++ CFG2CFG.lit "^(" ++ pow ++ CFG2CFG.lit ")x^(" ++ pow
                       ++ CFG2CFG.lit ")(" ++ body ++ CFG2CFG.lit ")")
                    system)
       else Py.Ok system)
    (map (fun a => ([a + 65], body a)) (Edges.starts edgelist))
  = Py.Ok (map (fun a => ([a + 65],
                          if a <? Z.of_nat n
                          then CFG2CFG.wrap firstnode (nth (Z.to_nat a) recurlist 0) (body a)
                          else body a))
               (Edges.starts edgelist)).
Proof.
  intros Hv. induction n as [|n IH]; intros Hrec Hn.
  - cbn [Py.for_res Py.range Z.to_nat Z.of_nat seq map]. f_equal.
    apply map_ext_in. intros a Ha. apply list_elem_of_In in Ha.
    pose proof (starts_valid _ _ Hv Ha) as Hr.
    destruct (a <? _) eqn:Hlt; [apply Z.ltb_lt in Hlt; cbn in Hlt; lia|reflexivity].
  - rewrite range_succ, for_res_app, IH by (try lia; intros i Hi; apply Hrec; lia).
    cbn [Py.for_res].
    rewrite (index_nth recurlist (Z.of_nat n) 0) by lia. res_steps. rewrite Nat2Z.id.
    destruct (0 <? nth n recurlist 0) eqn:Hk.
    + apply Z.ltb_lt in Hk.
      assert (Z.of_nat n ∈ Edges.starts edgelist) as Hin
        by (apply Hrec; [lia|now rewrite Nat2Z.id]).
      pose proof (starts_valid _ _ Hv Hin) as Hr.
      rewrite chr_ok by lia. res_steps.
      assert (Py.dict_item [Z.of_nat n + 65]
                (map (fun a => ([a + 65],
                                if a <? Z.of_nat n
                                then CFG2CFG.wrap firstnode (nth (Z.to_nat a) recurlist 0) (body a)
                                else body a)) (Edges.starts edgelist))
              = Py.Ok (body (Z.of_nat n))) as Hitem.
      { unfold Py.dict_item.
        rewrite (dict_get_inj (fun a => [a + 65])) by exact letter_inj.
        rewrite decide_True by assumption. now rewrite Z.ltb_irrefl. }
      assert (forall v,
                Py.dict_set [Z.of_nat n + 65] v
                  (map (fun a => ([a + 65],
                                  if a <? Z.of_nat n
                                  then CFG2CFG.wrap firstnode (nth (Z.to_nat a) recurlist 0) (body a)
                                  else body a)) (Edges.starts edgelist))
                = map (fun a => ([a + 65],
                                 if decide (a = Z.of_nat n) then v
                                 else if a <? Z.of_nat n
                                      then CFG2CFG.wrap firstnode (nth (Z.to_nat a) recurlist 0)
                                             (body a)
                                      else body a)) (Edges.starts edgelist)) as Hset.
      { intros v. apply (dict_set_inj (fun a => [a + 65])); auto using letter_inj, starts_NoDup. }
      assert (forall v,
                v = CFG2CFG.wrap firstnode (nth n recurlist 0) (body (Z.of_nat n)) ->
                map (fun a => ([a + 65],
                               if decide (a = Z.of_nat n) then v
                               else if a <? Z.of_nat n
                                    then CFG2CFG.wrap firstnode (nth (Z.to_nat a) recurlist 0)
                                           (body a)
                                    else body a)) (Edges.starts edgelist)
                = map (fun a => ([a + 65],
                                 if a <? Z.of_nat (S n)
                                 then CFG2CFG.wrap firstnode (nth (Z.to_nat a) recurlist 0) (body a)
                                 else body a)) (Edges.starts edgelist)) as Hnext.
      { intros v ->. apply map_ext. intros a. f_equal.
        destruct (decide (a = Z.of_nat n)) as [->|Hne].
        - replace (Z.of_nat n <? Z.of_nat (S n)) with true by (symmetry; apply Z.ltb_lt; lia).
          now rewrite Nat2Z.id.
        - destruct (a <? Z.of_nat n) eqn:Hlt.
          + apply Z.ltb_lt in Hlt.
            now replace (a <? Z.of_nat (S n)) with true by (symmetry; apply Z.ltb_lt; lia).
          + apply Z.ltb_ge in Hlt.
            now replace (a <? Z.of_nat (S n)) with false by (symmetry; apply Z.ltb_ge; lia). }
      destruct (nth n recurlist 0 =? 1) eqn:H1;
        (match goal with
         | |- context [Py.dict_item ?k ?m] =>
             replace (Py.dict_item k m) with (Py.Ok (body (Z.of_nat n)))
               by (symmetry; exact Hitem)
         end);
        res_steps; cbv iota zeta; f_equal;
        (etransitivity; [apply Hset|]); apply Hnext; unfold CFG2CFG.wrap;
        (replace (0 <? nth n recurlist 0) with true by (symmetry; apply Z.ltb_lt; lia));
        rewrite H1; reflexivity.
    + f_equal. apply map_ext. intros a. f_equal.
      destruct (a <? Z.of_nat n) eqn:Hlt.
      * apply Z.ltb_lt in Hlt.
        now replace (a <? Z.of_nat (S n)) with true by (symmetry; apply Z.ltb_lt; lia).
      * apply Z.ltb_ge in Hlt. destruct (decide (a = Z.of_nat n)) as [->|Hne].
        -- replace (Z.of_nat n <? Z.of_nat (S n)) with true by (symmetry; apply Z.ltb_lt; lia).
           unfold CFG2CFG.wrap. now rewrite Nat2Z.id, Hk.
        -- now replace (a <? Z.of_nat (S n)) with false by (symmetry; apply Z.ltb_ge; lia).
Qed.

(** X9.  On an edge list with valid start nodes and recursion marked at start
    nodes only, the text builder returns one entry per start node, in the
    order of the first edge of each: the terms of its edges joined by
    [" + "], wrapped once, as a whole, in the factor of the entry node when
    its multiplicity is positive.  No bound on the length of [recurlist]
    is needed. *)
Theorem calculateSystem_text (first : Edges.edge) (rest : list Edges.edge)
  (recurlist : list Z) :
  let edgelist := first :: rest in
  Edges.valid_nodes edgelist ->
  CFG2CFG.recursion_at_starts edgelist recurlist ->
  CFG2CFG.calculateSystem edgelist recurlist
  = Py.Ok (map (fun a => ([a + 65],
                          CFG2CFG.wrap [fst first + 65] (nth (Z.to_nat a) recurlist 0)
                            (CFG2CFG.join_plus
                               (map (CFG2CFG.term edgelist) (Edges.ends_of a edgelist)))))
               (Edges.starts edgelist)).
Proof.
  intros edgelist Hv Hrec. unfold CFG2CFG.calculateSystem.
  pose proof (cfg_first_loop edgelist Hv) as H1.
  match goal with
  | |- context [Py.for_res (Edges.edgedict_of edgelist) ?b ?s] =>
      replace (Py.for_res (Edges.edgedict_of edgelist) b s)
        with (Py.Ok (map (fun a => ([a + 65],
                                    CFG2CFG.join_plus
                                      (map (CFG2CFG.term edgelist) (Edges.ends_of a edgelist))))
                         (Edges.starts edgelist)))
        by (symmetry; exact H1)
  end.
  res_steps.
  assert (Py.index edgelist 0 = Py.Ok first) as -> by apply index_head. res_steps.
  assert (0 <= fst first < 1114047) as Hfirst.
  { unfold Edges.valid_nodes in Hv. apply Forall_cons in Hv as [H _]. exact H. }
  rewrite chr_ok by lia. res_steps.
  etransitivity;
    [apply (cfg_recursion_loop edgelist recurlist [fst first + 65]
              (fun a => CFG2CFG.join_plus
                          (map (CFG2CFG.term edgelist) (Edges.ends_of a edgelist)))
              (length recurlist) Hv Hrec); lia|].
  f_equal. apply map_ext. intros a. f_equal.
  destruct (a <? Z.of_nat (length recurlist)) eqn:Hlt; [reflexivity|].
  apply Z.ltb_ge in Hlt. rewrite nth_overflow by lia. reflexivity.
Qed.

Lemma calculateSystem_text_witness :
  Edges.valid_nodes [(0, 1); (0, 2); (1, 2)] /\
  CFG2CFG.recursion_at_starts [(0, 1); (0, 2); (1, 2)] [2] /\
  CFG2CFG.calculateSystem [(0, 1); (0, 2); (1, 2)] [2]
  = Py.Ok [(CFG2CFG.lit "A", CFG2CFG.lit "A^(2)x^(2)(Bx + x)");
           (CFG2CFG.lit "B", CFG2CFG.lit "x")].
Proof.
  assert (Edges.valid_nodes [(0, 1); (0, 2); (1, 2)]) as Hv
    by (repeat constructor; cbn; lia).
  assert (CFG2CFG.recursion_at_starts [(0, 1); (0, 2); (1, 2)] [2]) as Hrec.
  { intros i Hi _. cbn in Hi. assert (i = 0) as -> by lia. vm_compute. left. }
  split; [exact Hv|]. split; [exact Hrec|].
  exact (calculateSystem_text (0, 1) [(0, 2); (1, 2)] [2] Hv Hrec).
Defined.

Lemma range_split (i n : nat) :
  (i < n)%nat ->
  exists post, Py.range (Z.of_nat n) = Py.range (Z.of_nat i) ++ Z.of_nat i :: post.
Proof.
  intros Hi. unfold Py.range. rewrite !Nat2Z.id.
  replace n with (i + S (n - S i))%nat by lia.
  rewrite seq_app, map_app. cbn [seq map plus]. eauto.
Qed.

(** X10.  Recursion marked at a node that has no outgoing edge makes the text
    builder fail with KeyError: the node has no entry to wrap. *)
Theorem calculateSystem_recursion_at_terminal (first : Edges.edge) (rest : list Edges.edge)
  (recurlist : list Z) (i : nat) :
  let edgelist := first :: rest in
  Edges.valid_nodes edgelist ->
  (i < length recurlist)%nat ->
  0 < nth i recurlist 0 ->
  Z.of_nat i ∉ Edges.starts edgelist ->
  Z.of_nat i < 1114047 ->
  (forall j, 0 <= j < Z.of_nat i ->
             0 < nth (Z.to_nat j) recurlist 0 -> j ∈ Edges.starts edgelist) ->
  CFG2CFG.calculateSystem edgelist recurlist = Py.Raise Py.KeyError.
Proof.
  intros edgelist Hv Hi Hk Hnot Hchr Hbefore. unfold CFG2CFG.calculateSystem.
  pose proof (cfg_first_loop edgelist Hv) as H1.
  match goal with
  | |- context [Py.for_res (Edges.edgedict_of edgelist) ?b ?s] =>
      replace (Py.for_res (Edges.edgedict_of edgelist) b s)
        with (Py.Ok (map (fun a => ([a + 65],
                                    CFG2CFG.join_plus
                                      (map (CFG2CFG.term edgelist) (Edges.ends_of a edgelist))))
                         (Edges.starts edgelist)))
        by (symmetry; exact H1)
  end.
  res_steps.
  assert (Py.index edgelist 0 = Py.Ok first) as -> by apply index_head. res_steps.
  assert (0 <= fst first < 1114047) as Hfirst.
  { unfold Edges.valid_nodes in Hv. apply Forall_cons in Hv as [H _]. exact H. }
  rewrite chr_ok by lia. res_steps.
  destruct (range_split i (length recurlist) Hi) as [post ->].
  rewrite for_res_app.
  pose proof (cfg_recursion_loop edgelist recurlist [fst first + 65]
                (fun a => CFG2CFG.join_plus
                            (map (CFG2CFG.term edgelist) (Edges.ends_of a edgelist)))
                i Hv Hbefore (Nat.lt_le_incl _ _ Hi)) as Hloop.
  match goal with
  | |- context [Py.for_res (Py.range (Z.of_nat i)) ?b ?s] =>
      replace (Py.for_res (Py.range (Z.of_nat i)) b s) with
        (Py.Ok (map (fun a => ([a + 65],
                          if a <? Z.of_nat i
                          then CFG2CFG.wrap [fst first + 65] (nth (Z.to_nat a) recurlist 0)
                                 (CFG2CFG.join_plus
                                    (map (CFG2CFG.term edgelist) (Edges.ends_of a edgelist)))
                          else CFG2CFG.join_plus
                                 (map (CFG2CFG.term edgelist) (Edges.ends_of a edgelist))))
               (Edges.starts edgelist)))
        by (symmetry; exact Hloop)
  end.
  cbn [Py.for_res]. rewrite (index_nth recurlist (Z.of_nat i) 0) by lia. res_steps.
  rewrite Nat2Z.id. replace (0 <? nth i recurlist 0) with true by (symmetry; apply Z.ltb_lt; lia).
  rewrite chr_ok by lia. res_steps. unfold CFG2CFG.ustr in *.
  match goal with
  | |- context [Py.dict_item ?k ?m] =>
      assert (Py.dict_item k m = Py.Raise Py.KeyError) as Hitem
  end.
  { unfold Py.dict_item.
    match goal with
    | |- context [Py.dict_get ?k ?m] =>
        assert (Py.dict_get k m = None) as ->; [|reflexivity]
    end.
    etransitivity; [apply (dict_get_inj (fun a => [a + 65])); exact letter_inj|].
    now rewrite decide_False. }
  destruct (nth i recurlist 0 =? 1); cbv zeta; rewrite Hitem; reflexivity.
Qed.

Lemma calculateSystem_recursion_at_terminal_witness :
  CFG2CFG.calculateSystem [(0, 1); (0, 2)] [0; 1; 0] = Py.Raise Py.KeyError.
Proof.
  apply (calculateSystem_recursion_at_terminal (0, 1) [(0, 2)] [0; 1; 0] 1).
  - repeat constructor; cbn; lia.
  - cbn. lia.
  - cbn. lia.
  - vm_compute. intros H. apply list_elem_of_singleton in H. discriminate H.
  - lia.
  - intros j Hj Hpos. assert (j = 0) as -> by (cbn in Hj; lia).
    vm_compute in Hpos. discriminate Hpos.
Defined.

(** ** recursion.py: [recursion] *)

Example recursion_6 : recursion.recursion 6 6 = Some (Py.Ok [1; 1; 2; 5; 14; 42]).
Proof. vm_compute. reflexivity. Qed.

Lemma composition_entries_bounded (c : list Z) :
  Forall (fun z => 0 <= z) c -> Forall (fun z => 0 <= z <= recursion.total c) c.
Proof.
  induction 1 as [|z c Hz Hc IH]; [constructor|].
  assert (0 <= recursion.total c) as Htot.
  { clear -Hc. induction Hc; unfold recursion.total in *; cbn; lia. }
  unfold recursion.total in *. cbn [fold_right]. constructor; [lia|].
  eapply Forall_impl; [exact IH|]. cbn. intros; lia.
Qed.

(** The product loop over one composition stays in bounds and keeps the
    product at least 1. *)
Lemma product_loop (vals c : list Z) (val : Z) :
  Forall (fun v => 1 <= v) vals ->
  Forall (fun e => 0 <= e < Z.of_nat (length vals)) c ->
  1 <= val ->
  exists p,
    Py.for_res c (fun entry val => v ← Py.index vals entry; Py.Ok (val * v)) val = Py.Ok p /\
    1 <= p.
Proof.
  intros Hvals Hc. revert val. induction Hc as [|e c He _ IH]; intros val Hval.
  - exists val. split; [reflexivity|assumption].
  - cbn [Py.for_res]. rewrite (index_nth vals e 0) by assumption. res_steps.
    apply IH. rewrite Forall_forall in Hvals.
    assert (1 <= nth (Z.to_nat e) vals 0) as Hn.
    { apply Hvals. apply list_elem_of_In, nth_In. lia. }
    nia.
Qed.

Lemma sum_loop (vals : list Z) (allLists : list (list Z)) (sum : Z) :
  Forall (fun v => 1 <= v) vals ->
  Forall (Forall (fun e => 0 <= e < Z.of_nat (length vals))) allLists ->
  exists total,
    Py.for_res allLists
      (fun list sum =>
         val ← Py.for_res list (fun entry val => v ← Py.index vals entry; Py.Ok (val * v)) 1;
         Py.Ok (sum + val))
      sum = Py.Ok total /\
    sum + Z.of_nat (length allLists) <= total.
Proof.
  intros Hvals Hall. revert sum. induction Hall as [|c l Hc _ IH]; intros sum.
  - exists sum. split; [reflexivity|cbn; lia].
  - cbn [Py.for_res].
    destruct (product_loop vals c 1 Hvals Hc) as (p & -> & Hp); [lia|]. res_steps.
    destruct (IH (sum + p)) as (total & -> & Htot). exists total.
    split; [reflexivity|]. cbn [length]. lia.
Qed.

(** One iteration of the loop of [recursion] on a list [vals] of [loop]
    values that are all at least 1. *)
Lemma recursion_step (fuel : nat) (vals : list Z) :
  (length vals <= fuel)%nat ->
  Forall (fun v => 1 <= v) vals ->
  let loop := Z.of_nat (length vals) in
  exists v,
    1 <= v /\
    (if loop =? 0 then Some (Py.Ok (vals ++ [1]))
     else
       match Py.for_opt (Py.range loop)
               (fun j allLists =>
                  let numloops := j + 1 in
                  let points := loop - numloops in
                  match recursion.recurlists fuel numloops points with
                  | Some l => Some (allLists ++ l)
                  | None => None
                  end)
               []
       with
       | None => None
       | Some allLists =>
           Some (sum ← Py.for_res allLists
                         (fun list sum =>
                            val ← Py.for_res list
                                    (fun entry val =>
                                       v ← Py.index vals entry;
                                       Py.Ok (val * v))
                                    1;
                            Py.Ok (sum + val))
                         0;
                 Py.Ok (vals ++ [sum]))
       end) = Some (Py.Ok (vals ++ [v])).
Proof.
  intros Hfuel Hvals loop. destruct (loop =? 0) eqn:H0; [exists 1; split; [lia|reflexivity]|].
  apply Z.eqb_neq in H0.
  rewrite (for_opt_flat _
             (fun j => recursion.compositions (Z.to_nat j) (loop - (j + 1)))).
  2:{ intros j l Hj. apply range_elem in Hj. cbv zeta.
      replace (j + 1) with (Z.of_nat (S (Z.to_nat j))) by lia.
      rewrite recurlists_compositions by lia. reflexivity. }
  cbn [app].
  destruct (sum_loop vals
              (flat_map (fun j => recursion.compositions (Z.to_nat j) (loop - (j + 1)))
                        (Py.range loop)) 0 Hvals) as (total & -> & Htot).
  - apply Forall_forall. intros c Hc. apply list_elem_of_In, in_flat_map in Hc as (j & Hj & Hc).
    apply range_elem in Hj. apply compositions_elem in Hc as (_ & Hnn & Hsum); [|lia].
    apply composition_entries_bounded in Hnn. rewrite Hsum in Hnn.
    eapply Forall_impl; [exact Hnn|]. cbn. intros e He. fold loop. lia.
  - exists total. split; [|reflexivity].
    assert (flat_map (fun j => recursion.compositions (Z.to_nat j) (loop - (j + 1)))
                     (Py.range loop) <> []) as Hne.
    { assert (In 0 (Py.range loop)) as H0' by (apply range_elem; lia).
      intros Hnil.
      assert (In [loop - (0 + 1)]
                (flat_map (fun j => recursion.compositions (Z.to_nat j) (loop - (j + 1)))
                          (Py.range loop))) as Hin
        by (apply in_flat_map; exists 0; split; [exact H0'|left; reflexivity]).
      rewrite Hnil in Hin. inversion Hin. }
    destruct (flat_map _ (Py.range loop)); [contradiction|]. cbn [length] in Htot. lia.
Qed.

Lemma for_or_app {A S} (xs ys : list A) (body : A -> S -> option (Py.result S)) (s : S) :
  Py.for_or (xs ++ ys) body s
  = match Py.for_or xs body s with
    | Some (Py.Ok s') => Py.for_or ys body s'
    | other => other
    end.
Proof.
  revert s. induction xs as [|x xs IH]; intros s; [reflexivity|].
  cbn [app Py.for_or]. destruct (body x s) as [[s'|e]|]; [apply IH|reflexivity|reflexivity].
Qed.

(** X11.  [recursion(num)] never raises: every index [vals[entry]] is in
    bounds.  It returns [num] values, all at least 1 (the first is 1),
    given recursion depth [num] for [recurlists]. *)
Theorem recursion_returns (num : Z) (fuel : nat) :
  (Z.to_nat num <= fuel)%nat ->
  exists vals,
    recursion.recursion fuel num = Some (Py.Ok vals) /\
    length vals = Z.to_nat num /\
    Forall (fun v => 1 <= v) vals /\
    (0 < num -> nth 0 vals 0 = 1).
Proof.
  unfold recursion.recursion. unfold Py.range at 1.
  assert (0 < num -> (0 < Z.to_nat num)%nat) as Hn by lia. revert Hn.
  generalize (Z.to_nat num) as n. intros n Hn Hfuel.
  enough (exists vals,
            Py.for_or (map Z.of_nat (seq 0 n))
              (fun loop vals =>
                 if loop =? 0 then Some (Py.Ok (vals ++ [1]))
                 else
                   match Py.for_opt (Py.range loop)
                           (fun j allLists =>
                              let numloops := j + 1 in
                              let points := loop - numloops in
                              match recursion.recurlists fuel numloops points with
                              | Some l => Some (allLists ++ l)
                              | None => None
                              end)
                           []
                   with
                   | None => None
                   | Some allLists =>
                       Some (sum ← Py.for_res allLists
                                     (fun list sum =>
                                        val ← Py.for_res list
                                                (fun entry val =>
                                                   v ← Py.index vals entry;
                                                   Py.Ok (val * v))
                                                1;
                                        Py.Ok (sum + val))
                                     0;
                             Py.Ok (vals ++ [sum]))
                   end)
              [] = Some (Py.Ok vals) /\
            length vals = n /\
            Forall (fun v => 1 <= v) vals /\
            ((0 < n)%nat -> nth 0 vals 0 = 1)) as (vals & H1 & H2 & H3 & H4).
  { exists vals. split; [exact H1|]. split; [exact H2|]. split; [exact H3|].
    intros Hnum. apply H4, Hn, Hnum. }
  clear Hn.
  induction n as [|n IH].
  - exists []. cbn. repeat split; [constructor|lia].
  - destruct IH as (vals & Hrun & Hlen & Hpos & Hfirst); [lia|].
    rewrite seq_S, map_app, for_or_app, Hrun. cbn [map seq Py.for_or plus].
    destruct (recursion_step fuel vals) as (v & Hv & Hstep); [lia|assumption|].
    rewrite Hlen in Hstep. cbv zeta in Hstep. cbv zeta. rewrite Hstep.
    exists (vals ++ [v]). split; [reflexivity|]. split; [rewrite length_app; cbn; lia|].
    split; [apply Forall_app; split; [assumption|repeat constructor; assumption]|].
    intros _. destruct n as [|n].
    + destruct vals; [|discriminate]. cbn in Hstep. injection Hstep as <-. reflexivity.
    + rewrite app_nth1 by lia. apply Hfirst. lia.
Qed.

Lemma recursion_returns_witness :
  (Z.to_nat 6 <= 6)%nat /\
  exists vals,
    recursion.recursion 6 6 = Some (Py.Ok vals) /\
    length vals = Z.to_nat 6 /\
    Forall (fun v => 1 <= v) vals /\
    (0 < 6 -> nth 0 vals 0 = 1).
Proof.
  assert (Z.to_nat 6 <= 6)%nat as H by (cbn; lia).
  split; [exact H|]. exact (recursion_returns 6 6 H).
Defined.

(** ** recursion2.py: the language of a grammar *)

Lemma for_opt_invariant {A S} (P : S -> Prop) (xs : list A) (body : A -> S -> option S)
  (s r : S) :
  P s ->
  (forall x s0 s1, x ∈ xs -> body x s0 = Some s1 -> P s0 -> P s1) ->
  Py.for_opt xs body s = Some r -> P r.
Proof.
  revert s. induction xs as [|x xs IH]; intros s Hs Hstep Hrun; cbn in Hrun.
  - now injection Hrun as <-.
  - destruct (body x s) as [s1|] eqn:Hb; [|discriminate].
    apply (IH s1); [eapply Hstep; eauto; left| |exact Hrun].
    intros x' s0 s2 Hx'. apply Hstep. now right.
Qed.

Lemma for_opt_mono {A S} (xs : list A) (body1 body2 : A -> S -> option S) (s r : S) :
  (forall x s0 s1, body1 x s0 = Some s1 -> body2 x s0 = Some s1) ->
  Py.for_opt xs body1 s = Some r -> Py.for_opt xs body2 s = Some r.
Proof.
  intros H. revert s. induction xs as [|x xs IH]; intros s Hrun; cbn in *; [exact Hrun|].
  destruct (body1 x s) as [s1|] eqn:Hb; [|discriminate].
  rewrite (H _ _ _ Hb). now apply IH.
Qed.

(** [done] holds exactly when no character of the string is a key. *)
Lemma done_fold (dict : gmap string string) (cs : list string) (b : bool) :
  fold_left (fun done char => if decide (is_Some (dict !! char)) then false else done) cs b
  = b && forallb (fun char => bool_decide (dict !! char = None)) cs.
Proof.
  revert b. induction cs as [|c cs IH]; intros b; cbn [fold_left forallb].
  - now rewrite andb_true_r.
  - rewrite IH. destruct (dict !! c) as [v|] eqn:Hc.
    + rewrite decide_True by eauto. rewrite bool_decide_eq_false_2 by discriminate.
      cbn. now rewrite andb_false_r.
    + rewrite decide_False by (intros [v Hv]; discriminate).
      now rewrite bool_decide_eq_true_2.
Qed.

Lemma done_no_key (dict : gmap string string) (s : string) :
  recursion2.done dict s = true <-> Forall (fun char => dict !! char = None) (PyStr.chars s).
Proof.
  unfold recursion2.done. rewrite done_fold. cbn [andb].
  rewrite forallb_forall, Forall_forall. split; intros H x Hx.
  - apply list_elem_of_In in Hx. specialize (H x Hx). now apply bool_decide_eq_true in H.
  - apply list_elem_of_In in Hx. apply bool_decide_eq_true. now apply H.
Qed.

Lemma chars_concat (cs : list ascii) (pre : string) :
  fold_left (fun acc c => String.append acc c) (map PyStr.char_str cs) pre
  = String.append pre (string_of_list_ascii cs).
Proof.
  revert pre. induction cs as [|c cs IH]; intros pre; cbn [map fold_left string_of_list_ascii].
  - now rewrite append_empty_r.
  - rewrite IH. apply append_char_assoc.
Qed.

(** X12.  A string with no rule character is rewritten to itself only. *)
Theorem getNextStrings_terminal (dict : gmap string string) (current : string) :
  recursion2.done dict current = true ->
  recursion2.getNextStrings dict current = [current].
Proof.
  intros Hdone. apply done_no_key in Hdone. unfold recursion2.getNextStrings, PyStr.chars in *.
  enough (forall pre,
            fold_left
              (fun returnlist char =>
                 match dict !! char with
                 | Some rule =>
                     let options := PyStr.split "|" rule in
                     fold_left
                       (fun tempList option =>
                          fold_left (fun tempList str => tempList ++ [String.append str option])
                                    returnlist tempList)
                       options []
                 | None =>
                     fold_left (fun tempList str => tempList ++ [String.append str char])
                               returnlist []
                 end)
              (map PyStr.char_str (list_ascii_of_string current)) [pre]
            = [String.append pre (string_of_list_ascii (list_ascii_of_string current))]) as H.
  { rewrite H, string_of_list_ascii_of_string. reflexivity. }
  induction (list_ascii_of_string current) as [|c cs IH]; intros pre; cbn [map fold_left].
  - cbn [string_of_list_ascii]. now rewrite append_empty_r.
  - cbn [map] in Hdone. apply Forall_cons in Hdone as [Hc Hcs].
    rewrite Hc. cbn [fold_left app]. rewrite (IH Hcs).
    cbn [string_of_list_ascii]. now rewrite append_char_assoc.
Qed.

Lemma getNextStrings_terminal_witness :
  recursion2.done recursion2.module_dict "1214" = true /\
  recursion2.getNextStrings recursion2.module_dict "1214" = ["1214"%string].
Proof.
  assert (recursion2.done recursion2.module_dict "1214" = true) as H
    by (vm_compute; reflexivity).
  split; [exact H|]. exact (getNextStrings_terminal _ _ H).
Defined.

(** X13.  Every string [getLang] returns is terminal: none of its characters is
    a key of the rule dictionary. *)
Theorem getLang_terminal (fuel : nat) (num : Z) (dict : gmap string string)
  (current : string) (lang : list string) :
  recursion2.getLang fuel num dict current = Some lang ->
  Forall (fun s => recursion2.done dict s = true) lang.
Proof.
  revert current lang. induction fuel as [|fuel IH]; intros current lang Hrun; [discriminate|].
  cbn [recursion2.getLang] in Hrun.
  destruct (recursion2.done dict current) eqn:Hdone.
  - injection Hrun as <-. repeat constructor. exact Hdone.
  - destruct (PyStr.len current <=? num); [|injection Hrun as <-; constructor].
    eapply (for_opt_invariant (Forall (fun s => recursion2.done dict s = true)));
      [constructor| |exact Hrun].
    intros str acc acc' _ Hbody Hacc. cbn beta in Hbody.
    destruct (recursion2.getLang fuel num dict str) as [r|] eqn:Hr; [|discriminate].
    injection Hbody as <-. apply Forall_app. split; [assumption|now apply (IH str)].
Qed.

Lemma getLang_terminal_witness :
  recursion2.getLang 6 7 recursion2.module_dict "x" = Some ["1214314"; "14"]%string /\
  Forall (fun s => recursion2.done recursion2.module_dict s = true) ["1214314"; "14"]%string.
Proof.
  assert (recursion2.getLang 6 7 recursion2.module_dict "x" = Some ["1214314"; "14"]%string)
    as H by (vm_compute; reflexivity).
  split; [exact H|]. exact (getLang_terminal _ _ _ _ _ H).
Defined.

Lemma getLang_S (fuel : nat) (num : Z) (dict : gmap string string) (current : string) :
  recursion2.getLang (S fuel) num dict current
  = if recursion2.done dict current then Some [current]
    else if PyStr.len current <=? num then
      Py.for_opt (recursion2.getNextStrings dict current)
        (fun str returnlist =>
           match recursion2.getLang fuel num dict str with
           | Some r => Some (returnlist ++ r)
           | None => None
           end)
        []
    else Some [].
Proof. reflexivity. Qed.

(** More recursion depth does not change a result [getLang] has reached. *)
Theorem getLang_fuel_monotone (fuel : nat) (num : Z) (dict : gmap string string)
  (current : string) (lang : list string) :
  recursion2.getLang fuel num dict current = Some lang ->
  recursion2.getLang (S fuel) num dict current = Some lang.
Proof.
  revert current lang. induction fuel as [|fuel IH]; intros current lang Hrun; [discriminate|].
  rewrite getLang_S in Hrun. rewrite getLang_S.
  destruct (recursion2.done dict current); [exact Hrun|].
  destruct (PyStr.len current <=? num); [|exact Hrun].
  eapply for_opt_mono; [|exact Hrun].
  intros str acc acc' Hbody. cbn beta in *.
  destruct (recursion2.getLang fuel num dict str) as [r|] eqn:Hr; [|discriminate].
  now rewrite (IH _ _ Hr).
Qed.

Lemma getLang_fuel_monotone_witness :
  recursion2.getLang 6 7 recursion2.module_dict "x" = Some ["1214314"; "14"]%string /\
  recursion2.getLang 7 7 recursion2.module_dict "x" = Some ["1214314"; "14"]%string.
Proof.
  assert (recursion2.getLang 6 7 recursion2.module_dict "x" = Some ["1214314"; "14"]%string)
    as H by (vm_compute; reflexivity).
  split; [exact H|]. exact (getLang_fuel_monotone _ _ _ _ _ H).
Defined.

(** ** recursion2.py: [recursion], the histogram of lengths *)

Lemma incr_at_in_bounds (l : list Z) (i : Z) :
  0 <= i < Z.of_nat (length l) ->
  exists l',
    recursion2.incr_at l i = Py.Ok l' /\
    length l' = length l /\
    forall j, nth j l' 0 = nth j l 0 + (if decide (j = Z.to_nat i) then 1 else 0).
Proof.
  intros Hi. unfold recursion2.incr_at. rewrite (index_nth l i 0) by assumption. res_steps.
  eexists. split; [reflexivity|]. split; [apply length_insert|].
  intros j. rewrite !nth_lookup, list_lookup_insert.
  destruct (decide (j = Z.to_nat i)) as [->|Hne].
  - rewrite decide_True by (split; [reflexivity|lia]). reflexivity.
  - rewrite decide_False by (intros [? _]; congruence). lia.
Qed.

Lemma histogram_loop (lang : list string) (rl : list Z) :
  Forall (fun s => PyStr.len s < Z.of_nat (length rl)) lang ->
  exists hist,
    Py.for_res lang (fun str returnlist => recursion2.incr_at returnlist (PyStr.len str)) rl
    = Py.Ok hist /\
    length hist = length rl /\
    forall j, nth j hist 0
              = nth j rl 0 + Z.of_nat (length (filter (fun s => String.length s = j) lang)).
Proof.
  intros Hall. revert rl Hall. induction lang as [|s lang IH]; intros rl Hall.
  - exists rl. split; [reflexivity|]. split; [reflexivity|]. intros j. cbn. lia.
  - apply Forall_cons in Hall as [Hs Hall]. cbn [Py.for_res].
    destruct (incr_at_in_bounds rl (PyStr.len s)) as (rl' & -> & Hlen & Hnth).
    { unfold PyStr.len in *. lia. }
    destruct (IH rl') as (hist & Hrun & Hlen' & Hnth'); [now rewrite Hlen|].
    exists hist. split; [exact Hrun|]. split; [congruence|].
    intros j. rewrite Hnth', Hnth, filter_cons. unfold PyStr.len. rewrite Nat2Z.id.
    destruct (decide (String.length s = j)) as [->|Hne].
    + rewrite decide_True by reflexivity. cbn [length]. lia.
    + rewrite decide_False by congruence. lia.
Qed.

(** X14.  When every string of the language is at most [num] long,
    [recursion] returns the histogram of their lengths: a list of
    [num + 1] counts whose entry [j] is the number of strings of length
    [j]. *)
Theorem recursion_histogram (fuel : nat) (num : Z) (dict : gmap string string)
  (start : string) (lang : list string) :
  recursion2.getLang fuel num dict start = Some lang ->
  Forall (fun s => PyStr.len s <= num) lang ->
  exists hist,
    recursion2.recursion fuel num dict start = Some (Py.Ok hist) /\
    length hist = Z.to_nat (num + 1) /\
    forall j, nth j hist 0
              = Z.of_nat (length (filter (fun s => String.length s = j) lang)).
Proof.
  intros Hlang Hbound. unfold recursion2.recursion. rewrite Hlang.
  destruct (histogram_loop lang (recursion2.zeros (num + 1))) as (hist & -> & Hlen & Hnth).
  - eapply Forall_impl; [exact Hbound|]. cbn. intros s Hs.
    unfold recursion2.zeros. rewrite repeat_length. unfold PyStr.len in *. lia.
  - exists hist. split; [reflexivity|].
    split; [rewrite Hlen; unfold recursion2.zeros; apply repeat_length|].
    intros j. rewrite Hnth. unfold recursion2.zeros.
    rewrite nth_repeat. lia.
Qed.

Lemma recursion_histogram_witness :
  let lang := ["1214314"; "14"]%string in
  recursion2.getLang 6 7 recursion2.module_dict "x" = Some lang /\
  Forall (fun s => PyStr.len s <= 7) lang /\
  exists hist,
    recursion2.recursion 6 7 recursion2.module_dict "x" = Some (Py.Ok hist) /\
    length hist = Z.to_nat (7 + 1) /\
    forall j, nth j hist 0
              = Z.of_nat (length (filter (fun s => String.length s = j) lang)).
Proof.
  intros lang.
  assert (recursion2.getLang 6 7 recursion2.module_dict "x" = Some lang) as H
    by (vm_compute; reflexivity).
  assert (Forall (fun s => PyStr.len s <= 7) lang) as Hb
    by (repeat constructor; vm_compute; discriminate).
  split; [exact H|]. split; [exact Hb|].
  exact (recursion_histogram 6 7 recursion2.module_dict "x" lang H Hb).
Defined.

Lemma histogram_loop_beyond (lang : list string) (rl : list Z) :
  Exists (fun s => Z.of_nat (length rl) <= PyStr.len s) lang ->
  Py.for_res lang (fun str returnlist => recursion2.incr_at returnlist (PyStr.len str)) rl
  = Py.Raise Py.IndexError.
Proof.
  intros Hex. revert rl Hex. induction lang as [|s lang IH]; intros rl Hex; [inversion Hex|].
  cbn [Py.for_res].
  destruct (Z_lt_le_dec (PyStr.len s) (Z.of_nat (length rl))) as [Hlt|Hge].
  - destruct (incr_at_in_bounds rl (PyStr.len s)) as (rl' & -> & Hlen & _).
    { unfold PyStr.len in *. lia. }
    apply IH. rewrite Hlen. apply Exists_cons in Hex as [Hs|Hex]; [lia|exact Hex].
  - unfold recursion2.incr_at. now rewrite index_beyond.
Qed.

(** X15.  When some string of the language is longer than [num], [recursion]
    raises IndexError. *)
Theorem recursion_IndexError (fuel : nat) (num : Z) (dict : gmap string string)
  (start : string) (lang : list string) :
  recursion2.getLang fuel num dict start = Some lang ->
  Exists (fun s => num < PyStr.len s) lang ->
  recursion2.recursion fuel num dict start = Some (Py.Raise Py.IndexError).
Proof.
  intros Hlang Hex. unfold recursion2.recursion. rewrite Hlang. f_equal.
  apply histogram_loop_beyond. eapply Exists_impl; [exact Hex|]. cbn. intros s Hs.
  unfold recursion2.zeros. rewrite repeat_length. unfold PyStr.len in *. lia.
Qed.

Lemma recursion_IndexError_witness :
  let dict : gmap string string := <["x" := "abc"]> ∅ in
  recursion2.getLang 2 1 dict "x" = Some ["abc"%string] /\
  Exists (fun s => 1 < PyStr.len s) ["abc"%string] /\
  recursion2.recursion 2 1 dict "x" = Some (Py.Raise Py.IndexError).
Proof.
  intros dict.
  assert (recursion2.getLang 2 1 dict "x" = Some ["abc"%string]) as H
    by (vm_compute; reflexivity).
  assert (Exists (fun s => 1 < PyStr.len s) ["abc"%string]) as He
    by (apply Exists_cons_hd; vm_compute; reflexivity).
  split; [exact H|]. split; [exact He|].
  exact (recursion_IndexError 2 1 dict "x" ["abc"%string] H He).
Defined.

(** ** The worker pool: single processing, final values *)

(** X17.  However the invocations interleave, no queued item is processed
    twice and none is invented: at any time the calls of [evaluate] made
    so far are, with multiplicity, among the queued items that call for
    one, and what is left of the queue is a tail of the initial queue.
    Once every invocation has returned or died, one of them having
    returned, the calls are exactly those items, each once. *)
Theorem pool_processes_each_item_once (pool_size : nat) (cfgs : list command.Graph.t)
  (generators : list command.Metric.t) (methodList : list string) (s : command.pool) :
  let gens := command.generator_dict generators in
  let T0 := command.task_queue cfgs generators methodList in
  rtc (command.step gens)
      (command.do_metrics_multithreaded pool_size cfgs generators methodList) s ->
  command.executed s ⊆+ filter (fun t => command.calls_evaluate gens t) T0 /\
  command.queue s `suffix_of` T0 /\
  (command.terminated s -> command.Exited ∈ command.workers s ->
   command.executed s ≡ₚ filter (fun t => command.calls_evaluate gens t) T0).
Proof.
  intros gens T0 Hreach.
  pose proof (pool_inv_reachable _ _ _ _ Hreach) as (_ & _ & _ & _ & Hex).
  apply trace_inv_reachable in Hreach as (P & Hperm & _ & Hexec & taken & Htaken).
  fold T0 in Hperm, Htaken.
  split; [|split].
  - rewrite Hexec, <- Hperm, filter_app. apply submseteq_inserts_r. reflexivity.
  - exists taken. exact Htaken.
  - intros Hterm Hexited. rewrite Hexec, <- Hperm.
    rewrite (terminated_held s Hterm), (Hex Hexited), !app_nil_r. reflexivity.
Qed.

Lemma pool_processes_each_item_once_witness :
  let generators := [command.cyclomatic_ok] in
  let methodList := ["a"; "b"; "c"]%string in
  let gens := command.generator_dict generators in
  exists s,
    rtc (command.step gens)
        (command.do_metrics_multithreaded 2 command.cfgs_5_50_1 generators methodList) s /\
    command.workers s = [command.Exited; command.Exited] /\
    command.executed s
    ≡ₚ filter (fun t => command.calls_evaluate gens t)
         (command.task_queue command.cfgs_5_50_1 generators methodList).
Proof.
  intros generators methodList gens.
  destruct (command.run_schedule gens [0; 1; 1; 1; 0; 1; 1; 0]%nat
              (command.do_metrics_multithreaded 2 command.cfgs_5_50_1 generators methodList))
    as [s|] eqn:Hrun; [|vm_compute in Hrun; discriminate].
  exists s.
  pose proof (run_schedule_reachable _ _ _ _ Hrun) as Hreach.
  assert (command.workers s = [command.Exited; command.Exited]) as Hw
    by (vm_compute in Hrun; injection Hrun as <-; reflexivity).
  split; [exact Hreach|]. split; [exact Hw|].
  apply (pool_processes_each_item_once 2 command.cfgs_5_50_1 generators methodList s Hreach).
  - unfold command.terminated. rewrite Hw. reflexivity.
  - rewrite Hw. apply elem_of_cons. now left.
Defined.

(** X18.  With graphs of distinct names and generators of distinct names, the
    dictionary the pool ends with does not depend on how the invocations
    interleaved, nor on their number: once every invocation has returned
    or died, one of them having returned, it holds for every queued item
    what the loop body writes for it, and nothing else. *)
Theorem pool_result_schedule_independent (pool_size : nat) (cfgs : list command.Graph.t)
  (generators : list command.Metric.t) (methodList : list string) (s : command.pool) :
  let gens := command.generator_dict generators in
  let T0 := command.task_queue cfgs generators methodList in
  NoDup (command.Graph.name <$> cfgs) ->
  NoDup (command.Metric.name <$> generators) ->
  rtc (command.step gens)
      (command.do_metrics_multithreaded pool_size cfgs generators methodList) s ->
  command.terminated s -> command.Exited ∈ command.workers s ->
  command.shared_dict s = list_to_map (omap (command.written gens) T0).
Proof.
  intros gens T0 Hc Hg Hreach Hterm Hexited.
  assert (NoDup (omap (command.written gens) T0).*1) as Hnd
    by now apply written_keys_NoDup, task_queue_keys.
  pose proof (pool_inv_reachable _ _ _ _ Hreach) as (_ & _ & _ & _ & Hex).
  apply trace_inv_reachable in Hreach as (P & Hperm & Hdict & _ & _).
  fold T0 in Hperm.
  rewrite (terminated_held s Hterm), (Hex Hexited), !app_nil_r in Hperm.
  rewrite Hdict. apply list_to_map_proper.
  - rewrite Hperm. exact Hnd.
  - rewrite Hperm. reflexivity.
Qed.

Lemma pool_result_schedule_independent_witness :
  let generators := [command.cyclomatic_ok] in
  let methodList := ["a"; "b"; "c"]%string in
  let gens := command.generator_dict generators in
  let T0 := command.task_queue command.cfgs_5_50_1 generators methodList in
  exists s,
    NoDup (command.Graph.name <$> command.cfgs_5_50_1) /\
    NoDup (command.Metric.name <$> generators) /\
    rtc (command.step gens)
        (command.do_metrics_multithreaded 2 command.cfgs_5_50_1 generators methodList) s /\
    command.workers s = [command.Exited; command.Exited] /\
    command.shared_dict s = list_to_map (omap (command.written gens) T0).
Proof.
  intros generators methodList gens T0.
  destruct (command.run_schedule gens [0; 1; 1; 1; 0; 1; 1; 0]%nat
              (command.do_metrics_multithreaded 2 command.cfgs_5_50_1 generators methodList))
    as [s|] eqn:Hrun; [|vm_compute in Hrun; discriminate].
  exists s.
  pose proof (run_schedule_reachable _ _ _ _ Hrun) as Hreach.
  assert (command.workers s = [command.Exited; command.Exited]) as Hw
    by (vm_compute in Hrun; injection Hrun as <-; reflexivity).
  assert (NoDup (command.Graph.name <$> command.cfgs_5_50_1)) as Hc
    by (apply (bool_decide_unpack _); vm_compute; exact I).
  assert (NoDup (command.Metric.name <$> generators)) as Hg by apply NoDup_singleton.
  split; [exact Hc|]. split; [exact Hg|]. split; [exact Hreach|]. split; [exact Hw|].
  apply (pool_result_schedule_independent 2 command.cfgs_5_50_1 generators methodList s
           Hc Hg Hreach).
  - unfold command.terminated. rewrite Hw. reflexivity.
  - rewrite Hw. apply elem_of_cons. now left.
Defined.

(** ** command.py: the branches of [do_vector] *)

Lemma count_acc (c : ascii) (l : list ascii) (n : Z) :
  fold_left (fun n ch => if Ascii.eqb ch c then n + 1 else n) l n
  = n + fold_left (fun n ch => if Ascii.eqb ch c then n + 1 else n) l 0.
Proof.
  revert n. induction l as [|a l IH]; intros n; cbn [fold_left]; [lia|].
  rewrite (IH (if Ascii.eqb a c then n + 1 else n)), (IH (if Ascii.eqb a c then 0 + 1 else 0)).
  destruct (Ascii.eqb a c); lia.
Qed.

Lemma count_cons (c a : ascii) (s : string) :
  PyStr.count c (String a s) = (if Ascii.eqb a c then 1 else 0) + PyStr.count c s.
Proof.
  unfold PyStr.count. cbn [list_ascii_of_string fold_left]. rewrite count_acc.
  destruct (Ascii.eqb a c); lia.
Qed.

Lemma count_nonneg (c : ascii) (s : string) : 0 <= PyStr.count c s.
Proof.
  induction s as [|a s IH]; [reflexivity|]. rewrite count_cons.
  destruct (Ascii.eqb a c); lia.
Qed.

Lemma split_nonempty (c : ascii) (s : string) : exists w ws, PyStr.split c s = w :: ws.
Proof.
  destruct s as [|a s]; cbn [PyStr.split]; [eauto|].
  destruct (Ascii.eqb a c); [eauto|]. destruct (PyStr.split c s); eauto.
Qed.

(** [split] cuts at every separator: one piece more than separators. *)
Lemma split_length (c : ascii) (s : string) :
  Z.of_nat (length (PyStr.split c s)) = PyStr.count c s + 1.
Proof.
  induction s as [|a s IH]; [reflexivity|]. rewrite count_cons. cbn [PyStr.split].
  destruct (Ascii.eqb a c).
  - cbn [length]. lia.
  - destruct (split_nonempty c s) as (w & ws & Hs). rewrite Hs in IH |- *.
    cbn [length] in IH |- *. lia.
Qed.

Lemma split_no_sep (c : ascii) (s : string) : PyStr.count c s = 0 -> PyStr.split c s = [s].
Proof.
  induction s as [|a s IH]; [reflexivity|]. rewrite count_cons. cbn [PyStr.split].
  pose proof (count_nonneg c s).
  destruct (Ascii.eqb a c); [lia|]. intros Hc. rewrite IH by lia. reflexivity.
Qed.

(** X19.  An APC without [*] other than [n] is taken for a constant: the vector
    is [0, 0, 0, float(apc), 0], and when [float] rejects the text (as it
    does the ["NA"] written at a timeout) the six-field vector ending in
    ["took too long to run"].  No exception leaves, and [coeff] keeps its
    value. *)
Theorem do_vector_constant_or_unparsable {Float} (float : string -> option Float)
  (apc pc : string) (coeff : option string) :
  PyStr.count "*" apc = 0 -> apc <> "n"%string ->
  command.do_vector_entry float apc pc coeff
  = Py.Ok (match float apc with
           | Some f => command.Fields [command.CInt 0; command.CInt 0; command.CInt 0;
                                       command.CFloat f; command.CInt 0]
           | None => command.Fields [command.CInt (-1); command.CInt (-1); command.CInt (-1);
                                     command.CInt (-1); command.CInt (-1);
                                     command.CStr "took too long to run"]
           end, coeff).
Proof.
  intros Hc Hn. unfold command.do_vector_entry. cbv zeta.
  rewrite (split_no_sep _ _ Hc). cbn [length]. change (Z.of_nat 1 =? 1) with true. cbv iota.
  rewrite index_head. res_steps.
  replace (String.eqb apc "n") with false by (symmetry; now apply String.eqb_neq).
  unfold command.py_float. destruct (float apc); reflexivity.
Qed.

Lemma do_vector_constant_or_unparsable_witness :
  PyStr.count "*" "NA" = 0 /\ "NA"%string <> "n"%string /\
  command.do_vector_entry (fun _ : string => @None Z) "NA" "Timeout" None
  = Py.Ok (command.Fields [command.CInt (-1); command.CInt (-1); command.CInt (-1);
                           command.CInt (-1); command.CInt (-1);
                           command.CStr "took too long to run"], None).
Proof.
  assert (PyStr.count "*" "NA" = 0) as Hc by reflexivity.
  assert ("NA"%string <> "n"%string) as Hn by discriminate.
  split; [exact Hc|]. split; [exact Hn|].
  exact (do_vector_constant_or_unparsable (fun _ : string => @None Z) "NA" "Timeout" None Hc Hn).
Defined.

(** X20.  An APC with one [*], or with three or more, is of no expected
    shape: the loop over the methods raises nothing and stores the message,
    a str, in place of the vector.  Appending that stored value to a row
    of the CSV file, [row + featureVector], then raises TypeError. *)
Theorem do_vector_unexpected_length {Float} (float : string -> option Float)
  (apc pc : string) (coeff : option string) :
  PyStr.count "*" apc <> 0 -> PyStr.count "*" apc <> 2 ->
  exists featureVector : command.vector Float,
    command.do_vector_entry float apc pc coeff = Py.Ok (featureVector, coeff) /\
    featureVector = command.Message "Split APC is not of an expected length" /\
    forall row, command.newRow row featureVector = Py.Raise Py.TypeError.
Proof.
  intros H0 H2. eexists. split; [|split; [reflexivity|reflexivity]].
  unfold command.do_vector_entry. cbv zeta.
  rewrite split_length.
  replace (PyStr.count "*" apc + 1 =? 1) with false by (symmetry; apply Z.eqb_neq; lia).
  replace (PyStr.count "*" apc + 1 =? 3) with false by (symmetry; apply Z.eqb_neq; lia).
  reflexivity.
Qed.

Lemma do_vector_unexpected_length_witness :
  PyStr.count "*" "2.0*n" <> 0 /\ PyStr.count "*" "2.0*n" <> 2 /\
  exists featureVector : command.vector string,
    command.do_vector_entry (fun s : string => Some s) "2.0*n" "2.0*n + 1.0" None
    = Py.Ok (featureVector, None) /\
    featureVector = command.Message "Split APC is not of an expected length" /\
    forall row, command.newRow row featureVector = Py.Raise Py.TypeError.
Proof.
  assert (PyStr.count "*" "2.0*n" <> 0) as H0 by (vm_compute; discriminate).
  assert (PyStr.count "*" "2.0*n" <> 2) as H2 by (vm_compute; discriminate).
  split; [exact H0|]. split; [exact H2|].
  exact (do_vector_unexpected_length (fun s : string => Some s) "2.0*n" "2.0*n + 1.0" None H0 H2).
Defined.

Lemma for_res_unchanged {A S} (xs : list A) (body : A -> S -> Py.result S) (s : S) :
  (forall x, x ∈ xs -> body x s = Py.Ok s) -> Py.for_res xs body s = Py.Ok s.
Proof.
  induction xs as [|x xs IH]; intros H; [reflexivity|].
  cbn [Py.for_res]. rewrite (H x) by left. apply IH. intros x' Hx'. apply H. now right.
Qed.

(** X21.  For the linear APC [n], a path complexity none of whose
    whitespace-separated entries has exactly one [*] (as [n + 1.0], where
    the coefficient 1 is not printed) leaves the vector as the split APC:
    the single field ["n"], not five fields. *)
Theorem do_vector_linear_without_term {Float} (float : string -> option Float)
  (pc : string) (coeff : option string) :
  Forall (fun entry => PyStr.count "*" entry <> 1) (PyStr.split_ws pc) ->
  command.do_vector_entry float "n" pc coeff
  = Py.Ok (command.Fields [command.CStr "n"], coeff).
Proof.
  intros Hall. unfold command.do_vector_entry. cbv zeta.
  change (PyStr.split "*" "n") with ["n"%string]. cbn [length map].
  change (Z.of_nat 1 =? 1) with true. cbv iota.
  rewrite index_head. res_steps. change (String.eqb "n" "n") with true. cbv iota.
  rewrite for_res_unchanged; [reflexivity|].
  intros entry Hin. rewrite Forall_forall in Hall. specialize (Hall entry Hin).
  cbv zeta. now replace (PyStr.count "*" entry =? 1) with false by (symmetry; now apply Z.eqb_neq).
Qed.

Lemma do_vector_linear_without_term_witness :
  Forall (fun entry => PyStr.count "*" entry <> 1) (PyStr.split_ws "n + 1.0") /\
  command.do_vector_entry (fun s : string => Some s) "n" "n + 1.0" None
  = Py.Ok (command.Fields [command.CStr "n"], None).
Proof.
  assert (Forall (fun entry => PyStr.count "*" entry <> 1) (PyStr.split_ws "n + 1.0")) as H.
  { change (PyStr.split_ws "n + 1.0") with ["n"; "+"; "1.0"]%string.
    repeat constructor; vm_compute; discriminate. }
  split; [exact H|].
  exact (do_vector_linear_without_term (fun s : string => Some s) "n + 1.0" None H).
Defined.

Lemma linear_loop_returns {Float} (float : string -> option Float) (entries : list string)
  (v : command.vector Float) :
  Forall (fun entry => PyStr.count "*" entry = 1 ->
                       float (hd EmptyString (PyStr.split "*" entry)) <> None) entries ->
  exists v',
    Py.for_res entries
      (fun entry apclist' =>
         let count := PyStr.count "*" entry in
         if count =? 1 then
           first ← Py.index (PyStr.split "*" entry) 0;
           f ← command.py_float float first;
           Py.Ok (command.Fields [command.CInt 1; command.CInt 0; command.CInt 0;
                                  command.CInt 0; command.CFloat f])
         else Py.Ok apclist') v
    = Py.Ok v'.
Proof.
  revert v. induction entries as [|e l IH]; intros v Hall; [cbn; eauto|].
  apply Forall_cons in Hall as [He Hl]. cbn [Py.for_res]. cbv zeta.
  destruct (PyStr.count "*" e =? 1) eqn:Hc.
  - apply Z.eqb_eq in Hc. specialize (He Hc).
    destruct (split_nonempty "*" e) as (w & ws & Hs). rewrite Hs in He |- *.
    rewrite index_head. res_steps. cbn [hd] in He. unfold command.py_float.
    destruct (float w) as [f|]; [|contradiction]. res_steps. apply IH, Hl.
  - apply IH, Hl.
Qed.

(** X22.  For the linear APC [n] the last entry of the path complexity with
    exactly one [*] decides: the vector is [1, 0, 0, 0, c] with [c] the
    float before that entry's [*]; ValueError leaves when [float] rejects
    it.  (The earlier entries with one [*] are parsed as well, and are
    taken to parse.) *)
Theorem do_vector_linear_last_term {Float} (float : string -> option Float)
  (pc : string) (coeff : option string) (pre post : list string) (entry : string) :
  PyStr.split_ws pc = pre ++ entry :: post ->
  Forall (fun e => PyStr.count "*" e = 1 ->
                   float (hd EmptyString (PyStr.split "*" e)) <> None) pre ->
  PyStr.count "*" entry = 1 ->
  Forall (fun e => PyStr.count "*" e <> 1) post ->
  command.do_vector_entry float "n" pc coeff
  = match float (hd EmptyString (PyStr.split "*" entry)) with
    | Some c => Py.Ok (command.Fields [command.CInt 1; command.CInt 0; command.CInt 0;
                                       command.CInt 0; command.CFloat c], coeff)
    | None => Py.Raise Py.ValueError
    end.
Proof.
  intros Hsplit Hpre Hentry Hpost. unfold command.do_vector_entry. cbv zeta.
  change (PyStr.split "*" "n") with ["n"%string]. cbn [length map].
  change (Z.of_nat 1 =? 1) with true. cbv iota.
  rewrite index_head. res_steps. change (String.eqb "n" "n") with true. cbv iota.
  rewrite Hsplit, for_res_app.
  destruct (linear_loop_returns float pre (command.Fields [command.CStr "n"]) Hpre)
    as (v' & Hv').
  cbv zeta in Hv'. rewrite Hv'. cbn [Py.for_res].
  rewrite Hentry. change (1 =? 1) with true. cbv iota.
  destruct (split_nonempty "*" entry) as (w & ws & Hs). rewrite Hs.
  rewrite index_head. res_steps. cbn [hd]. unfold command.py_float.
  destruct (float w) as [f|]; [|reflexivity]. res_steps. cbv beta iota.
  rewrite for_res_unchanged; [reflexivity|].
  intros e Hin. rewrite Forall_forall in Hpost. specialize (Hpost e Hin).
  now replace (PyStr.count "*" e =? 1) with false by (symmetry; now apply Z.eqb_neq).
Qed.

Lemma do_vector_linear_last_term_witness :
  let float := fun s : string => Some s in
  PyStr.split_ws "2.0*n + 3.0*m" = ["2.0*n"%string; "+"%string] ++ "3.0*m"%string :: [] /\
  command.do_vector_entry float "n" "2.0*n + 3.0*m" None
  = Py.Ok (command.Fields [command.CInt 1; command.CInt 0; command.CInt 0;
                           command.CInt 0; command.CFloat "3.0"%string], None).
Proof.
  intros float.
  assert (PyStr.split_ws "2.0*n + 3.0*m" = ["2.0*n"%string; "+"%string] ++ "3.0*m"%string :: [])
    as Hs by reflexivity.
  split; [exact Hs|].
  apply (do_vector_linear_last_term float "2.0*n + 3.0*m" None _ _ _ Hs).
  - repeat constructor; intros _; discriminate.
  - reflexivity.
  - constructor.
Defined.

Lemma index_last {A} (l : list A) (d : A) :
  l <> [] -> Py.index l (-1) = Py.Ok (List.last l d).
Proof.
  intros Hl. destruct (exists_last Hl) as (l' & x & ->).
  unfold Py.index. rewrite length_app, List.last_last. cbn [length].
  change (-1 <? 0) with true. cbv iota.
  replace (0 <=? -1 + Z.of_nat (length l' + 1)) with true by (symmetry; apply Z.leb_le; lia).
  replace (-1 + Z.of_nat (length l' + 1) <? Z.of_nat (length l' + 1)) with true
    by (symmetry; apply Z.ltb_lt; lia).
  cbn [andb].
  replace (Z.to_nat (-1 + Z.of_nat (length l' + 1))) with (length l' + 0)%nat by lia.
  now rewrite nth_error_app2, Nat.add_comm, Nat.add_sub by lia.
Qed.

Lemma three_pieces (apc : string) :
  PyStr.count "*" apc = 2 -> exists a b c, PyStr.split "*" apc = [a; b; c].
Proof.
  intros Hc. pose proof (split_length "*" apc) as Hlen. rewrite Hc in Hlen.
  destruct (PyStr.split "*" apc) as [|a [|b [|c [|d l]]]]; cbn [length] in Hlen; try lia.
  eauto.
Qed.

(** X23.  For an APC [a*b*c] (a power [n**k], an exponential [b**n]) whose
    three pieces stand nowhere in a row in the pieces of the path
    complexity, the loop binds no coefficient: the vector carries the value
    [coeff] was left with by an earlier method, and with none bound yet
    UnboundLocalError leaves (ValueError first, when [float] rejects the
    power or the base). *)
Theorem do_vector_coefficient_not_found {Float} (float : string -> option Float)
  (apc pc : string) (coeff : option string) :
  let pcSplit := PyStr.split "*" (PyStr.replace " " "*" pc) in
  PyStr.count "*" apc = 2 ->
  (forall i, 0 <= i < Z.of_nat (length pcSplit) - 2 ->
             command.slice pcSplit i (i + 3) <> PyStr.split "*" apc) ->
  match command.do_vector_entry float apc pc coeff with
  | Py.Ok (command.Fields l, coeff') =>
      coeff' = coeff /\ exists c, coeff = Some c /\ command.CStr c ∈ l
  | Py.Ok (command.Message _, _) => False
  | Py.Raise e => e = Py.ValueError \/ (e = Py.UnboundLocalError /\ coeff = None)
  end.
Proof.
  intros pcSplit Hc Hno. unfold command.do_vector_entry. cbv zeta.
  rewrite split_length, Hc. change (2 + 1 =? 1) with false. change (2 + 1 =? 3) with true.
  cbv iota. fold pcSplit.
  rewrite for_res_unchanged.
  2:{ intros i Hi. apply list_elem_of_In, range_elem in Hi.
      rewrite bool_decide_eq_false_2 by now apply Hno. reflexivity. }
  res_steps. destruct (three_pieces apc Hc) as (a & b & c & Hs). rewrite Hs.
  rewrite index_head. res_steps.
  assert (Py.index [a; b; c] 2 = Py.Ok c) as Hi2 by reflexivity.
  destruct (String.eqb a "n").
  - rewrite Hi2. res_steps. unfold command.py_float.
    destruct (float c) as [power|]; [|now left]. res_steps.
    destruct coeff as [k|]; [|now right].
    split; [reflexivity|]. exists k. split; [reflexivity|].
    do 3 apply list_elem_of_further. apply list_elem_of_here.
  - unfold command.py_float.
    destruct (float a) as [base|]; [|now left]. res_steps.
    destruct coeff as [k|]; [|now right].
    split; [reflexivity|]. exists k. split; [reflexivity|].
    apply list_elem_of_further. apply list_elem_of_here.
Qed.

Lemma do_vector_coefficient_not_found_witness :
  let float := fun s : string => Some s in
  let pcSplit := PyStr.split "*" (PyStr.replace " " "*" "1.0*n**3") in
  PyStr.count "*" "n**2" = 2 /\
  (forall i, 0 <= i < Z.of_nat (length pcSplit) - 2 ->
             command.slice pcSplit i (i + 3) <> PyStr.split "*" "n**2") /\
  command.do_vector_entry float "n**2" "1.0*n**3" (Some "0.5"%string)
  = Py.Ok (command.Fields [command.CInt 2; command.CInt 0; command.CInt 0;
                           command.CStr "0.5"; command.CFloat "2"%string],
           Some "0.5"%string) /\
  match command.do_vector_entry float "n**2" "1.0*n**3" None with
  | Py.Ok (command.Fields l, coeff') =>
      coeff' = None /\ exists c, @None string = Some c /\ command.CStr c ∈ l
  | Py.Ok (command.Message _, _) => False
  | Py.Raise e => e = Py.ValueError \/ (e = Py.UnboundLocalError /\ @None string = None)
  end.
Proof.
  intros float pcSplit.
  assert (PyStr.count "*" "n**2" = 2) as Hc by reflexivity.
  assert (forall i, 0 <= i < Z.of_nat (length pcSplit) - 2 ->
                    command.slice pcSplit i (i + 3) <> PyStr.split "*" "n**2") as Hno.
  { intros i Hi. change (Z.of_nat (length pcSplit) - 2) with 2 in Hi.
    assert (i = 0 \/ i = 1) as [-> | ->] by lia; vm_compute; discriminate. }
  split; [exact Hc|]. split; [exact Hno|]. split; [reflexivity|].
  exact (do_vector_coefficient_not_found float "n**2" "1.0*n**3" None Hc Hno).
Defined.

(** X24.  When the path complexity begins with the APC's own term (as
    [n**2 + 3.0*n], where the coefficient 1 is not printed) and the term
    does not stand again further on, the coefficient is read at index -1:
    it is the last piece of the path complexity, whatever [coeff] held
    before. *)
Theorem do_vector_leading_term_coefficient {Float} (float : string -> option Float)
  (apc pc : string) (coeff : option string) (rest : list string) :
  let pcSplit := PyStr.split "*" (PyStr.replace " " "*" pc) in
  PyStr.count "*" apc = 2 ->
  pcSplit = PyStr.split "*" apc ++ rest ->
  (forall i, 1 <= i < Z.of_nat (length pcSplit) - 2 ->
             command.slice pcSplit i (i + 3) <> PyStr.split "*" apc) ->
  match command.do_vector_entry float apc pc coeff with
  | Py.Ok (command.Fields l, coeff') =>
      coeff' = Some (List.last pcSplit EmptyString) /\
      command.CStr (List.last pcSplit EmptyString) ∈ l
  | Py.Ok (command.Message _, _) => False
  | Py.Raise e => e = Py.ValueError
  end.
Proof.
  intros pcSplit Hc Hlead Hno. unfold command.do_vector_entry. cbv zeta.
  rewrite split_length, Hc. change (2 + 1 =? 1) with false. change (2 + 1 =? 3) with true.
  cbv iota. fold pcSplit.
  destruct (three_pieces apc Hc) as (a & b & c & Hs). rewrite Hs in *.
  assert (Py.range (Z.of_nat (length pcSplit) - 2)
          = 0 :: map Z.of_nat (seq 1 (length rest))) as ->.
  { rewrite Hlead. cbn [length app]. unfold Py.range.
    replace (Z.to_nat (Z.of_nat (S (S (S (length rest)))) - 2)) with (S (length rest)) by lia.
    reflexivity. }
  cbn [Py.for_res].
  assert (command.slice pcSplit 0 (0 + 3) = [a; b; c]) as -> by now rewrite Hlead.
  rewrite bool_decide_eq_true_2 by reflexivity.
  change (0 - 1) with (-1).
  rewrite (index_last pcSplit EmptyString) by (rewrite Hlead; discriminate).
  res_steps. cbv beta iota.
  rewrite for_res_unchanged.
  2:{ intros i Hi. apply list_elem_of_In, in_map_iff in Hi as (k & <- & Hk).
      apply in_seq in Hk.
      rewrite bool_decide_eq_false_2; [reflexivity|].
      apply Hno. rewrite Hlead. cbn [length app]. lia. }
  res_steps. rewrite index_head. res_steps.
  assert (Py.index [a; b; c] 2 = Py.Ok c) as Hi2 by reflexivity.
  destruct (String.eqb a "n").
  - rewrite Hi2. res_steps. unfold command.py_float.
    destruct (float c) as [power|]; [|reflexivity]. res_steps.
    split; [reflexivity|].
    do 3 apply list_elem_of_further. apply list_elem_of_here.
  - unfold command.py_float.
    destruct (float a) as [base|]; [|reflexivity]. res_steps.
    split; [reflexivity|].
    apply list_elem_of_further. apply list_elem_of_here.
Qed.

Lemma do_vector_leading_term_coefficient_witness :
  let float := fun s : string => Some s in
  let pcSplit := PyStr.split "*" (PyStr.replace " " "*" "n**2 + 3.0*n") in
  PyStr.count "*" "n**2" = 2 /\
  pcSplit = PyStr.split "*" "n**2" ++ ["+"; "3.0"; "n"]%string /\
  List.last pcSplit EmptyString = "n"%string /\
  command.do_vector_entry float "n**2" "n**2 + 3.0*n" None
  = Py.Ok (command.Fields [command.CInt 2; command.CInt 0; command.CInt 0;
                           command.CStr "n"; command.CFloat "2"%string],
           Some "n"%string) /\
  match command.do_vector_entry float "n**2" "n**2 + 3.0*n" None with
  | Py.Ok (command.Fields l, coeff') =>
      coeff' = Some (List.last pcSplit EmptyString) /\
      command.CStr (List.last pcSplit EmptyString) ∈ l
  | Py.Ok (command.Message _, _) => False
  | Py.Raise e => e = Py.ValueError
  end.
Proof.
  intros float pcSplit.
  assert (PyStr.count "*" "n**2" = 2) as Hc by reflexivity.
  assert (pcSplit = PyStr.split "*" "n**2" ++ ["+"; "3.0"; "n"]%string) as Hlead by reflexivity.
  assert (forall i, 1 <= i < Z.of_nat (length pcSplit) - 2 ->
                    command.slice pcSplit i (i + 3) <> PyStr.split "*" "n**2") as Hno.
  { intros i Hi. change (Z.of_nat (length pcSplit) - 2) with 4 in Hi.
    assert (i = 1 \/ i = 2 \/ i = 3) as [-> | [-> | ->]] by lia; vm_compute; discriminate. }
  split; [exact Hc|]. split; [exact Hlead|]. split; [reflexivity|]. split; [reflexivity|].
  exact (do_vector_leading_term_coefficient float "n**2" "n**2 + 3.0*n" None _ Hc Hlead Hno).
Defined.

(** ** command.py: [method_cleaner] *)

Example method_cleaner_method :
  command.method_cleaner "org.jmol.viewer.Viewer.getAtomCount int(int, int)"
  = Py.Ok "org.jmol.viewer.Viewer.getAtomCount:int"%string.
Proof. vm_compute. reflexivity. Qed.

Example method_cleaner_constructor :
  command.method_cleaner "org.jmol.viewer.Viewer.<init>(int)"
  = Py.Ok "org.jmol.viewer.Viewer.viewer.Viewer"%string.
Proof. vm_compute. reflexivity. Qed.

Lemma replace_list (a b : ascii) (s : string) :
  list_ascii_of_string (PyStr.replace a b s)
  = map (fun c => if Ascii.eqb c a then b else c) (list_ascii_of_string s).
Proof.
  induction s as [|c s IH]; [reflexivity|].
  cbn [PyStr.replace list_ascii_of_string map]. now rewrite IH.
Qed.

Lemma replace_app (a b : ascii) (s t : string) :
  PyStr.replace a b (String.append s t)
  = String.append (PyStr.replace a b s) (PyStr.replace a b t).
Proof.
  induction s as [|c s IH]; [reflexivity|].
  change (String.append (String c s) t) with (String c (String.append s t)).
  cbn [PyStr.replace]. rewrite IH. reflexivity.
Qed.

Lemma prefix_char (c a : ascii) (s : string) :
  String.prefix (String c EmptyString) (String a s) = Ascii.eqb c a.
Proof.
  cbn [String.prefix]. destruct (ascii_dec c a) as [->|Hne].
  - rewrite Ascii.eqb_refl. now destruct s.
  - symmetry. now apply Ascii.eqb_neq.
Qed.

Lemma find_char_cons (c a : ascii) (s : string) :
  PyStr.find (String c EmptyString) (String a s)
  = if Ascii.eqb c a then 0
    else if PyStr.find (String c EmptyString) s <? 0 then -1
         else PyStr.find (String c EmptyString) s + 1.
Proof.
  change (PyStr.find (String c EmptyString) (String a s))
    with (if String.prefix (String c EmptyString) (String a s) then 0
          else let r := PyStr.find (String c EmptyString) s in if r <? 0 then -1 else r + 1).
  now rewrite prefix_char.
Qed.

(** Where [find] sees a character: nowhere, or first after a prefix
    without it. *)
Lemma find_char (c : ascii) (s : string) :
  (PyStr.find (String c EmptyString) s = -1 /\
   Forall (fun a => a <> c) (list_ascii_of_string s)) \/
  (exists pre rest,
     s = String.append pre (String c rest) /\
     PyStr.find (String c EmptyString) s = PyStr.len pre /\
     Forall (fun a => a <> c) (list_ascii_of_string pre)).
Proof.
  induction s as [|a s IH].
  - left. split; [reflexivity|constructor].
  - rewrite find_char_cons. destruct (Ascii.eqb c a) eqn:Hca.
    + apply Ascii.eqb_eq in Hca as <-. right. exists EmptyString, s.
      split; [reflexivity|]. split; [reflexivity|constructor].
    + apply Ascii.eqb_neq in Hca. destruct IH as [[Hf Hall]|(pre & rest & -> & Hf & Hall)].
      * left. rewrite Hf. split; [reflexivity|]. constructor; [congruence|exact Hall].
      * right. exists (String a pre), rest. split; [reflexivity|].
        rewrite Hf. unfold PyStr.len. cbn [String.length list_ascii_of_string].
        replace (Z.of_nat (String.length pre) <? 0) with false
          by (symmetry; apply Z.ltb_ge; lia).
        split; [lia|]. constructor; [congruence|exact Hall].
Qed.

Lemma length_list_ascii (s : string) : length (list_ascii_of_string s) = String.length s.
Proof. induction s as [|c s IH]; [reflexivity|]. cbn. now rewrite IH. Qed.

Lemma slice_prefix (pre t : string) :
  PyStr.slice (String.append pre t) 0 (PyStr.len pre) = pre.
Proof.
  unfold PyStr.slice, PyStr.len. cbv zeta.
  assert (String.length (String.append pre t) = (String.length pre + String.length t)%nat) as Hl.
  { rewrite <- !length_list_ascii, list_ascii_app. apply length_app. }
  rewrite Hl. change (0 <? 0) with false. cbv iota.
  replace (Z.of_nat (String.length pre) <? 0) with false by (symmetry; apply Z.ltb_ge; lia).
  replace (Z.min 0 (Z.of_nat (String.length pre + String.length t))) with 0 by lia.
  replace (Z.min (Z.of_nat (String.length pre)) (Z.of_nat (String.length pre + String.length t)))
    with (Z.of_nat (String.length pre)) by lia.
  rewrite Z.sub_0_r, Nat2Z.id. change (Z.to_nat 0) with 0%nat. cbn [skipn].
  rewrite list_ascii_app, <- (length_list_ascii pre), drop_0.
  rewrite (firstn_app (length (list_ascii_of_string pre))), Nat.sub_diag, firstn_all.
  cbn [firstn]. rewrite app_nil_r. apply string_of_list_ascii_of_string.
Qed.

Lemma slice_chars (P : ascii -> Prop) (s : string) (i j : Z) :
  Forall P (list_ascii_of_string s) -> Forall P (list_ascii_of_string (PyStr.slice s i j)).
Proof.
  intros H. unfold PyStr.slice. cbv zeta. rewrite list_ascii_of_string_of_list_ascii.
  apply Forall_take, Forall_drop, H.
Qed.

Lemma replace_sub_chars (P : ascii -> Prop) (old new s : string) (skip : nat) :
  Forall P (list_ascii_of_string new) -> Forall P (list_ascii_of_string s) ->
  Forall P (list_ascii_of_string (PyStr.replace_sub_aux old new skip s)).
Proof.
  intros Hnew. revert skip. induction s as [|c s IH]; intros skip Hs; [constructor|].
  cbn [list_ascii_of_string] in Hs. apply Forall_cons in Hs as [Hc Hs].
  cbn [PyStr.replace_sub_aux]. destruct skip as [|k]; [|now apply IH].
  destruct (String.prefix old (String c s)).
  - rewrite list_ascii_app. apply Forall_app. split; [exact Hnew|now apply IH].
  - cbn [list_ascii_of_string]. constructor; [exact Hc|now apply IH].
Qed.

(** X25.  A name without a parenthesis is refused: [str.index] raises
    ValueError. *)
Theorem method_cleaner_no_parenthesis (method : string) :
  Forall (fun c => c <> "("%char) (list_ascii_of_string method) ->
  command.method_cleaner method = Py.Raise Py.ValueError.
Proof.
  intros Hno. unfold command.method_cleaner, PyStr.index. cbv zeta.
  destruct (find_char "(" (PyStr.replace " " ":" method))
    as [[Hf _]|(pre & rest & Hs & _ & _)].
  - rewrite Hf. reflexivity.
  - exfalso. apply (f_equal list_ascii_of_string) in Hs.
    rewrite replace_list, list_ascii_app in Hs.
    assert (In "("%char (map (fun c => if Ascii.eqb c " " then ":"%char else c)
                           (list_ascii_of_string method))) as Hin
      by (rewrite Hs; apply in_or_app; right; now left).
    apply in_map_iff in Hin as (c & Hc & Hin).
    rewrite Forall_forall in Hno. apply list_elem_of_In in Hin. specialize (Hno c Hin).
    destruct (Ascii.eqb c " "); [discriminate|congruence].
Qed.

Lemma method_cleaner_no_parenthesis_witness :
  Forall (fun c => c <> "("%char) (list_ascii_of_string "Viewer.getAtomCount") /\
  command.method_cleaner "Viewer.getAtomCount" = Py.Raise Py.ValueError.
Proof.
  assert (Forall (fun c => c <> "("%char) (list_ascii_of_string "Viewer.getAtomCount")) as H
    by (cbn; repeat constructor; discriminate).
  split; [exact H|]. exact (method_cleaner_no_parenthesis "Viewer.getAtomCount" H).
Defined.

(** X26.  The name of a method that is no constructor is cut at its first
    parenthesis and has its spaces turned into colons; what follows the
    parenthesis plays no part. *)
Theorem method_cleaner_method_name (name rest : string) :
  Forall (fun c => c <> "("%char) (list_ascii_of_string name) ->
  PyStr.contains "<init>" (PyStr.replace " " ":" name) = false ->
  command.method_cleaner (String.append name (String "(" rest))
  = Py.Ok (PyStr.replace " " ":" name).
Proof.
  intros Hno Hinit. unfold command.method_cleaner, PyStr.index. cbv zeta.
  rewrite replace_app.
  change (PyStr.replace " " ":" (String "(" rest)) with (String "(" (PyStr.replace " " ":" rest)).
  assert (PyStr.find "(" (String.append (PyStr.replace " " ":" name)
                            (String "(" (PyStr.replace " " ":" rest)))
          = PyStr.len (PyStr.replace " " ":" name)) as Hf.
  { assert (Forall (fun c => c <> "("%char)
              (list_ascii_of_string (PyStr.replace " " ":" name))) as Hno'.
    { rewrite replace_list. apply Forall_forall. intros c Hc.
      apply list_elem_of_In, in_map_iff in Hc as (c0 & <- & Hc0).
      rewrite Forall_forall in Hno. apply list_elem_of_In in Hc0. specialize (Hno c0 Hc0).
      destruct (Ascii.eqb c0 " "); [discriminate|exact Hno]. }
    revert Hno'. generalize (PyStr.replace " " ":" name) as pre.
    generalize (PyStr.replace " " ":" rest) as t. clear.
    intros t pre. induction pre as [|a pre IH]; intros Hno'.
    - change (String.append EmptyString (String "(" t)) with (String "("%char t).
      rewrite find_char_cons. reflexivity.
    - cbn [list_ascii_of_string] in Hno'. apply Forall_cons in Hno' as [Ha Hpre].
      change (String.append (String a pre) (String "(" t))
        with (String a (String.append pre (String "(" t))).
      rewrite find_char_cons, (IH Hpre).
      replace (Ascii.eqb "(" a) with false by (symmetry; apply Ascii.eqb_neq; congruence).
      unfold PyStr.len. cbn [String.length].
      replace (Z.of_nat (String.length pre) <? 0) with false
        by (symmetry; apply Z.ltb_ge; lia).
      lia. }
  rewrite Hf.
  replace (PyStr.len (PyStr.replace " " ":" name) <? 0) with false
    by (symmetry; apply Z.ltb_ge; unfold PyStr.len; lia).
  res_steps. rewrite slice_prefix, Hinit. reflexivity.
Qed.

Lemma method_cleaner_method_name_witness :
  Forall (fun c => c <> "("%char) (list_ascii_of_string "Viewer.getAtomCount int") /\
  PyStr.contains "<init>" (PyStr.replace " " ":" "Viewer.getAtomCount int") = false /\
  command.method_cleaner "Viewer.getAtomCount int(int, int)"
  = Py.Ok "Viewer.getAtomCount:int"%string.
Proof.
  assert (Forall (fun c => c <> "("%char) (list_ascii_of_string "Viewer.getAtomCount int")) as H
    by (cbn; repeat constructor; discriminate).
  assert (PyStr.contains "<init>" (PyStr.replace " " ":" "Viewer.getAtomCount int") = false)
    as Hi by reflexivity.
  split; [exact H|]. split; [exact Hi|].
  exact (method_cleaner_method_name "Viewer.getAtomCount int" "int, int)" H Hi).
Defined.

(** X27.  Whatever it returns, constructor or not, the cleaned name holds no
    space and no parenthesis. *)
Theorem method_cleaner_result_clean (method cleaned : string) :
  command.method_cleaner method = Py.Ok cleaned ->
  Forall (fun c => c <> " "%char /\ c <> "("%char) (list_ascii_of_string cleaned).
Proof.
  unfold command.method_cleaner, PyStr.index. cbv zeta. intros H.
  assert (Forall (fun c => c <> " "%char)
            (list_ascii_of_string (PyStr.replace " " ":" method))) as Hsp.
  { rewrite replace_list. apply Forall_forall. intros c Hc.
    apply list_elem_of_In, in_map_iff in Hc as (c0 & <- & _).
    destruct (Ascii.eqb c0 " ") eqn:E; [discriminate|now apply Ascii.eqb_neq]. }
  destruct (find_char "(" (PyStr.replace " " ":" method))
    as [[Hf _]|(pre & rest & Hs & Hf & Hpre)].
  - rewrite Hf in H. discriminate.
  - rewrite Hf in H.
    replace (PyStr.len pre <? 0) with false in H
      by (symmetry; apply Z.ltb_ge; unfold PyStr.len; lia).
    revert H. res_steps. rewrite Hs, slice_prefix. rewrite Hs, list_ascii_app in Hsp.
    apply Forall_app in Hsp as [Hsp _].
    assert (Forall (fun c => c <> " "%char /\ c <> "("%char) (list_ascii_of_string pre)) as Hboth.
    { apply Forall_forall. intros c Hc. rewrite Forall_forall in Hsp, Hpre. auto. }
    destruct (PyStr.contains "<init>" pre); intros [= <-]; [|exact Hboth].
    apply replace_sub_chars; [|exact Hboth]. now apply slice_chars.
Qed.

Lemma method_cleaner_result_clean_witness :
  command.method_cleaner "org.jmol.viewer.Viewer.<init>(int, int)"
  = Py.Ok "org.jmol.viewer.Viewer.viewer.Viewer"%string /\
  Forall (fun c => c <> " "%char /\ c <> "("%char)
    (list_ascii_of_string "org.jmol.viewer.Viewer.viewer.Viewer").
Proof.
  assert (command.method_cleaner "org.jmol.viewer.Viewer.<init>(int, int)"
          = Py.Ok "org.jmol.viewer.Viewer.viewer.Viewer"%string) as H by reflexivity.
  split; [exact H|].
  exact (method_cleaner_result_clean _ _ H).
Defined.

(** ** [readCFG] on a file without edges *)

(** X28.  A file none of whose lines gives an edge (the empty file, or lines
    that carry digits at their start only) is read as the empty edge
    list, on which both equation builders raise IndexError: [readCFG]
    does not return. *)
Theorem readCFG_no_edge_lines (lines : list string) (recurlist : list Z) :
  Forall (fun x => exists ds rest,
            x = String.append ds rest /\ Edges.all_digit ds /\ Edges.no_digit rest) lines ->
  Edges.read_edges lines = Py.Ok [] /\
  sympycfg2.readCFG lines recurlist = Py.Raise Py.IndexError /\
  CFG2CFG.readCFG lines recurlist = Py.Raise Py.IndexError.
Proof.
  intros Hall.
  assert (Edges.read_edges lines = Py.Ok []) as Hread.
  { unfold Edges.read_edges.
    rewrite (read_edges_acc lines (map (fun _ => None) lines)).
    - cbn [app]. f_equal. clear. induction lines as [|x l IH]; [reflexivity|exact IH].
    - induction Hall as [|x l (ds & rest & -> & Hds & Hrest) _ IH]; constructor; [|exact IH].
      now apply parse_line_None. }
  split; [exact Hread|].
  unfold sympycfg2.readCFG, CFG2CFG.readCFG. rewrite Hread. res_steps. split.
  - unfold sympycfg2.calculateSystem. now rewrite index_nil.
  - unfold CFG2CFG.calculateSystem. cbn [Edges.edgedict_of fold_left Py.for_res].
    res_steps. now rewrite index_nil.
Qed.

Lemma readCFG_no_edge_lines_witness :
  let lines := ["digraph cfg {"; "}"]%string in
  Forall (fun x => exists ds rest,
            x = String.append ds rest /\ Edges.all_digit ds /\ Edges.no_digit rest) lines /\
  sympycfg2.readCFG lines [0] = Py.Raise Py.IndexError /\
  CFG2CFG.readCFG lines [0] = Py.Raise Py.IndexError.
Proof.
  intros lines.
  assert (Forall (fun x => exists ds rest,
                    x = String.append ds rest /\ Edges.all_digit ds /\ Edges.no_digit rest)
            lines) as H.
  { repeat constructor.
    - exists EmptyString, "digraph cfg {"%string. split; [reflexivity|]. split; [constructor|].
      unfold Edges.no_digit. cbn. repeat constructor.
    - exists EmptyString, "}"%string. split; [reflexivity|]. split; [constructor|].
      unfold Edges.no_digit. cbn. repeat constructor. }
  split; [exact H|]. exact (proj2 (readCFG_no_edge_lines lines [0] H)).
Defined.
